(** * pypdf: stream filters, number trees, inherited attributes, xref
      location and the layout-mode transform stack

    A shallow embedding of the parts of pypdf that its specification
    describes, with one module per source file:

    - [Generic]            the objects of pypdf/generic that the others use
    - [Filters]            pypdf/filters.py
    - [PageLabels]         pypdf/_page_labels.py
    - [DataStructures]     pypdf/generic/_data_structures.py
    - [Utils], [Reader]    pypdf/_utils.py, pypdf/_reader.py
    - [TextStateManager]   pypdf/_text_extraction/_layout_mode/_text_state_manager.py
    - [FixedWidthPage]     pypdf/_text_extraction/_layout_mode/_fixed_width_page.py

    Python exceptions are values of [exn]; a function that can raise returns
    a [result].  Loops whose termination is not structural take a fuel
    argument and answer [OutOfFuel] when it is used up. *)

From Stdlib Require Import ZArith List String Ascii Lia Bool Arith.
From Stdlib Require Import DecimalString Sorted.
From Stdlib.Strings Require Import Byte.
Import ListNotations.

Set Implicit Arguments.
Set Warnings "-register-all".

(** ** The Python runtime, as far as the embedded code uses it *)

Module Py.

Inductive exn : Type :=
| KeyError
| IndexError
| TypeError
| ValueError
| AttributeError
| RecursionError
| OSError
| ReferenceNotFound
| PdfReadError (msg : string)
| PdfStreamError (msg : string)
| NotImplementedError (msg : string).

Inductive result (A : Type) : Type :=
| Ok (a : A)
| Raise (e : exn)
| OutOfFuel.

Arguments Ok {A} a.
Arguments Raise {A} e.
Arguments OutOfFuel {A}.

Definition bind {A B : Type} (r : result A) (k : A -> result B) : result B :=
  match r with
  | Ok a => k a
  | Raise e => Raise e
  | OutOfFuel => OutOfFuel
  end.

Definition rmap {A B : Type} (f : A -> B) (r : result A) : result B :=
  bind r (fun a => Ok (f a)).

Definition returns {A : Type} (r : result A) : Prop :=
  exists a, r = Ok a.

Definition raises {A : Type} (r : result A) : Prop :=
  exists e, r = Raise e.

(** [xs[a:b]] for [0 <= a]: both ends are clamped to the length. *)
Definition slice {A : Type} (xs : list A) (a b : nat) : list A :=
  firstn (b - a) (skipn a xs).

(** [xs[i]] for [0 <= i]. *)
Definition index {A : Type} (xs : list A) (i : nat) : result A :=
  match nth_error xs i with
  | Some x => Ok x
  | None => Raise IndexError
  end.

(** [range(0, n, step)] for [0 < step], as the list of its values. *)
Definition range_step (n step : nat) : list nat :=
  map (fun k => k * step) (seq 0 ((n + step - 1) / step)).

(** [range(a, b)] over the integers. *)
Definition zrange (a b : Z) : list Z :=
  map (fun k => (a + Z.of_nat k)%Z) (seq 0 (Z.to_nat (b - a))).

(** [xs[j]] for any integer [j]: a negative index counts from the end. *)
Definition getitem {A : Type} (xs : list A) (j : Z) : result A :=
  let n := Z.of_nat (List.length xs) in
  if ((0 <=? j) && (j <? n))%Z then index xs (Z.to_nat j)
  else if ((- n <=? j) && (j <? 0))%Z then index xs (Z.to_nat (n + j))
  else Raise IndexError.

(** [xs[:j] + [v] + xs[j+1:]] for [j < len(xs)]. *)
Fixpoint update {A : Type} (xs : list A) (j : nat) (v : A) : list A :=
  match xs, j with
  | [], _ => []
  | _ :: xs', O => v :: xs'
  | x :: xs', S j' => x :: update xs' j' v
  end.

(** [xs[j] = v].  A [bytes] object is immutable and the store raises
    [TypeError]; a [bytearray] ([mutable = true]) is updated in place. *)
Definition setitem {A : Type} (mutable : bool) (xs : list A) (j : Z) (v : A)
  : result (list A) :=
  if mutable then
    let n := Z.of_nat (List.length xs) in
    if ((0 <=? j) && (j <? n))%Z then Ok (update xs (Z.to_nat j) v)
    else if ((- n <=? j) && (j <? 0))%Z then Ok (update xs (Z.to_nat (n + j)) v)
    else Raise IndexError
  else Raise TypeError.

(** [str(z)] for an integer. *)
Definition str_of_Z (z : Z) : string := NilZero.string_of_int (Z.to_int z).

Definition Z_of_byte (b : byte) : Z := Z.of_nat (Byte.to_nat b).

(** The byte of value [z mod 256]. *)
Definition byte_of_Z (z : Z) : byte :=
  match Byte.of_nat (Z.to_nat (z mod 256)) with
  | Some b => b
  | None => x00
  end.

End Py.

Import Py.

Declare Scope py_scope.
Delimit Scope py_scope with py.
Notation "x <- c1 ;; c2" := (bind c1 (fun x => c2))
  (at level 61, c1 at next level, right associativity) : py_scope.
Notation "' pat <- c1 ;; c2" := (bind c1 (fun x => match x with pat => c2 end))
  (at level 61, pat pattern, c1 at next level, right associativity) : py_scope.
Open Scope py_scope.

(** ** pypdf/generic: the object model *)

Module Generic.

(** The PDF objects the embedded code handles.  [NameObject] and
    [TextStringObject] are both subclasses of [str]; [NumberObject] is a
    subclass of [int]; an [IndirectObject] stands for the object of that id
    in the document's object table. *)
Inductive PdfObject : Type :=
| NullObject
| BooleanObject (b : bool)
| NumberObject (n : Z)
| NameObject (s : string)
| TextStringObject (s : string)
| ArrayObject (items : list PdfObject)
| DictionaryObject (entries : list (string * PdfObject))
| IndirectObject (idnum : nat).

(** [dict.get(key)]: the stored value, not resolved. *)
Fixpoint dict_get (entries : list (string * PdfObject)) (key : string)
  : option PdfObject :=
  match entries with
  | [] => None
  | (k, v) :: rest => if String.eqb k key then Some v else dict_get rest key
  end.

(** [isinstance(o, str)] with the characters of the string. *)
Definition as_str (o : PdfObject) : option string :=
  match o with
  | NameObject s | TextStringObject s => Some s
  | _ => None
  end.

(** [o == s] for a Python string [s]. *)
Definition eq_str (o : PdfObject) (s : string) : bool :=
  match as_str o with
  | Some t => String.eqb t s
  | None => false
  end.

(** [o == n] for a [NumberObject] [n]: only a number compares equal to it. *)
Definition eq_number (o : PdfObject) (n : Z) : bool :=
  match o with
  | NumberObject m => (m =? n)%Z
  | _ => false
  end.

Section Resolution.

(** Modelled from the spec: [IndirectObject.get_object] (pypdf/generic/_base.py
    is not among the sources).  "resolve(ref) dereferences an IndirectRef
    through the Document's object table"; the table is a parameter, and a
    lookup may fail. *)
Variable resolve : nat -> result PdfObject.

(** [o.get_object()]: an indirect object resolves, any other is itself. *)
Definition get_object (o : PdfObject) : result PdfObject :=
  match o with
  | IndirectObject idnum => resolve idnum
  | _ => Ok o
  end.

(** [[f.get_object() if isinstance(f, IndirectObject) else f for f in xs]] *)
Fixpoint get_objects (xs : list PdfObject) : result (list PdfObject) :=
  match xs with
  | [] => Ok []
  | x :: xs' => y <- get_object x ;; ys <- get_objects xs' ;; Ok (y :: ys)
  end.

(** [DictionaryObject.__getitem__]: [dict.__getitem__(self, key).get_object()] *)
Definition dict_getitem (entries : list (string * PdfObject)) (key : string)
  : result PdfObject :=
  match dict_get entries key with
  | Some v => get_object v
  | None => Raise KeyError
  end.

End Resolution.

End Generic.

Import Generic.

(** ** pypdf/filters.py *)

Module Filters.

(** *** RunLengthDecode.decode *)

(** The [while i < len(data)] loop.  [i] grows by at least two in every
    iteration, so [S (length data)] iterations suffice. *)
Fixpoint rl_loop (fuel : nat) (data : list byte) (i : nat) (decoded : list byte)
  : result (list byte) :=
  match fuel with
  | O => OutOfFuel
  | S fuel' =>
    if i <? List.length data then
      length_ <- index data i ;;
      let len := Byte.to_nat length_ in
      if len =? 128 then Ok decoded
      else if len <? 128 then
        rl_loop fuel' data (i + len + 2)
                (decoded ++ slice data (i + 1) (i + len + 2))
      else
        b <- index data (i + 1) ;;
        rl_loop fuel' data (i + 2) (decoded ++ repeat b (257 - len))
    else Ok decoded
  end.

(** [except IndexError: raise PdfStreamError(...)]. *)
Definition rl_except (r : result (list byte)) : result (list byte) :=
  match r with
  | Raise IndexError => Raise (PdfStreamError "Invalid run length encoded data")
  | r => r
  end.

Definition RunLengthDecode_decode (data : list byte) : result (list byte) :=
  rl_except (rl_loop (S (List.length data)) data 0 []).

(** *** LZWDecode.Decoder *)

Module LZW.

Definition STOP : Z := 257.
Definition CLEARDICT : Z := 256.

(** The attributes of a [Decoder]; [dict] is a Python list of 4096 [str]. *)
Record Decoder : Type := mkDecoder {
  data : list byte;
  bytepos : nat;
  bitpos : Z;
  dict : list string;
  dict_size : Z;
  curr_code_size : Z
}.

Definition chr (i : nat) : string := String (ascii_of_nat i) EmptyString.

(** [self.dict_size = 258; self.curr_code_size = 9] *)
Definition reset_dict (d : Decoder) : Decoder :=
  mkDecoder (data d) (bytepos d) (bitpos d) (dict d) 258 9.

(** [Decoder.__init__]: [[''] * 4096] with [dict[i] = chr(i)] for [i < 256]. *)
Definition init (data : list byte) : Decoder :=
  reset_dict
    (mkDecoder data 0 0 (map chr (seq 0 256) ++ repeat EmptyString (4096 - 256)) 0 0).

(** The [while fillbits > 0] loop of [get_next_code]; every iteration takes at
    least one bit, so [fillbits] iterations suffice. *)
Fixpoint next_code_loop (fuel : nat) (d : Decoder) (fillbits value : Z)
  : result (Z * Decoder) :=
  if (fillbits >? 0)%Z then
    match fuel with
    | O => OutOfFuel
    | S fuel' =>
      if List.length (data d) <=? bytepos d then
        Raise (PdfReadError "LZW stream is missing stop code")
      else
        b <- index (data d) (bytepos d) ;;
        let nextbits := Z_of_byte b in
        let bitsfromhere := (8 - bitpos d)%Z in
        let bitsfromhere :=
            if (bitsfromhere >? fillbits)%Z then fillbits else bitsfromhere in
        let value :=
            Z.lor value
                  (Z.shiftl
                     (Z.land (Z.shiftr nextbits (8 - bitpos d - bitsfromhere))
                             (Z.shiftr 255 (8 - bitsfromhere)))
                     (fillbits - bitsfromhere)) in
        let fillbits := (fillbits - bitsfromhere)%Z in
        let bitpos' := (bitpos d + bitsfromhere)%Z in
        let d' :=
            if (bitpos' >=? 8)%Z
            then mkDecoder (data d) (bytepos d + 1) 0 (dict d) (dict_size d)
                           (curr_code_size d)
            else mkDecoder (data d) (bytepos d) bitpos' (dict d) (dict_size d)
                           (curr_code_size d) in
        next_code_loop fuel' d' fillbits value
    end
  else Ok (value, d).

Definition get_next_code (d : Decoder) : result (Z * Decoder) :=
  next_code_loop (Z.to_nat (curr_code_size d)) d (curr_code_size d) 0.

Definition add_code_to_dict (d : Decoder) (newstring : string) : result Decoder :=
  dict' <- setitem true (dict d) (dict_size d) newstring ;;
  let size := (dict_size d + 1)%Z in
  let width :=
      if (size =? 512)%Z then 10%Z
      else if (size =? 1024)%Z then 11%Z
      else if (size =? 2048)%Z then 12%Z
      else curr_code_size d in
  Ok (mkDecoder (data d) (bytepos d) (bitpos d) dict' size width).

(** [s[0]] of a [str]. *)
Definition first_char (s : string) : result string :=
  match s with
  | EmptyString => Raise IndexError
  | String c _ => Ok (String c EmptyString)
  end.

(** [try: s = self.dict[cW] / except IndexError: s = dict[old] + dict[old][0]] *)
Definition lookup_or_repeat (d : Decoder) (cW old : Z) : result string :=
  match getitem (dict d) cW with
  | Raise IndexError =>
    o <- getitem (dict d) old ;;
    c <- first_char o ;;
    Ok (o ++ c)%string
  | r => r
  end.

(** The [while True] loop of [decode].  Every iteration reads a code of at
    least nine bits, hence at least one byte boundary is crossed. *)
Fixpoint decode_loop (fuel : nat) (d : Decoder) (result_ : string) (old : Z)
  : result string :=
  match fuel with
  | O => OutOfFuel
  | S fuel' =>
    '(cW, d) <- get_next_code d ;;
    if (cW =? STOP)%Z then Ok result_
    else if (cW =? CLEARDICT)%Z then
      let d := reset_dict d in
      '(cW, d) <- get_next_code d ;;
      s <- getitem (dict d) cW ;;
      decode_loop fuel' d (result_ ++ s)%string cW
    else
      s <- lookup_or_repeat d cW old ;;
      o <- getitem (dict d) old ;;
      c <- first_char s ;;
      d <- add_code_to_dict d (o ++ c)%string ;;
      decode_loop fuel' d (result_ ++ s)%string cW
  end.

Definition decode (d : Decoder) : result string :=
  '(cW, d) <- get_next_code d ;;
  result_ <- getitem (dict d) cW ;;
  decode_loop (S (List.length (data d))) d result_ cW.



End LZW.

(** [LZWDecode.decode] *)
Definition LZWDecode_decode (data : list byte) : result string :=
  LZW.decode (LZW.init data).

(** *** FlateDecode._decode_predictor *)

(** [for j in range(colors, len(row)): row[j] = (row[j] + row[j-colors]) % 256].
    The right-hand side is evaluated before the store. *)
Fixpoint undo_sub (mutable : bool) (colors : Z) (js : list Z) (row : list byte)
  : result (list byte) :=
  match js with
  | [] => Ok row
  | j :: js' =>
    x <- getitem row j ;;
    y <- getitem row (j - colors) ;;
    row' <- setitem mutable row j (byte_of_Z ((Z_of_byte x + Z_of_byte y) mod 256)) ;;
    undo_sub mutable colors js' row'
  end.

Definition undo_sub_row (mutable : bool) (colors : Z) (row : list byte)
  : result (list byte) :=
  undo_sub mutable colors (zrange colors (Z.of_nat (List.length row))) row.

(** The rows loop of the TIFF branch, over the values of
    [range(0, len(data), row_size)]. *)
Fixpoint tiff_rows (mutable : bool) (data : list byte) (row_size : nat) (colors : Z)
         (starts : list nat) (output : list byte) : result (list byte) :=
  match starts with
  | [] => Ok output
  | i :: starts' =>
    let row := slice data i (i + row_size) in
    row' <- undo_sub_row mutable colors row ;;
    tiff_rows mutable data row_size colors starts' (output ++ row')
  end.

(** The rows loop of the PNG branch.  A row whose filter type is neither 0
    nor 1 falls through the [if]/[elif] and adds nothing to [output]. *)
Fixpoint png_rows (mutable : bool) (data : list byte) (row_size : nat) (colors : Z)
         (starts : list nat) (output : list byte) : result (list byte) :=
  match starts with
  | [] => Ok output
  | i :: starts' =>
    filter_type <- index data i ;;
    let row := slice data (i + 1) (i + row_size) in
    if Byte.to_nat filter_type =? 0 then
      png_rows mutable data row_size colors starts' (output ++ row)
    else if Byte.to_nat filter_type =? 1 then
      row' <- undo_sub_row mutable colors row ;;
      png_rows mutable data row_size colors starts' (output ++ row')
    else
      png_rows mutable data row_size colors starts' output
  end.

(** [range(0, len(data), row_size)]: a zero step raises [ValueError], a
    negative one gives the empty range. *)
Definition row_starts (data : list byte) (row_size : Z) : result (list nat) :=
  if (row_size =? 0)%Z then Raise ValueError
  else if (row_size <? 0)%Z then Ok []
  else Ok (range_step (List.length data) (Z.to_nat row_size)).

(** [data] is a [bytes] object at the only call site ([mutable = false]). *)
Definition _decode_predictor (mutable : bool) (data : list byte)
           (predictor columns colors bits_per_component : Z) : result (list byte) :=
  if (predictor =? 2)%Z then
    let row_size := ((columns * colors * bits_per_component + 7) / 8)%Z in
    starts <- row_starts data row_size ;;
    tiff_rows mutable data (Z.to_nat row_size) colors starts []
  else if ((10 <=? predictor) && (predictor <=? 15))%Z then
    let row_size := (columns * colors * bits_per_component / 8 + 1)%Z in
    starts <- row_starts data row_size ;;
    png_rows mutable data (Z.to_nat row_size) colors starts []
  else
    Raise (PdfReadError ("Unsupported predictor: " ++ str_of_Z predictor)).

(** *** decode_stream_data *)

(** What [data] holds between two filters: [bytes], or the [str] that
    [LZWDecode.decode] returns. *)
Inductive pydata : Type :=
| Bytes (b : list byte)
| Str (s : string).

(** A stream: its dictionary and its [_data]. *)
Record Stream : Type := mkStream {
  stream_dict : list (string * PdfObject);
  _data : pydata
}.

Section DecodeStreamData.

Variable resolve : nat -> result PdfObject.

(** The filters whose decoders are in this file or rest on [zlib], [base64]
    and [bytes.fromhex]; each is given [data] and, where the source passes
    one, the decode parameters. *)
Variable FlateDecode_decode : pydata -> option PdfObject -> result pydata.
Variable ASCIIHexDecode_decode : pydata -> result pydata.
Variable RunLengthDecode_decode' : pydata -> result pydata.
Variable LZWDecode_decode' : pydata -> option PdfObject -> result pydata.
Variable ASCII85Decode_decode : pydata -> result pydata.

(** The filter list: [stream.get("/Filter", ())] and the [isinstance] chain.
    The default [()] is none of the tested types. *)
Definition stream_filters (stream : Stream) : result (list PdfObject) :=
  match dict_get (stream_dict stream) "/Filter" with
  | None => Raise (PdfReadError "Unsupported Filter type")
  | Some filters =>
    filters <- get_object resolve filters ;;
    match filters with
    | ArrayObject items => get_objects resolve items
    | NullObject => Ok []
    | NameObject _ | TextStringObject _ => Ok [filters]
    | IndirectObject _ => f <- get_object resolve filters ;; Ok [f]
    | _ => Raise (PdfReadError "Unsupported Filter type")
    end
  end.

(** The decode parameters: [stream.get("/DecodeParms", {})]; the default is a
    plain [dict], which is none of the tested types. *)
Definition stream_decode_params (stream : Stream) : result (list PdfObject) :=
  match dict_get (stream_dict stream) "/DecodeParms" with
  | None => Raise (PdfReadError "Unsupported DecodeParms type")
  | Some decode_params =>
    decode_params <- get_object resolve decode_params ;;
    match decode_params with
    | ArrayObject items => get_objects resolve items
    | NullObject => Ok []
    | DictionaryObject _ => Ok [decode_params]
    | _ => Raise (PdfReadError "Unsupported DecodeParms type")
    end
  end.

(** [decode_params[i] if i < len(decode_params) else None] *)
Definition param_at (decode_params : list PdfObject) (i : nat) : option PdfObject :=
  nth_error decode_params i.

Definition is_image_filter (filter_type : PdfObject) : bool :=
  eq_str filter_type "/DCTDecode" || eq_str filter_type "/JPXDecode"
  || eq_str filter_type "/CCITTFaxDecode".

(** [for i, filter_type in enumerate(filters)], from index [i] on. *)
Fixpoint apply_filters (filters decode_params : list PdfObject) (i : nat)
         (data : pydata) : result pydata :=
  match filters with
  | [] => Ok data
  | filter_type :: rest =>
    if eq_str filter_type "/FlateDecode" || eq_str filter_type "/Fl" then
      data <- FlateDecode_decode data (param_at decode_params i) ;;
      apply_filters rest decode_params (S i) data
    else if eq_str filter_type "/ASCIIHexDecode" then
      data <- ASCIIHexDecode_decode data ;;
      apply_filters rest decode_params (S i) data
    else if eq_str filter_type "/RunLengthDecode" then
      data <- RunLengthDecode_decode' data ;;
      apply_filters rest decode_params (S i) data
    else if eq_str filter_type "/LZWDecode" then
      data <- LZWDecode_decode' data (param_at decode_params i) ;;
      apply_filters rest decode_params (S i) data
    else if eq_str filter_type "/ASCII85Decode" then
      data <- ASCII85Decode_decode data ;;
      apply_filters rest decode_params (S i) data
    else if is_image_filter filter_type then Ok data
    else Raise (NotImplementedError "Unsupported filter type")
  end.

Definition decode_stream_data (stream : Stream) : result pydata :=
  filters <- stream_filters stream ;;
  decode_params <- stream_decode_params stream ;;
  apply_filters filters decode_params 0 (_data stream).

End DecodeStreamData.

(** [RunLengthDecode.decode] on whatever the previous filter left in [data]:
    an item of a [str] is a [str], for which [length == 128] is false and
    [length < 128] raises [TypeError]. *)
Definition RunLengthDecode_decode_data (data : pydata) : result pydata :=
  match data with
  | Bytes b => rmap Bytes (RunLengthDecode_decode b)
  | Str EmptyString => Ok (Bytes [])
  | Str _ => Raise TypeError
  end.

(** [LZWDecode.decode] on [data]: [ord] of a one-character slice is defined
    for [bytes] and [str] alike. *)
Definition LZWDecode_decode_data (data : pydata) (decode_parms : option PdfObject)
  : result pydata :=
  match data with
  | Bytes b => rmap Str (LZWDecode_decode b)
  | Str s => rmap Str (LZWDecode_decode (list_byte_of_string s))
  end.

(** *** Properties of the filters *)

Lemma index_app_r (A : Type) (pre suf : list A) (i : nat) :
  index (pre ++ suf) (List.length pre + i) = index suf i.
Proof.
  unfold index. rewrite nth_error_app2 by lia.
  replace (List.length pre + i - List.length pre) with i by lia. reflexivity.
Qed.

Lemma slice_app_r (A : Type) (pre suf : list A) (a b : nat) :
  slice (pre ++ suf) (List.length pre + a) (List.length pre + b) = slice suf a b.
Proof.
  unfold slice. rewrite skipn_app.
  rewrite (skipn_all2 pre) by lia. simpl.
  replace (List.length pre + a - List.length pre) with a by lia.
  replace (List.length pre + b - (List.length pre + a)) with (b - a) by lia.
  reflexivity.
Qed.

Lemma rl_loop_shift (pre suf : list byte) :
  forall fuel i decoded,
    rl_loop fuel (pre ++ suf) (List.length pre + i) decoded
    = rl_loop fuel suf i decoded.
Proof.
  induction fuel as [|fuel IH]; intros i decoded; simpl; [reflexivity|].
  rewrite length_app.
  replace (List.length pre + i <? List.length pre + List.length suf)
    with (i <? List.length suf)
    by (destruct (Nat.ltb_spec i (List.length suf));
        destruct (Nat.ltb_spec (List.length pre + i)
                               (List.length pre + List.length suf)); lia).
  destruct (i <? List.length suf); [|reflexivity].
  rewrite index_app_r. destruct (index suf i) as [lb| |]; simpl; try reflexivity.
  destruct (Byte.to_nat lb =? 128); [reflexivity|].
  destruct (Byte.to_nat lb <? 128).
  - replace (List.length pre + i + Byte.to_nat lb + 2)
      with (List.length pre + (i + Byte.to_nat lb + 2)) by lia.
    replace (List.length pre + i + 1) with (List.length pre + (i + 1)) by lia.
    rewrite slice_app_r. apply IH.
  - replace (List.length pre + i + 1) with (List.length pre + (i + 1)) by lia.
    rewrite index_app_r. destruct (index suf (i + 1)); simpl; try reflexivity.
    replace (List.length pre + i + 2) with (List.length pre + (i + 2)) by lia.
    apply IH.
Qed.

Lemma rl_loop_acc (data acc : list byte) :
  forall fuel i decoded,
    rl_loop fuel data i (acc ++ decoded)
    = rmap (app acc) (rl_loop fuel data i decoded).
Proof.
  induction fuel as [|fuel IH]; intros i decoded; simpl; [reflexivity|].
  destruct (i <? List.length data); [|reflexivity].
  destruct (index data i) as [lb| |]; simpl; try reflexivity.
  destruct (Byte.to_nat lb =? 128); [reflexivity|].
  destruct (Byte.to_nat lb <? 128).
  - rewrite <- app_assoc. apply IH.
  - destruct (index data (i + 1)); simpl; try reflexivity.
    rewrite <- app_assoc. apply IH.
Qed.

Lemma rl_loop_enough (data : list byte) :
  forall fuel1 fuel2 i decoded,
    List.length data - i < fuel1 -> List.length data - i < fuel2 ->
    rl_loop fuel1 data i decoded = rl_loop fuel2 data i decoded.
Proof.
  induction fuel1 as [|fuel1 IH]; intros fuel2 i decoded H1 H2; [lia|].
  destruct fuel2 as [|fuel2]; [lia|]. simpl.
  destruct (Nat.ltb_spec i (List.length data)) as [Hi|Hi]; [|reflexivity].
  destruct (index data i) as [lb| |]; simpl; try reflexivity.
  destruct (Byte.to_nat lb =? 128); [reflexivity|].
  destruct (Byte.to_nat lb <? 128).
  - apply IH; lia.
  - destruct (index data (i + 1)); simpl; try reflexivity. apply IH; lia.
Qed.

Lemma index_fuelled (A : Type) (xs : list A) (i : nat) : index xs i <> OutOfFuel.
Proof. unfold index. destruct (nth_error xs i); discriminate. Qed.

Lemma rl_loop_fuelled (data : list byte) :
  forall fuel i decoded,
    List.length data - i < fuel -> rl_loop fuel data i decoded <> OutOfFuel.
Proof.
  induction fuel as [|fuel IH]; intros i decoded H; [lia|]. simpl.
  destruct (Nat.ltb_spec i (List.length data)) as [Hi|Hi]; [|discriminate].
  pose proof (index_fuelled data i) as N1.
  pose proof (index_fuelled data (i + 1)) as N2.
  destruct (index data i) as [lb| |]; simpl; [|discriminate|now elim N1].
  destruct (Byte.to_nat lb =? 128); [discriminate|].
  destruct (Byte.to_nat lb <? 128); [apply IH; lia|].
  destruct (index data (i + 1)); simpl; [apply IH; lia|discriminate|now elim N2].
Qed.

Lemma rl_except_rmap (f : list byte -> list byte) (r : result (list byte)) :
  rl_except (rmap f r) = rmap f (rl_except r).
Proof. destruct r as [a|e|]; simpl; try reflexivity. destruct e; reflexivity. Qed.

Lemma RunLengthDecode_decode_cons (pre rest : list byte) (out : list byte) :
  forall fuel,
    List.length rest < fuel ->
    rl_except (rl_loop fuel (pre ++ rest) (List.length pre) out)
    = rmap (app out) (RunLengthDecode_decode rest).
Proof.
  intros fuel Hf. unfold RunLengthDecode_decode.
  replace (List.length pre) with (List.length pre + 0) by lia.
  rewrite rl_loop_shift.
  rewrite (rl_loop_enough rest (fuel1 := fuel) (fuel2 := S (List.length rest))) by lia.
  rewrite <- (app_nil_r out) at 1. rewrite rl_loop_acc, rl_except_rmap. reflexivity.
Qed.

(** RunLengthDecode.decode always returns or raises: the loop never needs
    more than [S (length data)] iterations. *)
Lemma RunLengthDecode_decode_total (data : list byte) :
  RunLengthDecode_decode data <> OutOfFuel.
Proof.
  unfold RunLengthDecode_decode.
  pose proof (@rl_loop_fuelled data (S (List.length data)) 0 []) as H.
  destruct (rl_loop (S (List.length data)) data 0 []) as [a|e|].
  - discriminate.
  - destruct e; discriminate.
  - exfalso. apply H; [lia|reflexivity].
Qed.

Lemma rl_loop_literal (data : list byte) (lb : byte) (fuel i : nat) (d : list byte) :
  index data i = Ok lb -> Byte.to_nat lb < 128 ->
  rl_loop (S fuel) data i d
  = rl_loop fuel data (i + Byte.to_nat lb + 2)
            (d ++ slice data (i + 1) (i + Byte.to_nat lb + 2)).
Proof.
  intros Hi Hlb. simpl. rewrite Hi. simpl.
  assert (Hlt : i < List.length data).
  { apply nth_error_Some. unfold index in Hi.
    destruct (nth_error data i); [discriminate|discriminate]. }
  destruct (Nat.ltb_spec i (List.length data)) as [_|E]; [|lia].
  destruct (Nat.eqb_spec (Byte.to_nat lb) 128) as [E|_]; [lia|].
  destruct (Nat.ltb_spec (Byte.to_nat lb) 128) as [_|E]; [reflexivity|lia].
Qed.

Lemma rl_loop_repeat (data : list byte) (lb b : byte) (fuel i : nat) (d : list byte) :
  index data i = Ok lb -> index data (i + 1) = Ok b -> 128 < Byte.to_nat lb ->
  rl_loop (S fuel) data i d
  = rl_loop fuel data (i + 2) (d ++ repeat b (257 - Byte.to_nat lb)).
Proof.
  intros Hi Hb Hlb. simpl. rewrite Hi. simpl. rewrite Hb. simpl.
  assert (Hlt : i < List.length data).
  { apply nth_error_Some. unfold index in Hi.
    destruct (nth_error data i); [discriminate|discriminate]. }
  destruct (Nat.ltb_spec i (List.length data)) as [_|E]; [|lia].
  destruct (Nat.eqb_spec (Byte.to_nat lb) 128) as [E|_]; [lia|].
  destruct (Nat.ltb_spec (Byte.to_nat lb) 128) as [E|_]; [lia|reflexivity].
Qed.

(** C6. RunLengthDecode.decode: a length byte 0..127 copies the following
    length+1 bytes, a length byte 129..255 repeats the next byte 257-length
    times, the length byte 128 ends decoding whatever follows it, and
    bytes([2,97,98,99,255,65,128]) decodes to b"abc" + b"A"*2. *)
Theorem RunLengthDecode_decode_runs :
  (forall (lb : byte) (lits rest : list byte),
      Byte.to_nat lb < 128 ->
      List.length lits = Byte.to_nat lb + 1 ->
      RunLengthDecode_decode (lb :: lits ++ rest)
      = rmap (app lits) (RunLengthDecode_decode rest))
  /\ (forall (lb b : byte) (rest : list byte),
      128 < Byte.to_nat lb ->
      RunLengthDecode_decode (lb :: b :: rest)
      = rmap (app (repeat b (257 - Byte.to_nat lb))) (RunLengthDecode_decode rest))
  /\ (forall rest : list byte, RunLengthDecode_decode (x80 :: rest) = Ok [])
  /\ RunLengthDecode_decode [x02; x61; x62; x63; xff; x41; x80]
     = Ok ([x61; x62; x63] ++ repeat x41 2).
Proof.
  split; [|split; [|split]].
  - intros lb lits rest Hlb Hlen.
    unfold RunLengthDecode_decode at 1.
    rewrite (@rl_loop_literal _ lb) by (reflexivity || assumption).
    replace (slice (lb :: lits ++ rest) (0 + 1) (0 + Byte.to_nat lb + 2)) with lits.
    2:{ unfold slice. simpl skipn.
        replace (0 + Byte.to_nat lb + 2 - (0 + 1)) with (List.length lits + 0) by lia.
        rewrite firstn_app_2. simpl. now rewrite app_nil_r. }
    replace (0 + Byte.to_nat lb + 2) with (List.length (lb :: lits)) by (simpl; lia).
    change (lb :: lits ++ rest) with ((lb :: lits) ++ rest).
    apply RunLengthDecode_decode_cons. rewrite length_app. simpl. lia.
  - intros lb b rest Hlb.
    unfold RunLengthDecode_decode at 1.
    rewrite (@rl_loop_repeat _ lb b) by (reflexivity || assumption).
    change (lb :: b :: rest) with ([lb; b] ++ rest).
    change (0 + 2) with (List.length [lb; b]).
    apply RunLengthDecode_decode_cons. simpl. lia.
  - intros rest. reflexivity.
  - reflexivity.
Qed.

Lemma RunLengthDecode_decode_runs_witness :
  RunLengthDecode_decode (x02 :: [x61; x62; x63] ++ [x80])
  = rmap (app [x61; x62; x63]) (RunLengthDecode_decode [x80])
  /\ RunLengthDecode_decode (xff :: x41 :: [x80])
     = rmap (app (repeat x41 (257 - Byte.to_nat xff))) (RunLengthDecode_decode [x80]).
Proof.
  split.
  - apply (proj1 RunLengthDecode_decode_runs x02 [x61; x62; x63] [x80]); simpl; lia.
  - apply (proj1 (proj2 RunLengthDecode_decode_runs) xff x41 [x80]); simpl; lia.
Defined.

(** **** Run-length data as a sequence of runs *)

(** The two kinds of run of the encoded form: a literal run of 1 to 128
    bytes, and one byte repeated 2 to 128 times. *)
Inductive run : Type :=
| Literal (lits : list byte)
| Repeat (count : nat) (b : byte).

Definition run_ok (r : run) : Prop :=
  match r with
  | Literal lits => 1 <= List.length lits <= 128
  | Repeat count _ => 2 <= count <= 128
  end.

(** The bytes that stand for a run: the length byte and what follows it. *)
Definition encode_run (r : run) : list byte :=
  match r with
  | Literal lits => byte_of_Z (Z.of_nat (List.length lits - 1)) :: lits
  | Repeat count b => [byte_of_Z (Z.of_nat (257 - count)); b]
  end.

Definition expand_run (r : run) : list byte :=
  match r with
  | Literal lits => lits
  | Repeat count b => repeat b count
  end.

Lemma to_nat_byte_of_Z (n : nat) :
  n < 256 -> Byte.to_nat (byte_of_Z (Z.of_nat n)) = n.
Proof.
  intros H. unfold byte_of_Z.
  rewrite Z.mod_small by lia. rewrite Nat2Z.id.
  destruct (Byte.of_nat n) as [b|] eqn:E.
  - now apply Byte.to_of_nat.
  - apply Byte.of_nat_None_iff in E. lia.
Qed.

Lemma RunLengthDecode_decode_run (r : run) (rest : list byte) :
  run_ok r ->
  RunLengthDecode_decode (encode_run r ++ rest)
  = rmap (app (expand_run r)) (RunLengthDecode_decode rest).
Proof.
  destruct r as [lits|count b]; intros Hr; cbn [run_ok encode_run expand_run] in *.
  - set (lb := byte_of_Z (Z.of_nat (List.length lits - 1))).
    assert (Hlb : Byte.to_nat lb = List.length lits - 1)
      by (apply to_nat_byte_of_Z; lia).
    unfold RunLengthDecode_decode at 1.
    change ((lb :: lits) ++ rest) with (lb :: lits ++ rest).
    rewrite (@rl_loop_literal _ lb) by (reflexivity || lia).
    replace (slice (lb :: lits ++ rest) (0 + 1) (0 + Byte.to_nat lb + 2)) with lits.
    2:{ unfold slice. simpl skipn.
        replace (0 + Byte.to_nat lb + 2 - (0 + 1)) with (List.length lits + 0) by lia.
        rewrite firstn_app_2. simpl. now rewrite app_nil_r. }
    replace (0 + Byte.to_nat lb + 2) with (List.length (lb :: lits)) by (simpl; lia).
    change (lb :: lits ++ rest) with ((lb :: lits) ++ rest).
    apply RunLengthDecode_decode_cons. rewrite length_app. simpl. lia.
  - set (lb := byte_of_Z (Z.of_nat (257 - count))).
    assert (Hlb : Byte.to_nat lb = 257 - count) by (apply to_nat_byte_of_Z; lia).
    unfold RunLengthDecode_decode at 1.
    change ([lb; b] ++ rest) with (lb :: b :: rest).
    rewrite (@rl_loop_repeat _ lb b) by (reflexivity || lia).
    replace (257 - Byte.to_nat lb) with count by lia.
    change (lb :: b :: rest) with ([lb; b] ++ rest).
    change (0 + 2) with (List.length [lb; b]).
    apply RunLengthDecode_decode_cons. simpl. lia.
Qed.

Lemma RunLengthDecode_decode_run_list (runs : list run) (rest : list byte) :
  Forall run_ok runs ->
  RunLengthDecode_decode (flat_map encode_run runs ++ rest)
  = rmap (app (flat_map expand_run runs)) (RunLengthDecode_decode rest).
Proof.
  induction 1 as [|r runs Hr _ IH]; cbn [flat_map app].
  - destruct (RunLengthDecode_decode rest); reflexivity.
  - rewrite <- app_assoc, (RunLengthDecode_decode_run _ _ Hr), IH.
    destruct (RunLengthDecode_decode rest); cbn; try reflexivity.
    now rewrite app_assoc.
Qed.

(** (X3) Decoding undoes the run-length encoding: the bytes of a sequence of
    runs decode to the runs written out, with or without an end-of-data
    byte 128 after them, and nothing that follows the byte 128 is looked
    at. *)
Theorem RunLengthDecode_decode_encoded_runs (runs : list run) :
  Forall run_ok runs ->
  RunLengthDecode_decode (flat_map encode_run runs)
  = Ok (flat_map expand_run runs)
  /\ forall junk : list byte,
      RunLengthDecode_decode (flat_map encode_run runs ++ x80 :: junk)
      = Ok (flat_map expand_run runs).
Proof.
  intros H. split.
  - rewrite <- (app_nil_r (flat_map encode_run runs)).
    rewrite (RunLengthDecode_decode_run_list _ H). cbn. now rewrite app_nil_r.
  - intros junk. rewrite (RunLengthDecode_decode_run_list _ H).
    cbn. now rewrite app_nil_r.
Qed.

Lemma RunLengthDecode_decode_encoded_runs_witness :
  RunLengthDecode_decode [x02; x61; x62; x63; xff; x41]
  = Ok [x61; x62; x63; x41; x41].
Proof.
  apply (proj1 (@RunLengthDecode_decode_encoded_runs
                  [Literal [x61; x62; x63]; Repeat 2 x41]
                  ltac:(repeat constructor; cbn; lia))).
Defined.

Lemma rl_loop_end (data : list byte) (fuel i : nat) (decoded : list byte) :
  List.length data <= i -> rl_loop (S fuel) data i decoded = Ok decoded.
Proof.
  intros H. cbn [rl_loop].
  destruct (Nat.ltb_spec i (List.length data)) as [E|_]; [lia|reflexivity].
Qed.

(** (X4) Data that ends inside a run.  A repeat run cut off after its
    length byte raises [PdfStreamError]; a literal run cut short is not an
    error: the slice takes the bytes that are there. *)
Theorem RunLengthDecode_decode_truncated (runs : list run) (lb : byte) :
  Forall run_ok runs ->
  (128 < Byte.to_nat lb ->
   RunLengthDecode_decode (flat_map encode_run runs ++ [lb])
   = Raise (PdfStreamError "Invalid run length encoded data"))
  /\ (forall lits : list byte,
         Byte.to_nat lb < 128 -> List.length lits <= Byte.to_nat lb ->
         RunLengthDecode_decode (flat_map encode_run runs ++ lb :: lits)
         = Ok (flat_map expand_run runs ++ lits)).
Proof.
  intros H. split.
  - intros Hlb. rewrite (RunLengthDecode_decode_run_list _ H).
    unfold RunLengthDecode_decode. cbn [List.length]. cbn [rl_loop].
    change (0 <? 1) with true. cbv iota. unfold index at 1. cbn [nth_error bind].
    destruct (Nat.eqb_spec (Byte.to_nat lb) 128) as [E|_]; [lia|].
    destruct (Nat.ltb_spec (Byte.to_nat lb) 128) as [E|_]; [lia|].
    reflexivity.
  - intros lits Hlb Hlen. rewrite (RunLengthDecode_decode_run_list _ H).
    unfold RunLengthDecode_decode. cbn [List.length].
    rewrite (@rl_loop_literal _ lb) by (reflexivity || lia).
    rewrite rl_loop_end by (cbn [List.length]; lia).
    unfold slice. cbn [Nat.add skipn app rl_except rmap bind].
    rewrite firstn_all2 by lia. reflexivity.
Qed.

Lemma RunLengthDecode_decode_truncated_witness :
  RunLengthDecode_decode [xff; x41; xfe]
  = Raise (PdfStreamError "Invalid run length encoded data")
  /\ RunLengthDecode_decode [xff; x41; x05; x61]
     = Ok [x41; x41; x61].
Proof.
  split.
  - apply (proj1 (@RunLengthDecode_decode_truncated [Repeat 2 x41] xfe
                    ltac:(repeat constructor; cbn; lia))).
    cbn. lia.
  - apply (proj2 (@RunLengthDecode_decode_truncated [Repeat 2 x41] x05
                    ltac:(repeat constructor; cbn; lia)) [x61]); cbn; lia.
Defined.

(** **** LZW *)





Lemma init_dict_length (data : list byte) :
  List.length (LZW.dict (LZW.init data)) = 4096.
Proof.
  unfold LZW.init, LZW.reset_dict. cbn [LZW.dict].
  rewrite length_app, length_map, length_seq, repeat_length. reflexivity.
Qed.





(** The decoder always answers: every code read moves [bytepos] on by at
    least one byte, so the loop of [decode] runs at most [length data] times. *)

Definition missing_stop_code : exn :=
  PdfReadError "LZW stream is missing stop code".

Definition bit_position (d : LZW.Decoder) : Z :=
  (8 * Z.of_nat (LZW.bytepos d) + LZW.bitpos d)%Z.

(** [value] is a natural number of at most [width] bits. *)
Definition below (value width : Z) : Prop :=
  (0 <= value)%Z /\ forall n, (width <= n)%Z -> Z.testbit value n = false.

Lemma below_lt (value width : Z) :
  (0 <= width)%Z -> below value width -> (0 <= value < 2 ^ width)%Z.
Proof.
  intros Hw [H0 Hb]. split; [exact H0|].
  destruct (Z.eq_dec value 0) as [->|Hn]; [apply Z.pow_pos_nonneg; lia|].
  apply Z.log2_lt_pow2; [lia|].
  destruct (Z.lt_ge_cases (Z.log2 value) width) as [L|L]; [exact L|].
  specialize (Hb _ L). rewrite Z.bit_log2 in Hb by lia. discriminate.
Qed.

Lemma below_chunk (value nextbits shift bits fillbits width : Z) :
  (1 <= bits <= 8)%Z -> (bits <= fillbits <= width)%Z -> (0 <= nextbits)%Z ->
  below value width ->
  below (Z.lor value
               (Z.shiftl (Z.land (Z.shiftr nextbits shift) (Z.shiftr 255 (8 - bits)))
                         (fillbits - bits)))
        width.
Proof.
  intros Hb Hf Hn [H0 Hv]. split.
  - apply Z.lor_nonneg. split; [exact H0|].
    apply Z.shiftl_nonneg, Z.land_nonneg. right. apply Z.shiftr_nonneg. lia.
  - intros n Hw. rewrite Z.lor_spec, (Hv n Hw). cbn [orb].
    rewrite Z.shiftl_spec by lia. rewrite Z.land_spec.
    rewrite (Z.shiftr_spec 255) by lia.
    change 255%Z with (Z.ones 8). rewrite Z.ones_spec_high by lia.
    apply andb_false_r.
Qed.

Lemma index_in_range (A : Type) (xs : list A) (i : nat) :
  i < List.length xs -> exists x, index xs i = Ok x.
Proof.
  intros H. unfold index. destruct (nth_error xs i) as [x|] eqn:E.
  - now exists x.
  - apply nth_error_None in E. lia.
Qed.

Lemma Z_of_byte_nonneg (b : byte) : (0 <= Z_of_byte b)%Z.
Proof. unfold Z_of_byte. lia. Qed.

Lemma next_code_loop_advances :
  forall (fuel : nat) (d : LZW.Decoder) (fillbits value width : Z),
    (0 <= LZW.bitpos d < 8)%Z ->
    (0 <= fillbits <= Z.of_nat fuel)%Z ->
    (fillbits <= width)%Z ->
    below value width ->
    match LZW.next_code_loop fuel d fillbits value with
    | Ok (v, d') =>
      bit_position d' = (bit_position d + fillbits)%Z
      /\ (0 <= LZW.bitpos d' < 8)%Z
      /\ LZW.data d' = LZW.data d
      /\ LZW.dict d' = LZW.dict d
      /\ LZW.dict_size d' = LZW.dict_size d
      /\ LZW.curr_code_size d' = LZW.curr_code_size d
      /\ ((0 < fillbits)%Z ->
          LZW.bytepos d < List.length (LZW.data d)
          /\ (bit_position d' <= 8 * Z.of_nat (List.length (LZW.data d)))%Z)
      /\ below v width
    | Raise e => e = missing_stop_code
    | OutOfFuel => False
    end.
Proof.
  induction fuel as [|fuel IH]; intros d fillbits value width Hb Hf Hw Hv.
  - cbn [LZW.next_code_loop]. destruct (Z.gtb_spec fillbits 0) as [E|E]; [lia|].
    unfold bit_position. repeat split; try lia; apply Hv.
  - cbn [LZW.next_code_loop]. destruct (Z.gtb_spec fillbits 0) as [Hpos|E].
    2:{ unfold bit_position. repeat split; try lia; apply Hv. }
    destruct (Nat.leb_spec (List.length (LZW.data d)) (LZW.bytepos d)) as [E|Hlt];
      [reflexivity|].
    destruct (index_in_range (LZW.data d) Hlt) as [b ->]. cbn [bind]. cbv zeta.
    set (bfh := if (8 - LZW.bitpos d >? fillbits)%Z then fillbits
                else (8 - LZW.bitpos d)%Z).
    assert (Hbfh : (1 <= bfh <= fillbits /\ bfh <= 8 - LZW.bitpos d)%Z).
    { unfold bfh. destruct (Z.gtb_spec (8 - LZW.bitpos d) fillbits); lia. }
    match goal with
    | |- match LZW.next_code_loop fuel ?d1 ?fb ?v with _ => _ end =>
      specialize (IH d1 fb v width); set (d' := d1) in *
    end.
    assert (Hd' : bit_position d' = (bit_position d + bfh)%Z
                  /\ (0 <= LZW.bitpos d' < 8)%Z
                  /\ LZW.data d' = LZW.data d /\ LZW.dict d' = LZW.dict d
                  /\ LZW.dict_size d' = LZW.dict_size d
                  /\ LZW.curr_code_size d' = LZW.curr_code_size d).
    { unfold d', bit_position.
      destruct (Z.geb_spec (LZW.bitpos d + bfh) 8);
        cbn [LZW.bytepos LZW.bitpos LZW.data LZW.dict LZW.dict_size
             LZW.curr_code_size]; repeat split; lia. }
    destruct Hd' as (P & B & D1 & D2 & D3 & D4).
    specialize (IH B).
    destruct (LZW.next_code_loop fuel d' (fillbits - bfh) _) as [[v d'']|e|].
    + destruct IH as (P' & B' & E1 & E2 & E3 & E4 & L & V); [lia|lia| |].
      { apply below_chunk; try lia; [apply Z_of_byte_nonneg|exact Hv]. }
      split; [lia|]. split; [exact B'|]. do 4 (split; [congruence|]).
      split; [|exact V]. intros _. split; [exact Hlt|].
      destruct (Z.lt_ge_cases 0 (fillbits - bfh)) as [G|G].
      * rewrite <- D1. apply (proj2 (L G)).
      * unfold bit_position in P |- *. unfold bit_position in P'. lia.
    + apply IH; [lia|lia|].
      apply below_chunk; try lia; [apply Z_of_byte_nonneg|exact Hv].
    + apply IH; [lia|lia|].
      apply below_chunk; try lia; [apply Z_of_byte_nonneg|exact Hv].
Qed.

(** The bytes not yet reached by the decoder. *)
Definition bytes_left (d : LZW.Decoder) : nat :=
  List.length (LZW.data d) - LZW.bytepos d.

Definition decoder_ok (d : LZW.Decoder) : Prop :=
  (0 <= LZW.bitpos d < 8)%Z /\ (9 <= LZW.curr_code_size d)%Z.

Lemma get_next_code_advances (d : LZW.Decoder) :
  decoder_ok d ->
  match LZW.get_next_code d with
  | Ok (cW, d') =>
    bytes_left d' < bytes_left d
    /\ (0 <= LZW.bitpos d' < 8)%Z
    /\ LZW.curr_code_size d' = LZW.curr_code_size d
    /\ LZW.dict d' = LZW.dict d
    /\ LZW.dict_size d' = LZW.dict_size d
    /\ (0 <= cW < 2 ^ LZW.curr_code_size d)%Z
    /\ (bit_position d + LZW.curr_code_size d
        <= 8 * Z.of_nat (List.length (LZW.data d)))%Z
  | Raise e => e = missing_stop_code
  | OutOfFuel => False
  end.
Proof.
  intros [Hb Hc]. unfold LZW.get_next_code.
  assert (Z0 : below 0 (LZW.curr_code_size d)).
  { split; [lia|]. intros n _. apply Z.testbit_0_l. }
  pose proof (@next_code_loop_advances (Z.to_nat (LZW.curr_code_size d)) d
                (LZW.curr_code_size d) 0 (LZW.curr_code_size d) Hb) as A.
  destruct (LZW.next_code_loop _ d (LZW.curr_code_size d) 0) as [[v d']|e|];
    [|apply A; [lia|lia|exact Z0]|apply A; [lia|lia|exact Z0]].
  destruct A as (P & B & D & Dd & Ds & C & L & V); [lia|lia|exact Z0|].
  destruct L as [L1 L2]; [lia|].
  unfold bit_position in P, L2 |- *. unfold bytes_left. rewrite D.
  split; [lia|]. split; [exact B|]. split; [exact C|]. split; [exact Dd|].
  split; [exact Ds|]. split; [apply below_lt; [lia|exact V]|lia].
Qed.

(** What [xs[j]], [xs[j] = v] and [s[0]] can raise. *)
Definition only_index_error {A : Type} (r : result A) : Prop :=
  match r with
  | Ok _ => True
  | Raise e => e = IndexError
  | OutOfFuel => False
  end.

Lemma index_outcome (A : Type) (xs : list A) (i : nat) :
  only_index_error (index xs i).
Proof. unfold index. destruct (nth_error xs i); cbn; trivial. Qed.

Lemma getitem_outcome (A : Type) (xs : list A) (j : Z) :
  only_index_error (getitem xs j).
Proof.
  unfold getitem.
  destruct ((0 <=? j) && (j <? Z.of_nat (List.length xs)))%Z;
    [apply index_outcome|].
  destruct ((- Z.of_nat (List.length xs) <=? j) && (j <? 0))%Z;
    [apply index_outcome|reflexivity].
Qed.

Lemma setitem_outcome (A : Type) (xs : list A) (j : Z) (v : A) :
  only_index_error (setitem true xs j v).
Proof.
  unfold setitem.
  destruct ((0 <=? j) && (j <? Z.of_nat (List.length xs)))%Z; [exact I|].
  destruct ((- Z.of_nat (List.length xs) <=? j) && (j <? 0))%Z;
    [exact I|reflexivity].
Qed.

Lemma first_char_outcome (s : string) : only_index_error (LZW.first_char s).
Proof. destruct s; cbn; trivial. Qed.

Lemma lookup_or_repeat_outcome (d : LZW.Decoder) (cW old : Z) :
  only_index_error (LZW.lookup_or_repeat d cW old).
Proof.
  unfold LZW.lookup_or_repeat.
  pose proof (getitem_outcome (LZW.dict d) cW) as G.
  destruct (getitem (LZW.dict d) cW) as [s|e|]; [exact I| |exact G].
  cbn in G. subst e.
  pose proof (getitem_outcome (LZW.dict d) old) as G.
  destruct (getitem (LZW.dict d) old) as [o|e|]; cbn [bind]; [|exact G|exact G].
  pose proof (first_char_outcome o) as F.
  destruct (LZW.first_char o) as [c|e|]; cbn [bind]; [exact I|exact F|exact F].
Qed.

Lemma add_code_to_dict_outcome (d : LZW.Decoder) (s : string) :
  match LZW.add_code_to_dict d s with
  | Ok d' =>
    LZW.data d' = LZW.data d /\ LZW.bytepos d' = LZW.bytepos d
    /\ LZW.bitpos d' = LZW.bitpos d
    /\ ((9 <= LZW.curr_code_size d)%Z -> (9 <= LZW.curr_code_size d')%Z)
  | Raise e => e = IndexError
  | OutOfFuel => False
  end.
Proof.
  unfold LZW.add_code_to_dict.
  pose proof (setitem_outcome (LZW.dict d) (LZW.dict_size d) s) as G.
  destruct (setitem true (LZW.dict d) (LZW.dict_size d) s) as [dict'|e|];
    cbn [bind]; [|exact G|exact G].
  cbn [LZW.data LZW.bytepos LZW.bitpos LZW.curr_code_size].
  repeat split.
  intros H.
  destruct (LZW.dict_size d + 1 =? 512)%Z; [lia|].
  destruct (LZW.dict_size d + 1 =? 1024)%Z; [lia|].
  destruct (LZW.dict_size d + 1 =? 2048)%Z; [lia|exact H].
Qed.

(** How [LZWDecode.decode] can end. *)
Definition lzw_outcome (r : result string) : Prop :=
  match r with
  | Ok _ => True
  | Raise e => e = missing_stop_code \/ e = IndexError
  | OutOfFuel => False
  end.

Lemma decode_loop_outcome :
  forall (fuel : nat) (d : LZW.Decoder) (res : string) (old : Z),
    decoder_ok d -> bytes_left d < fuel ->
    lzw_outcome (LZW.decode_loop fuel d res old).
Proof.
  induction fuel as [|fuel IH]; intros d res old Hd Hf; [lia|].
  cbn [LZW.decode_loop].
  pose proof (get_next_code_advances Hd) as A. pose proof Hd as [_ Hc].
  destruct (LZW.get_next_code d) as [[cW d1]|e|]; cbn [bind];
    [|left; exact A|exact A].
  destruct A as (L1 & B1 & C1 & _).
  destruct (cW =? LZW.STOP)%Z; [exact I|].
  destruct (cW =? LZW.CLEARDICT)%Z.
  - assert (Hr : decoder_ok (LZW.reset_dict d1)) by (split; [exact B1|cbn; lia]).
    pose proof (get_next_code_advances Hr) as A2.
    destruct (LZW.get_next_code (LZW.reset_dict d1)) as [[cW2 d2]|e|]; cbn [bind];
      [|left; exact A2|exact A2].
    destruct A2 as (L2 & B2 & C2 & _).
    pose proof (getitem_outcome (LZW.dict d2) cW2) as G.
    destruct (getitem (LZW.dict d2) cW2) as [s|e|]; cbn [bind];
      [|right; exact G|exact G].
    apply IH; [split; [exact B2|rewrite C2; cbn; lia]|].
    unfold bytes_left in *. cbn [LZW.reset_dict LZW.data LZW.bytepos] in L2. lia.
  - pose proof (lookup_or_repeat_outcome d1 cW old) as G1.
    destruct (LZW.lookup_or_repeat d1 cW old) as [s|e|]; cbn [bind];
      [|right; exact G1|exact G1].
    pose proof (getitem_outcome (LZW.dict d1) old) as G2.
    destruct (getitem (LZW.dict d1) old) as [o|e|]; cbn [bind];
      [|right; exact G2|exact G2].
    pose proof (first_char_outcome s) as G3.
    destruct (LZW.first_char s) as [c|e|]; cbn [bind];
      [|right; exact G3|exact G3].
    pose proof (add_code_to_dict_outcome d1 (o ++ c)) as G4.
    destruct (LZW.add_code_to_dict d1 (o ++ c)) as [d2|e|]; cbn [bind];
      [|right; exact G4|exact G4].
    destruct G4 as (E1 & E2 & E3 & E4).
    apply IH; [split; [rewrite E3; exact B1|apply E4; lia]|].
    unfold bytes_left in *. rewrite E1, E2. lia.
Qed.

Lemma init_decoder_ok (data : list byte) : decoder_ok (LZW.init data).
Proof. split; cbn; lia. Qed.

(** (X1) [LZWDecode.decode] ends on every input, and it ends in one of three
    ways: with the decoded text, with
    [PdfReadError("LZW stream is missing stop code")] or with an [IndexError]
    of a list or string access.  Data of fewer than two bytes cannot hold
    one 9-bit code and is answered with the [PdfReadError]. *)
Theorem LZWDecode_decode_outcomes :
  (forall data : list byte,
      (exists text, LZWDecode_decode data = Ok text)
      \/ LZWDecode_decode data = Raise missing_stop_code
      \/ LZWDecode_decode data = Raise IndexError)
  /\ (forall data : list byte,
         List.length data <= 1 ->
         LZWDecode_decode data = Raise missing_stop_code).
Proof.
  split; intros data.
  - assert (O : lzw_outcome (LZWDecode_decode data)).
    { unfold LZWDecode_decode, LZW.decode.
      pose proof (get_next_code_advances (init_decoder_ok data)) as A.
      destruct (LZW.get_next_code (LZW.init data)) as [[cW d1]|e|]; cbn [bind];
        [|left; exact A|exact A].
      destruct A as (L1 & B1 & C1 & _).
      pose proof (getitem_outcome (LZW.dict d1) cW) as G.
      destruct (getitem (LZW.dict d1) cW) as [s|e|]; cbn [bind];
        [|right; exact G|exact G].
      apply decode_loop_outcome;
        [split; [exact B1|rewrite C1; cbn; lia]|unfold bytes_left; lia]. }
    destruct (LZWDecode_decode data) as [text|e|]; cbn in O.
    + left. now exists text.
    + destruct O as [-> | ->]; [right; left|right; right]; reflexivity.
    + contradiction.
  - intros Hlen. unfold LZWDecode_decode, LZW.decode.
    pose proof (get_next_code_advances (init_decoder_ok data)) as A.
    destruct (LZW.get_next_code (LZW.init data)) as [[cW d1]|e|]; cbn [bind];
      [|now rewrite A|contradiction].
    exfalso. destruct A as (_ & _ & _ & _ & _ & _ & A).
    unfold bit_position, LZW.init, LZW.reset_dict in A.
    cbn [LZW.bytepos LZW.bitpos LZW.curr_code_size LZW.data] in A. lia.
Qed.

Lemma LZWDecode_decode_outcomes_witness :
  LZWDecode_decode [x80] = Raise missing_stop_code.
Proof. apply (proj2 LZWDecode_decode_outcomes [x80]). cbn. lia. Defined.

(** The table of a decoder and the width of its codes. *)
Definition decoder_wf (d : LZW.Decoder) : Prop :=
  List.length (LZW.dict d) = 4096
  /\ (0 <= LZW.bitpos d < 8)%Z
  /\ (9 <= LZW.curr_code_size d <= 12)%Z.

(** (X2) A code read by the decoder always indexes its table of 4096
    strings, so [self.dict[cW]] never raises and the [except IndexError]
    branch, which would rebuild the string of a code that is one ahead of
    the table, is never taken.  A code whose entry is still the empty string
    makes [s[0]] raise [IndexError]. *)
Theorem lzw_code_ahead_of_table_raises
        (fuel : nat) (d d1 : LZW.Decoder) (cW old : Z) (res : string) :
  decoder_wf d ->
  LZW.get_next_code d = Ok (cW, d1) ->
  cW <> LZW.STOP -> cW <> LZW.CLEARDICT ->
  (exists s,
      nth_error (LZW.dict d) (Z.to_nat cW) = Some s
      /\ LZW.lookup_or_repeat d1 cW old = Ok s)
  /\ (nth_error (LZW.dict d) (Z.to_nat cW) = Some EmptyString ->
      LZW.decode_loop (S fuel) d res old = Raise IndexError).
Proof.
  intros (Hlen & Hb & Hc) E Hs Hcl.
  assert (Hd : decoder_ok d) by (split; lia).
  pose proof (get_next_code_advances Hd) as A. rewrite E in A.
  destruct A as (_ & _ & _ & Dd & _ & R & _).
  assert (R' : (0 <= cW < 4096)%Z).
  { split; [lia|]. apply Z.lt_le_trans with (2 ^ LZW.curr_code_size d)%Z; [lia|].
    change 4096%Z with (2 ^ 12)%Z. apply Z.pow_le_mono_r; lia. }
  assert (G : getitem (LZW.dict d1) cW
              = index (LZW.dict d) (Z.to_nat cW)).
  { unfold getitem. rewrite Dd, Hlen.
    destruct (Z.leb_spec 0 cW); [|lia].
    destruct (Z.ltb_spec cW (Z.of_nat 4096)); [reflexivity|lia]. }
  destruct (@index_in_range _ (LZW.dict d) (Z.to_nat cW)) as [s Es]; [lia|].
  assert (Es' : nth_error (LZW.dict d) (Z.to_nat cW) = Some s).
  { unfold index in Es. destruct (nth_error (LZW.dict d) (Z.to_nat cW));
      [now inversion Es|discriminate]. }
  assert (L : LZW.lookup_or_repeat d1 cW old = Ok s).
  { unfold LZW.lookup_or_repeat. rewrite G, Es. reflexivity. }
  split; [exists s; split; assumption|].
  intros Hempty. rewrite Es' in Hempty. inversion Hempty; subst s.
  cbn [LZW.decode_loop]. rewrite E. cbn [bind].
  destruct (Z.eqb_spec cW LZW.STOP) as [|_]; [contradiction|].
  destruct (Z.eqb_spec cW LZW.CLEARDICT) as [|_]; [contradiction|].
  rewrite L. cbn [bind].
  pose proof (getitem_outcome (LZW.dict d1) old) as G2.
  destruct (getitem (LZW.dict d1) old) as [o|e|]; cbn [bind];
    [reflexivity|now rewrite G2|contradiction].
Qed.

Lemma lzw_code_ahead_of_table_raises_witness :
  LZW.decode_loop 3 (LZW.init [x81; x00]) EmptyString 65 = Raise IndexError.
Proof.
  refine (proj2 (@lzw_code_ahead_of_table_raises
                   2 (LZW.init [x81; x00])
                   (LZW.mkDecoder [x81; x00] 1 1 (LZW.dict (LZW.init [])) 258 9)
                   258 65 EmptyString _ _ _ _) _).
  - split; [apply init_dict_length|]. cbn. lia.
  - vm_compute. reflexivity.
  - discriminate.
  - discriminate.
  - vm_compute. reflexivity.
Defined.

(** **** PNG predictor *)

Lemma png_rows_other_filter_type (mutable : bool) (data : list byte) (row_size : nat)
      (colors : Z) (i : nat) (starts : list nat) (output : list byte) (ft : byte) :
  index data i = Ok ft -> 2 <= Byte.to_nat ft ->
  png_rows mutable data row_size colors (i :: starts) output
  = png_rows mutable data row_size colors starts output.
Proof.
  intros Hi Hft. cbn [png_rows]. rewrite Hi. cbn [bind].
  destruct (Nat.eqb_spec (Byte.to_nat ft) 0) as [E|_]; [lia|].
  destruct (Nat.eqb_spec (Byte.to_nat ft) 1) as [E|_]; [lia|].
  reflexivity.
Qed.

(** C2 (the code departs from the claim).  With Predictor 12, two columns of
    one 8-bit colour, a single row of filter type 2 (Up), 3 (Average) or 4
    (Paeth) is decoded to the empty string without any error; between two
    rows of type 0 such a row silently disappears from the output; and a
    row of type 1 (Sub) on the [bytes] that [FlateDecode.decode] passes
    raises [TypeError] at the first store into the row. *)
Theorem decode_predictor_png_unsupported_row_dropped :
  _decode_predictor false [x02; x0a; x14] 12 2 1 8 = Ok []
  /\ _decode_predictor false [x03; x0a; x14] 12 2 1 8 = Ok []
  /\ _decode_predictor false [x04; x0a; x14] 12 2 1 8 = Ok []
  /\ _decode_predictor false
       [x00; x01; x02; x02; x0a; x14; x00; x03; x04] 12 2 1 8
     = Ok [x01; x02; x03; x04]
  /\ _decode_predictor true
       [x00; x01; x02; x02; x0a; x14; x00; x03; x04] 12 2 1 8
     = Ok [x01; x02; x03; x04]
  /\ _decode_predictor false [x01; x0a; x14] 12 2 1 8 = Raise TypeError
  /\ _decode_predictor true [x01; x0a; x14] 12 2 1 8 = Ok [x0a; x1e]
  /\ _decode_predictor false [x02; x0a; x14] 9 2 1 8
     = Raise (PdfReadError "Unsupported predictor: 9").
Proof. repeat split; vm_compute; reflexivity. Qed.

(** **** Predictors on whole rows *)

(** A PNG-predicted row: its filter-type byte and the bytes after it. *)
Definition tagged_row (r : byte * list byte) : list byte := fst r :: snd r.

(** What the PNG branch keeps of a row whose filter type is not 1. *)
Definition kept_row (r : byte * list byte) : list byte :=
  if Byte.to_nat (fst r) =? 0 then snd r else [].

Lemma range_step_rows (m n : nat) :
  range_step (m * S n) (S n) = map (fun k => k * S n) (seq 0 m).
Proof.
  unfold range_step.
  replace (m * S n + S n - 1) with (m * S n + n) by lia.
  rewrite Nat.div_add_l by lia. rewrite Nat.div_small by lia.
  now rewrite Nat.add_0_r.
Qed.

Lemma flat_map_tagged_length (n : nat) (rows : list (byte * list byte)) :
  Forall (fun r => List.length (snd r) = n) rows ->
  List.length (flat_map tagged_row rows) = List.length rows * S n.
Proof.
  induction 1 as [|r rows Hr _ IH]; [reflexivity|].
  cbn [flat_map List.length tagged_row app]. rewrite length_app, IH, Hr. lia.
Qed.

Lemma png_rows_tagged (mutable : bool) (colors : Z) (n : nat) :
  forall (rows : list (byte * list byte)) (pre output : list byte),
    Forall (fun r => List.length (snd r) = n /\ Byte.to_nat (fst r) <> 1) rows ->
    png_rows mutable (pre ++ flat_map tagged_row rows) (S n) colors
             (map (fun k => List.length pre + k * S n) (seq 0 (List.length rows)))
             output
    = Ok (output ++ flat_map kept_row rows).
Proof.
  induction rows as [|[ft row] rows IH]; intros pre output H.
  - cbn. now rewrite app_nil_r.
  - apply Forall_cons_iff in H. destruct H as [[Hlen Hft] Hrest]. cbn [fst snd] in *.
    change (flat_map tagged_row ((ft, row) :: rows))
      with ((ft :: row) ++ flat_map tagged_row rows).
    cbn [List.length seq map png_rows].
    replace (List.length pre + 0 * S n) with (List.length pre + 0) by lia.
    rewrite index_app_r. unfold index at 1. cbn [nth_error app bind].
    change (ft :: row ++ flat_map tagged_row rows)
      with ((ft :: row) ++ flat_map tagged_row rows).
    replace (slice (pre ++ (ft :: row) ++ flat_map tagged_row rows)
                   (List.length pre + 0 + 1) (List.length pre + 0 + S n))
      with row.
    2:{ replace (List.length pre + 0 + 1) with (List.length pre + 1) by lia.
        replace (List.length pre + 0 + S n) with (List.length pre + S n) by lia.
        rewrite slice_app_r. unfold slice. cbn [skipn app].
        replace (S n - 1) with (List.length row + 0) by lia.
        rewrite firstn_app_2. cbn. now rewrite app_nil_r. }
    assert (S' : map (fun k => List.length pre + k * S n) (seq 1 (List.length rows))
                 = map (fun k => List.length (pre ++ ft :: row) + k * S n)
                       (seq 0 (List.length rows))).
    { rewrite <- seq_shift, map_map. apply map_ext. intros k.
      rewrite length_app. cbn [List.length]. lia. }
    rewrite S'.
    replace (pre ++ (ft :: row) ++ flat_map tagged_row rows)
      with ((pre ++ ft :: row) ++ flat_map tagged_row rows)
      by (now rewrite <- app_assoc).
    change (flat_map kept_row ((ft, row) :: rows))
      with ((if Byte.to_nat ft =? 0 then row else []) ++ flat_map kept_row rows).
    destruct (Nat.eqb_spec (Byte.to_nat ft) 0) as [E0|E0].
    + rewrite (IH _ _ Hrest). now rewrite <- app_assoc.
    + destruct (Nat.eqb_spec (Byte.to_nat ft) 1) as [E1|E1]; [contradiction|].
      rewrite (IH _ _ Hrest). reflexivity.
Qed.

(** (X5) The PNG predictors on data made of whole rows none of which has
    filter type 1 (Sub): the rows of filter type 0 are returned with their
    filter byte taken off, and every other row is left out of the result. *)
Theorem decode_predictor_png_rows
        (mutable : bool) (predictor columns colors bits_per_component : Z)
        (n : nat) (rows : list (byte * list byte)) :
  (10 <= predictor <= 15)%Z ->
  (columns * colors * bits_per_component / 8 = Z.of_nat n)%Z ->
  Forall (fun r => List.length (snd r) = n /\ Byte.to_nat (fst r) <> 1) rows ->
  _decode_predictor mutable (flat_map tagged_row rows)
                    predictor columns colors bits_per_component
  = Ok (flat_map kept_row rows).
Proof.
  intros Hp Hn Hrows. unfold _decode_predictor.
  destruct (Z.eqb_spec predictor 2) as [E|_]; [lia|].
  destruct (Z.leb_spec 10 predictor) as [_|E]; [|lia].
  destruct (Z.leb_spec predictor 15) as [_|E]; [|lia].
  cbn [andb]. rewrite Hn. unfold row_starts.
  destruct (Z.eqb_spec (Z.of_nat n + 1) 0) as [E|_]; [lia|].
  destruct (Z.ltb_spec (Z.of_nat n + 1) 0) as [E|_]; [lia|].
  cbn [bind]. replace (Z.to_nat (Z.of_nat n + 1)) with (S n) by lia.
  rewrite (@flat_map_tagged_length n rows)
    by (eapply Forall_impl; [|exact Hrows]; now intros r [? _]).
  rewrite range_step_rows.
  pose proof (@png_rows_tagged mutable colors n rows [] [] Hrows) as P.
  cbn [app List.length Nat.add] in P. exact P.
Qed.

Lemma decode_predictor_png_rows_witness :
  _decode_predictor false [x00; x01; x02; x04; x0a; x14; x00; x03; x04] 12 2 1 8
  = Ok [x01; x02; x03; x04].
Proof.
  apply (@decode_predictor_png_rows false 12 2 1 8 2
           [(x00, [x01; x02]); (x04, [x0a; x14]); (x00, [x03; x04])]).
  - lia.
  - reflexivity.
  - repeat constructor; cbn; lia.
Defined.

Lemma range_step_head (n step : nat) :
  0 < n -> 0 < step -> exists rest, range_step n step = 0 :: rest.
Proof.
  intros Hn Hs. unfold range_step.
  destruct ((n + step - 1) / step) as [|k] eqn:E.
  - apply Nat.div_small_iff in E; lia.
  - cbn [seq map]. now eexists.
Qed.

Lemma zrange_head (a b : Z) :
  (a < b)%Z -> exists rest, zrange a b = a :: rest.
Proof.
  intros H. unfold zrange.
  destruct (Z.to_nat (b - a)) as [|k] eqn:E; [lia|].
  cbn [seq map]. rewrite Z.add_0_r. now eexists.
Qed.

Lemma getitem_in_range (A : Type) (xs : list A) (j : Z) :
  (0 <= j < Z.of_nat (List.length xs))%Z -> exists x, getitem xs j = Ok x.
Proof.
  intros H. unfold getitem.
  destruct (Z.leb_spec 0 j); [|lia].
  destruct (Z.ltb_spec j (Z.of_nat (List.length xs))); [|lia].
  cbn [andb]. unfold index.
  destruct (nth_error xs (Z.to_nat j)) as [x|] eqn:E; [now exists x|].
  apply nth_error_None in E. lia.
Qed.

(** The first store of the loop over a [bytes] row. *)
Lemma undo_sub_row_on_bytes (colors : Z) (row : list byte) :
  (0 <= colors < Z.of_nat (List.length row))%Z ->
  undo_sub_row false colors row = Raise TypeError.
Proof.
  intros H. unfold undo_sub_row.
  destruct (@zrange_head colors (Z.of_nat (List.length row))) as [rest ->]; [lia|].
  cbn [undo_sub].
  destruct (@getitem_in_range _ row colors) as [x ->]; [lia|].
  destruct (@getitem_in_range _ row (colors - colors)) as [y ->]; [lia|].
  reflexivity.
Qed.

(** (X6) The TIFF predictor (2) on the [bytes] that [FlateDecode.decode]
    hands over: as soon as the first row has more than [colors] bytes, the
    store [row[j] = ...] into the slice of a [bytes] object raises
    [TypeError]. *)
Theorem decode_predictor_tiff_on_bytes
        (data : list byte) (columns colors bits_per_component : Z) :
  (0 <= colors < (columns * colors * bits_per_component + 7) / 8)%Z ->
  (colors < Z.of_nat (List.length data))%Z ->
  _decode_predictor false data 2 columns colors bits_per_component
  = Raise TypeError.
Proof.
  intros Hc Hd. unfold _decode_predictor. cbn [Z.eqb Pos.eqb].
  set (row_size := ((columns * colors * bits_per_component + 7) / 8)%Z) in *.
  unfold row_starts.
  destruct (Z.eqb_spec row_size 0) as [E|_]; [lia|].
  destruct (Z.ltb_spec row_size 0) as [E|_]; [lia|].
  destruct (@range_step_head (List.length data) (Z.to_nat row_size))
    as [rest ->]; [lia|lia|].
  cbn [bind tiff_rows]. rewrite undo_sub_row_on_bytes; [reflexivity|].
  unfold slice. rewrite length_firstn, length_skipn. lia.
Qed.

Lemma decode_predictor_tiff_on_bytes_witness :
  _decode_predictor false [x01; x02; x03; x04] 2 2 1 8 = Raise TypeError.
Proof.
  apply (@decode_predictor_tiff_on_bytes [x01; x02; x03; x04] 2 1 8).
  - vm_compute. split; [discriminate|reflexivity].
  - cbn. lia.
Defined.

(** **** decode_stream_data *)

Section DecodeStreamDataFacts.

Variable resolve : nat -> result PdfObject.
Variable FlateDecode_decode : pydata -> option PdfObject -> result pydata.
Variable ASCIIHexDecode_decode : pydata -> result pydata.
Variable RunLengthDecode_decode' : pydata -> result pydata.
Variable LZWDecode_decode' : pydata -> option PdfObject -> result pydata.
Variable ASCII85Decode_decode : pydata -> result pydata.

Let run :=
  apply_filters FlateDecode_decode ASCIIHexDecode_decode RunLengthDecode_decode'
                LZWDecode_decode' ASCII85Decode_decode.

Lemma image_filter_is_no_other (f : PdfObject) :
  is_image_filter f = true ->
  eq_str f "/FlateDecode" = false /\ eq_str f "/Fl" = false
  /\ eq_str f "/ASCIIHexDecode" = false /\ eq_str f "/RunLengthDecode" = false
  /\ eq_str f "/LZWDecode" = false /\ eq_str f "/ASCII85Decode" = false.
Proof.
  unfold is_image_filter, eq_str. destruct (as_str f) as [s|]; [|discriminate].
  intros H. apply orb_true_iff in H. destruct H as [H|H].
  - apply orb_true_iff in H.
    destruct H as [H|H]; apply String.eqb_eq in H; subst s; repeat split; reflexivity.
  - apply String.eqb_eq in H; subst s; repeat split; reflexivity.
Qed.

Lemma apply_filters_image_head (f : PdfObject) (post params : list PdfObject)
      (i : nat) (data : pydata) :
  is_image_filter f = true -> run (f :: post) params i data = Ok data.
Proof.
  intros H. destruct (image_filter_is_no_other f H) as (H1 & H2 & H3 & H4 & H5 & H6).
  unfold run. cbn [apply_filters]. rewrite H1, H2, H3, H4, H5, H6, H. reflexivity.
Qed.

Lemma apply_filters_stops (f : PdfObject) (post params : list PdfObject) :
  is_image_filter f = true ->
  forall (pre : list PdfObject) (i : nat) (data : pydata),
    run (pre ++ f :: post) params i data = run pre params i data.
Proof.
  intros H. induction pre as [|g pre IH]; intros i data.
  - cbn [app]. rewrite apply_filters_image_head by exact H. reflexivity.
  - unfold run in *. cbn [app apply_filters].
    repeat match goal with
           | |- context [if ?b then _ else _] => destruct b
           | |- bind ?r _ = bind ?r _ => destruct r; cbn [bind]; try reflexivity
           end; try reflexivity; apply IH.
Qed.

(** Once the filter list and the decode parameters have been read, an image
    filter at any position ends the loop: [decode_stream_data] gives exactly
    what the filters before it give on the stream's data (the stream's data
    itself when there is none before it); the filters listed after it play no
    part. *)
Lemma decode_stream_data_stops_at_image_filter
      (stream : Stream) (pre post params : list PdfObject) (f : PdfObject) :
  stream_filters resolve stream = Ok (pre ++ f :: post) ->
  stream_decode_params resolve stream = Ok params ->
  is_image_filter f = true ->
  decode_stream_data resolve FlateDecode_decode ASCIIHexDecode_decode
                     RunLengthDecode_decode' LZWDecode_decode'
                     ASCII85Decode_decode stream
  = run pre params 0 (_data stream)
  /\ (pre = [] ->
      decode_stream_data resolve FlateDecode_decode ASCIIHexDecode_decode
                         RunLengthDecode_decode' LZWDecode_decode'
                         ASCII85Decode_decode stream
      = Ok (_data stream))
  /\ (forall acc,
         run pre params 0 (_data stream) = Ok acc ->
         decode_stream_data resolve FlateDecode_decode ASCIIHexDecode_decode
                            RunLengthDecode_decode' LZWDecode_decode'
                            ASCII85Decode_decode stream
         = Ok acc).
Proof.
  intros Hf Hp Himg.
  assert (E : decode_stream_data resolve FlateDecode_decode ASCIIHexDecode_decode
                                 RunLengthDecode_decode' LZWDecode_decode'
                                 ASCII85Decode_decode stream
              = run pre params 0 (_data stream)).
  { unfold decode_stream_data. rewrite Hf, Hp. cbn [bind].
    now apply apply_filters_stops. }
  split; [exact E|]. split.
  - intros ->. rewrite E. reflexivity.
  - intros acc Hacc. now rewrite E.
Qed.

End DecodeStreamDataFacts.

Definition no_resolve (idnum : nat) : result PdfObject := Raise KeyError.
Definition no_zlib (data : pydata) (parms : option PdfObject) : result pydata :=
  Raise (NotImplementedError "zlib").
Definition no_codec (data : pydata) : result pydata :=
  Raise (NotImplementedError "codec").

Definition example_stream : Stream :=
  mkStream
    [("/Filter"%string,
      ArrayObject [NameObject "/RunLengthDecode"; NameObject "/DCTDecode";
                   NameObject "/FlateDecode"]);
     ("/DecodeParms"%string, NullObject)]
    (Bytes [x02; x61; x62; x63; x80]).

Definition jpeg_stream (entries : list (string * PdfObject)) : Stream :=
  mkStream (("/Filter"%string, NameObject "/DCTDecode") :: entries)
           (Bytes [xff; xd8; xff; xe0]).

Lemma decode_stream_data_example :
  decode_stream_data no_resolve no_zlib no_codec RunLengthDecode_decode_data
                     LZWDecode_decode_data no_codec example_stream
  = Ok (Bytes [x61; x62; x63]).
Proof.
  apply (proj2 (proj2
    (@decode_stream_data_stops_at_image_filter
       no_resolve no_zlib no_codec RunLengthDecode_decode_data
       LZWDecode_decode_data no_codec example_stream
       [NameObject "/RunLengthDecode"] [NameObject "/FlateDecode"] []
       (NameObject "/DCTDecode") eq_refl eq_refl eq_refl))).
  reflexivity.
Qed.

(** A stream without a /DecodeParms entry never reaches the loop over its
    filters: the default of [stream.get("/DecodeParms", {})] is a plain
    [dict], which the [isinstance] chain turns down. *)
Lemma decode_stream_data_needs_decode_parms
      (resolve : nat -> result PdfObject)
      (Flate LZW_ : pydata -> option PdfObject -> result pydata)
      (Hex RL A85 : pydata -> result pydata)
      (stream : Stream) (filters : list PdfObject) :
  stream_filters resolve stream = Ok filters ->
  dict_get (stream_dict stream) "/DecodeParms" = None ->
  decode_stream_data resolve Flate Hex RL LZW_ A85 stream
  = Raise (PdfReadError "Unsupported DecodeParms type").
Proof.
  intros Hf Hp. unfold decode_stream_data, stream_decode_params.
  rewrite Hf, Hp. reflexivity.
Qed.

(** C9 (the code departs from the claim).  A stream whose only filter is
    /DCTDecode and which has no /DecodeParms entry is not returned
    unchanged: [decode_stream_data] raises [PdfReadError] before it looks at
    the filter.  With /DecodeParms present (null, or a dictionary) the bytes
    come back unchanged, also when more filters follow /DCTDecode. *)
Theorem decode_stream_data_image_filter_without_decode_parms :
  decode_stream_data no_resolve no_zlib no_codec RunLengthDecode_decode_data
                     LZWDecode_decode_data no_codec (jpeg_stream [])
  = Raise (PdfReadError "Unsupported DecodeParms type")
  /\ decode_stream_data no_resolve no_zlib no_codec RunLengthDecode_decode_data
                        LZWDecode_decode_data no_codec
                        (jpeg_stream [("/DecodeParms"%string, NullObject)])
     = Ok (Bytes [xff; xd8; xff; xe0])
  /\ decode_stream_data no_resolve no_zlib no_codec RunLengthDecode_decode_data
                        LZWDecode_decode_data no_codec
                        (jpeg_stream [("/DecodeParms"%string, DictionaryObject [])])
     = Ok (Bytes [xff; xd8; xff; xe0])
  /\ decode_stream_data no_resolve no_zlib no_codec RunLengthDecode_decode_data
                        LZWDecode_decode_data no_codec example_stream
     = Ok (Bytes [x61; x62; x63]).
Proof. repeat split; vm_compute; reflexivity. Qed.

(** **** Filter chains *)

Section FilterChains.

Variable resolve : nat -> result PdfObject.
Variable FlateDecode_decode : pydata -> option PdfObject -> result pydata.
Variable ASCIIHexDecode_decode : pydata -> result pydata.
Variable RunLengthDecode_decode' : pydata -> result pydata.
Variable LZWDecode_decode' : pydata -> option PdfObject -> result pydata.
Variable ASCII85Decode_decode : pydata -> result pydata.




(** (X8) [decode_stream_data] answers only for a stream whose dictionary
    has both a [/Filter] and a [/DecodeParms] entry: the defaults [()] and
    [{}] that stand in for a missing entry are not of a type the function
    accepts. *)
Theorem decode_stream_data_needs_both_entries (stream : Stream) (out : pydata) :
  decode_stream_data resolve FlateDecode_decode ASCIIHexDecode_decode
                     RunLengthDecode_decode' LZWDecode_decode'
                     ASCII85Decode_decode stream = Ok out ->
  dict_get (stream_dict stream) "/Filter" <> None
  /\ dict_get (stream_dict stream) "/DecodeParms" <> None.
Proof.
  unfold decode_stream_data, stream_filters, stream_decode_params.
  destruct (dict_get (stream_dict stream) "/Filter") as [f|];
    [|cbn [bind]; discriminate].
  destruct (dict_get (stream_dict stream) "/DecodeParms") as [p|].
  - intros _. split; discriminate.
  - match goal with
    | |- bind ?r _ = _ -> _ => destruct r; cbn [bind]; discriminate
    end.
Qed.

End FilterChains.


Lemma decode_stream_data_needs_both_entries_witness :
  dict_get (stream_dict example_stream) "/Filter" <> None
  /\ dict_get (stream_dict example_stream) "/DecodeParms" <> None.
Proof.
  apply (@decode_stream_data_needs_both_entries no_resolve no_zlib no_codec
           RunLengthDecode_decode_data LZWDecode_decode_data no_codec
           example_stream (Bytes [x61; x62; x63])).
  vm_compute. reflexivity.
Defined.

End Filters.

(** ** pypdf/_xobj_image_helpers.py *)

Module XobjImageHelpers.

(** A colour space as [_get_imagemode] looks at it: a [str], a [list] or
    any other object. *)
Inductive color_space : Type :=
| CStr (s : string)
| CList (items : list color_space)
| COther.

Definition MAX_IMAGE_MODE_NESTING_DEPTH : Z := 10.

(** [o == s] for a Python string [s]. *)
Definition is_str (o : color_space) (s : string) : bool :=
  match o with
  | CStr t => String.eqb t s
  | _ => false
  end.

Section GetImagemode.

(** [ColorSpaces.DEVICE_RGB], [ColorSpaces.DEVICE_CMYK] and
    [ColorSpaces.DEVICE_GRAY] of pypdf/constants.py. *)
Variables DEVICE_RGB DEVICE_CMYK DEVICE_GRAY : string.

(** The end of the function, reached when the colour space decides
    nothing. *)
Definition by_components (color_components : Z) (prev_mode : string)
  : string * bool :=
  if (color_components =? 1)%Z then ("L"%string, false)
  else if (color_components =? 3)%Z then ("RGB"%string, false)
  else if (color_components =? 4)%Z then ("CMYK"%string, true)
  else (prev_mode, false).

Fixpoint _get_imagemode (color_space : color_space) (color_components : Z)
         (prev_mode : string) (depth : Z) : string * bool :=
  if (depth >? MAX_IMAGE_MODE_NESTING_DEPTH)%Z then (prev_mode, false)
  else
    match color_space with
    | CStr s =>
      if String.eqb s DEVICE_RGB then ("RGB"%string, false)
      else if String.eqb s DEVICE_CMYK then ("CMYK"%string, true)
      else if String.eqb s DEVICE_GRAY then ("L"%string, false)
      else by_components color_components prev_mode
    | CList (first :: second :: _) =>
      if is_str first "/ICCBased"
      then _get_imagemode second color_components prev_mode (depth + 1)
      else if is_str first "/Indexed"
      then _get_imagemode second color_components prev_mode (depth + 1)
      else by_components color_components prev_mode
    | _ => by_components color_components prev_mode
    end.

(** [base] inside one [[name, ...]] array for each of [names], the first
    name outermost. *)
Fixpoint nested_in (names : list string) (base : color_space) : color_space :=
  match names with
  | [] => base
  | name :: names' => CList [CStr name; nested_in names' base]
  end.

(** *** Properties of _get_imagemode *)

Lemma get_imagemode_nested (color_components : Z) (prev_mode : string)
      (base : color_space) :
  forall (names : list string) (depth : Z),
    Forall (fun name => name = "/ICCBased"%string \/ name = "/Indexed"%string)
           names ->
    _get_imagemode (nested_in names base) color_components prev_mode depth
    = if (depth + Z.of_nat (List.length names) <=? MAX_IMAGE_MODE_NESTING_DEPTH)%Z
      then _get_imagemode base color_components prev_mode
                          (depth + Z.of_nat (List.length names))
      else (prev_mode, false).
Proof.
  unfold MAX_IMAGE_MODE_NESTING_DEPTH.
  induction names as [|name names IH]; intros depth F.
  - cbn [nested_in List.length Z.of_nat]. rewrite Z.add_0_r.
    destruct (Z.leb_spec depth 10) as [L|L]; [reflexivity|].
    destruct base as [s|items|]; cbn [_get_imagemode];
      unfold MAX_IMAGE_MODE_NESTING_DEPTH;
      (destruct (Z.gtb_spec depth 10); [reflexivity|lia]).
  - apply Forall_cons_iff in F. destruct F as [Hname F].
    cbn [nested_in _get_imagemode]. unfold MAX_IMAGE_MODE_NESTING_DEPTH.
    destruct (Z.gtb_spec depth 10) as [G|G].
    + destruct (Z.leb_spec (depth + Z.of_nat (List.length (name :: names))) 10);
        [cbn [List.length] in *; lia|reflexivity].
    + assert (E : _get_imagemode (CList [CStr name; nested_in names base])
                                 color_components prev_mode depth
                  = _get_imagemode (nested_in names base) color_components
                                   prev_mode (depth + 1)).
      { cbn [_get_imagemode]. unfold MAX_IMAGE_MODE_NESTING_DEPTH.
        destruct (Z.gtb_spec depth 10); [lia|].
        destruct Hname as [-> | ->]; reflexivity. }
      cbn [_get_imagemode] in E. unfold MAX_IMAGE_MODE_NESTING_DEPTH in E.
      destruct (Z.gtb_spec depth 10); [lia|]. rewrite E, (IH _ F).
      replace (depth + 1 + Z.of_nat (List.length names))%Z
        with (depth + Z.of_nat (List.length (name :: names)))%Z
        by (cbn [List.length]; lia).
      reflexivity.
Qed.

(** (X28) [_get_imagemode] follows [/ICCBased] and [/Indexed] arrays to
    the colour space they are based on through at most ten of them: with
    more the answer is the mode it was given and no inversion, whatever the
    base is.  Through ten or fewer, a device colour space at the base
    decides alone, and the number of components is not looked at. *)
Theorem get_imagemode_follows_ten_arrays
        (names : list string) (base : color_space) (color_components : Z)
        (prev_mode : string) :
  Forall (fun name => name = "/ICCBased"%string \/ name = "/Indexed"%string)
         names ->
  (10 < List.length names ->
   _get_imagemode (nested_in names base) color_components prev_mode 0
   = (prev_mode, false))
  /\ (List.length names <= 10 ->
      _get_imagemode (nested_in names (CStr DEVICE_RGB)) color_components prev_mode 0
      = ("RGB"%string, false)
      /\ (DEVICE_CMYK <> DEVICE_RGB ->
          _get_imagemode (nested_in names (CStr DEVICE_CMYK)) color_components
                         prev_mode 0
          = ("CMYK"%string, true))).
Proof.
  intros F. split; [intros L|intros L; split; [|intros N]];
    rewrite (get_imagemode_nested _ _ _ 0 F); unfold MAX_IMAGE_MODE_NESTING_DEPTH.
  - destruct (Z.leb_spec (0 + Z.of_nat (List.length names)) 10); [lia|reflexivity].
  - destruct (Z.leb_spec (0 + Z.of_nat (List.length names)) 10); [|lia].
    cbn [_get_imagemode]. unfold MAX_IMAGE_MODE_NESTING_DEPTH.
    destruct (Z.gtb_spec (0 + Z.of_nat (List.length names)) 10); [lia|].
    now rewrite String.eqb_refl.
  - destruct (Z.leb_spec (0 + Z.of_nat (List.length names)) 10); [|lia].
    cbn [_get_imagemode]. unfold MAX_IMAGE_MODE_NESTING_DEPTH.
    destruct (Z.gtb_spec (0 + Z.of_nat (List.length names)) 10); [lia|].
    apply String.eqb_neq in N. now rewrite N, String.eqb_refl.
Qed.

End GetImagemode.

Lemma get_imagemode_follows_ten_arrays_witness :
  _get_imagemode "/DeviceRGB" "/DeviceCMYK" "/DeviceGray"
                 (nested_in (repeat "/ICCBased"%string 11) (CStr "/DeviceRGB"))
                 3 "" 0
  = (EmptyString, false).
Proof.
  apply (proj1 (@get_imagemode_follows_ten_arrays
                  "/DeviceRGB" "/DeviceCMYK" "/DeviceGray"
                  (repeat "/ICCBased"%string 11) (CStr "/DeviceRGB") 3 ""
                  ltac:(repeat constructor))).
  cbn. lia.
Defined.

End XobjImageHelpers.

(** ** pypdf/generic/_data_structures.py *)

Module DataStructures.

Section GetInherited.

(** Modelled from the spec: the document's object table, through which an
    indirect reference resolves (the reader's [get_object] and
    pypdf/generic/_base.py are not among the sources).  "resolve(ref) ...
    fails with ReferenceNotFound if the id is absent". *)
Variable objects : nat -> option PdfObject.

Definition resolve (idnum : nat) : result PdfObject :=
  match objects idnum with
  | Some o => Ok o
  | None => Raise ReferenceNotFound
  end.



End GetInherited.





(** *** Properties of get_inherited *)

Section GetInheritedFacts.

Variable objects : nat -> option PdfObject.












End GetInheritedFacts.





End DataStructures.

(** ** pypdf/generic/_data_structures.py: TreeObject *)

Module TreeObject.

(** The nodes of a tree are dictionaries that the code changes in place and
    reaches along several paths, so a dictionary is a location of the store
    here.  An object, as a Python variable holds it after [get_object()]: a
    dictionary, an integer [NumberObject], or one of the other objects (null,
    boolean, string, array), which have no item assignment and no
    subtraction. *)
Definition loc : Type := nat.

Inductive object : Type :=
| Dict (at_ : loc)
| Number (n : Z)
| Other.

(** What a dictionary holds under a key: an object or an [IndirectObject]. *)
Inductive item : Type :=
| Indirect (idnum : nat)
| Direct (o : object).

(** The dictionaries of the store, by location. *)
Definition store : Type := loc -> list (string * item).

Fixpoint entries_get (entries : list (string * item)) (key : string)
  : option item :=
  match entries with
  | [] => None
  | (k, v) :: rest => if String.eqb k key then Some v else entries_get rest key
  end.

(** [dict.__setitem__]: the value of a key that is there is replaced, a new
    key is put at the end. *)
Fixpoint entries_set (entries : list (string * item)) (key : string) (v : item)
  : list (string * item) :=
  match entries with
  | [] => [(key, v)]
  | (k, w) :: rest =>
    if String.eqb k key then (k, v) :: rest else (k, w) :: entries_set rest key v
  end.

Definition store_set (s : store) (l : loc) (entries : list (string * item))
  : store :=
  fun l' => if Nat.eqb l' l then entries else s l'.

Section RemoveNode.

(** The object table of the document, through which an [IndirectObject]
    resolves (pypdf/generic/_base.py is not among the sources), and [==] on
    two objects, which for dictionaries compares what they hold. *)
Variable table : nat -> option object.
Variable py_eq : store -> object -> object -> bool.

Definition get_object (v : item) : result object :=
  match v with
  | Indirect idnum =>
    match table idnum with
    | Some o => Ok o
    | None => Raise ReferenceNotFound
    end
  | Direct o => Ok o
  end.

(** [x[key]]: [DictionaryObject.__getitem__] on a dictionary. *)
Definition obj_getitem (s : store) (x : object) (key : string) : result object :=
  match x with
  | Dict l =>
    match entries_get (s l) key with
    | Some v => get_object v
    | None => Raise KeyError
    end
  | _ => Raise TypeError
  end.

(** [x[NameObject(key)] = value]: [DictionaryObject.__setitem__] on a
    dictionary, where [None] is Python's [None], which is no [PdfObject]. *)
Definition obj_setitem (s : store) (x : object) (key : string)
           (value : option item) : result store :=
  match x with
  | Dict l =>
    match value with
    | None => Raise ValueError
    | Some v => Ok (store_set s l (entries_set (s l) key v))
    end
  | _ => Raise TypeError
  end.

(** [TreeObject._remove_node_from_tree(prev, prev_ref, cur, last)] on the
    tree object at [self]; the right-hand side of an assignment is evaluated
    before its target. *)
Definition _remove_node_from_tree (s : store) (self : loc)
           (prev : option object) (prev_ref : option item) (cur last : object)
  : result store :=
  s <-
    match prev with
    | None =>
      s <-
        (if py_eq s last cur then
           s <- obj_setitem s (Dict self) "/First" None ;;
           obj_setitem s (Dict self) "/Last" None
         else
           next <- obj_getitem s cur "/Next" ;;
           obj_setitem s (Dict self) "/First" (Some (Direct next))) ;;
      next <- obj_getitem s cur "/Next" ;;
      obj_setitem s next "/Prev" None
    | Some prev =>
      if py_eq s last cur then
        s <- obj_setitem s (Dict self) "/Last" (Some (Direct prev)) ;;
        obj_setitem s prev "/Next" None
      else
        next <- obj_getitem s cur "/Next" ;;
        s <- obj_setitem s prev "/Next" (Some (Direct next)) ;;
        next <- obj_getitem s cur "/Next" ;;
        obj_setitem s next "/Prev" prev_ref
    end ;;
  count <- obj_getitem s (Dict self) "/Count" ;;
  match count with
  | Number n => obj_setitem s (Dict self) "/Count" (Some (Direct (Number (n - 1))))
  | _ => Raise TypeError
  end.

(** *** Properties of _remove_node_from_tree *)

Lemma entries_get_set (entries : list (string * item)) (key key' : string)
      (v : item) :
  entries_get (entries_set entries key v) key'
  = if String.eqb key key' then Some v else entries_get entries key'.
Proof.
  induction entries as [|[k w] rest IH]; cbn [entries_set entries_get].
  - destruct (String.eqb key key'); reflexivity.
  - destruct (String.eqb_spec k key) as [->|N]; cbn [entries_get].
    + destruct (String.eqb key key'); reflexivity.
    + rewrite IH. destruct (String.eqb_spec k key') as [->|N'];
        [|reflexivity].
      apply String.eqb_neq in N. rewrite String.eqb_sym in N. now rewrite N.
Qed.

Lemma setitem_raises_on_None (s : store) (x : object) (key : string) :
  exists e, obj_setitem s x key None = Raise e.
Proof. destruct x; cbn; eauto. Qed.

(** A lookup after an assignment to another key of some dictionary. *)
Lemma getitem_other_key (s s' : store) (x y : object) (key key' : string)
      (v : option item) :
  obj_setitem s x key v = Ok s' -> key <> key' ->
  obj_getitem s' y key' = obj_getitem s y key'.
Proof.
  intros E N. destruct x as [l| |]; cbn [obj_setitem] in E; try discriminate.
  destruct v as [v|]; [|discriminate]. inversion E. subst s'.
  destruct y as [l'| |]; cbn [obj_getitem]; try reflexivity.
  unfold store_set. destruct (Nat.eqb_spec l' l) as [->|]; [|reflexivity].
  rewrite entries_get_set. apply String.eqb_neq in N. now rewrite N.
Qed.

(** A lookup after the object it gives was assigned to its key in some
    dictionary. *)
Lemma getitem_same_key (s s' : store) (x y o : object) (key : string) :
  obj_setitem s x key (Some (Direct o)) = Ok s' ->
  obj_getitem s y key = Ok o ->
  obj_getitem s' y key = Ok o.
Proof.
  intros E G. destruct x as [l| |]; cbn [obj_setitem] in E; try discriminate.
  inversion E. subst s'.
  destruct y as [l'| |]; cbn [obj_getitem] in *; try discriminate.
  unfold store_set. destruct (Nat.eqb_spec l' l) as [->|]; [|exact G].
  now rewrite entries_get_set, String.eqb_refl.
Qed.

Lemma entries_after_set (s s' : store) (l : loc) (key : string) (v : item) :
  obj_setitem s (Dict l) key (Some v) = Ok s' ->
  entries_get (s' l) key = Some v.
Proof.
  cbn [obj_setitem]. intros E. inversion E. unfold store_set.
  now rewrite Nat.eqb_refl, entries_get_set, String.eqb_refl.
Qed.

Lemma entries_other_key (s s' : store) (x : object) (l : loc)
      (key key' : string) (v : option item) :
  obj_setitem s x key v = Ok s' -> key <> key' ->
  entries_get (s' l) key' = entries_get (s l) key'.
Proof.
  intros E N. destruct x as [l'| |]; cbn [obj_setitem] in E; try discriminate.
  destruct v as [v|]; [|discriminate]. inversion E. unfold store_set.
  destruct (Nat.eqb_spec l l') as [->|]; [|reflexivity].
  rewrite entries_get_set. apply String.eqb_neq in N. now rewrite N.
Qed.

(** (X30) [_remove_node_from_tree] returns only for a node between two
    others.  For the first node of the list ([prev] is [None]) and for the
    last one ([last == cur]) it raises in every store: it assigns [None]
    through [__setitem__], which takes a [PdfObject] only.  For the only
    node of a tree this is the [ValueError] of the first assignment, before
    anything is changed.  For a node between two dictionaries the node
    before gets the node after as its [/Next], the node after gets
    [prev_ref] as its [/Prev], and [/Count] goes down by one. *)
Theorem remove_node_from_tree_interior_only
        (s : store) (self : loc) (prev : option object) (prev_ref : option item)
        (cur last : object) :
  (prev = None \/ py_eq s last cur = true ->
   exists e, _remove_node_from_tree s self prev prev_ref cur last = Raise e)
  /\ (prev = None -> py_eq s last cur = true ->
      _remove_node_from_tree s self prev prev_ref cur last = Raise ValueError)
  /\ (forall (before after : loc) (ref : item) (count : Z),
         prev = Some (Dict before) -> py_eq s last cur = false ->
         obj_getitem s cur "/Next" = Ok (Dict after) ->
         prev_ref = Some ref ->
         obj_getitem s (Dict self) "/Count" = Ok (Number count) ->
         exists s',
           _remove_node_from_tree s self prev prev_ref cur last = Ok s'
           /\ entries_get (s' before) "/Next" = Some (Direct (Dict after))
           /\ entries_get (s' after) "/Prev" = Some ref
           /\ entries_get (s' self) "/Count"
              = Some (Direct (Number (count - 1)))).
Proof.
  split; [|split].
  - intros Hcase. unfold _remove_node_from_tree.
    destruct prev as [prev|].
    + destruct Hcase as [N|E]; [discriminate|]. rewrite E.
      cbn [obj_setitem bind]. destruct prev; cbn; eauto.
    + destruct (py_eq s last cur).
      * cbn. eauto.
      * destruct (obj_getitem s cur "/Next") as [next| |] eqn:G; cbn [bind];
          [|eauto|].
        -- cbn [obj_setitem bind].
           match goal with
           | |- context [store_set ?a ?b ?c] => set (s1 := store_set a b c)
           end.
           destruct (obj_getitem s1 cur "/Next") as [next'| |] eqn:G';
             cbn [bind]; [|eauto|].
           ++ destruct (setitem_raises_on_None s1 next' "/Prev") as [e ->].
              cbn [bind]. eauto.
           ++ exfalso. destruct cur as [l| |]; cbn [obj_getitem] in G';
                try discriminate.
              destruct (entries_get (s1 l) "/Next") as [[idnum|o]|];
                cbn [get_object] in G'; try discriminate.
              destruct (table idnum); discriminate.
        -- exfalso. destruct cur as [l| |]; cbn [obj_getitem] in G;
             try discriminate.
           destruct (entries_get (s l) "/Next") as [[idnum|o]|];
             cbn [get_object] in G; try discriminate.
           destruct (table idnum); discriminate.
  - intros -> E. unfold _remove_node_from_tree. rewrite E. reflexivity.
  - intros before after ref count -> E G -> C.
    unfold _remove_node_from_tree. rewrite E, G. cbn [bind].
    destruct (obj_setitem s (Dict before) "/Next" (Some (Direct (Dict after))))
      as [s1| |] eqn:S1; try discriminate.
    cbn [bind]. rewrite (@getitem_same_key _ _ _ _ _ _ S1 G). cbn [bind].
    destruct (obj_setitem s1 (Dict after) "/Prev" (Some ref)) as [s2| |] eqn:S2;
      try discriminate.
    cbn [bind].
    assert (C2 : obj_getitem s2 (Dict self) "/Count" = Ok (Number count)).
    { rewrite (@getitem_other_key _ _ _ (Dict self) _ "/Count" _ S2 ltac:(discriminate)).
      rewrite (@getitem_other_key _ _ _ (Dict self) _ "/Count" _ S1 ltac:(discriminate)). exact C. }
    rewrite C2. cbn [bind].
    destruct (obj_setitem s2 (Dict self) "/Count"
                          (Some (Direct (Number (count - 1)))))
      as [s3| |] eqn:S3; try discriminate.
    exists s3. split; [reflexivity|]. split; [|split].
    + rewrite (@entries_other_key _ _ _ before _ "/Next" _ S3 ltac:(discriminate)).
      rewrite (@entries_other_key _ _ _ before _ "/Next" _ S2 ltac:(discriminate)).
      exact (@entries_after_set _ _ _ _ _ S1).
    + rewrite (@entries_other_key _ _ _ after _ "/Prev" _ S3 ltac:(discriminate)).
      exact (@entries_after_set _ _ _ _ _ S2).
    + exact (@entries_after_set _ _ _ _ _ S3).
Qed.

End RemoveNode.

(** An outline with three items: the tree at 0, the items at 1, 2 and 3,
    which are the objects 11, 12 and 13 of the document. *)
Definition outline_table (idnum : nat) : option object :=
  match idnum with
  | 10 => Some (Dict 0)
  | 11 => Some (Dict 1)
  | 12 => Some (Dict 2)
  | 13 => Some (Dict 3)
  | _ => None
  end.

Definition outline_store : store :=
  fun l =>
    match l with
    | 0 => [("/First"%string, Indirect 11); ("/Last"%string, Indirect 13);
            ("/Count"%string, Direct (Number 3))]
    | 1 => [("/Parent"%string, Indirect 10); ("/Next"%string, Indirect 12)]
    | 2 => [("/Parent"%string, Indirect 10); ("/Prev"%string, Indirect 11);
            ("/Next"%string, Indirect 13)]
    | 3 => [("/Parent"%string, Indirect 10); ("/Prev"%string, Indirect 12)]
    | _ => []
    end.

(** Two different dictionaries of this store hold different entries. *)
Definition same_object (_ : store) (a b : object) : bool :=
  match a, b with
  | Dict l, Dict l' => Nat.eqb l l'
  | Number n, Number m => (n =? m)%Z
  | _, _ => false
  end.

Lemma remove_node_from_tree_interior_only_witness :
  (exists e,
      _remove_node_from_tree outline_table same_object outline_store 0
                             None None (Dict 1) (Dict 3) = Raise e)
  /\ exists s',
      _remove_node_from_tree outline_table same_object outline_store 0
                             (Some (Dict 1)) (Some (Indirect 11)) (Dict 2) (Dict 3)
      = Ok s'
      /\ entries_get (s' 1) "/Next" = Some (Direct (Dict 3))
      /\ entries_get (s' 3) "/Prev" = Some (Indirect 11)
      /\ entries_get (s' 0) "/Count" = Some (Direct (Number (3 - 1))).
Proof.
  split.
  - apply (proj1 (@remove_node_from_tree_interior_only
                    outline_table same_object outline_store 0
                    None None (Dict 1) (Dict 3))).
    left. reflexivity.
  - apply (proj2 (proj2 (@remove_node_from_tree_interior_only
                           outline_table same_object outline_store 0
                           (Some (Dict 1)) (Some (Indirect 11)) (Dict 2) (Dict 3)))
             1 3 (Indirect 11) 3%Z); reflexivity.
Defined.

End TreeObject.

(** ** pypdf/_utils.py *)

Module Utils.

(** The stream a reader works on, by its bytes and its position:
    [PdfReader.__init__] reads a path into an [io.BytesIO].  A file object
    that is passed in is used as it is; where it behaves differently, see
    [Reader.stream_kind]. *)
Record BytesIO : Type := mkBytesIO {
  buffer : list byte;
  position : nat
}.

Definition tell (stream : BytesIO) : nat := position stream.

(** [stream.seek(pos)] *)
Definition seek (stream : BytesIO) (pos : nat) : BytesIO :=
  mkBytesIO (buffer stream) pos.

(** [stream.seek(-back, 2)] on an [io.BytesIO], which puts a position
    before the start of the buffer at 0.  (A file object raises [OSError]
    there: [Reader.seek_end_of].) *)
Definition seek_end (stream : BytesIO) (back : nat) : BytesIO :=
  mkBytesIO (buffer stream) (List.length (buffer stream) - back).

(** [stream.read(n)]: the bytes read and the stream after them. *)
Definition read (stream : BytesIO) (n : nat) : list byte * BytesIO :=
  let chunk := slice (buffer stream) (position stream) (position stream + n) in
  (chunk, mkBytesIO (buffer stream) (position stream + List.length chunk)).

(** [char in (b'\r', b'\n')] *)
Definition is_cr_or_lf (char : list byte) : bool :=
  match char with
  | [x0d] | [x0a] => true
  | _ => false
  end.

(** The [while current_pos > 0] loop of [read_previous_line]. *)
Fixpoint read_previous_line_loop (stream : BytesIO) (current_pos : nat)
         (line : list byte) : list byte * BytesIO :=
  match current_pos with
  | O => (rev line, stream)
  | S current_pos =>
    let stream := seek stream current_pos in
    let '(char, stream) := read stream 1 in
    if is_cr_or_lf char then
      match line with
      | _ :: _ => (rev line, seek stream (current_pos + 1))
      | [] => read_previous_line_loop stream current_pos line
      end
    else read_previous_line_loop stream current_pos (line ++ char)
  end.

Definition read_previous_line (stream : BytesIO) : list byte * BytesIO :=
  read_previous_line_loop stream (tell stream) [].

(** [hay.startswith(needle)] and [needle in hay] for [bytes]. *)
Fixpoint startswith (needle hay : list byte) : bool :=
  match needle, hay with
  | [], _ => true
  | _ :: _, [] => false
  | n :: needle', h :: hay' => Byte.eqb n h && startswith needle' hay'
  end.

Fixpoint contains (needle hay : list byte) : bool :=
  startswith needle hay
  || match hay with
     | [] => false
     | _ :: hay' => contains needle hay'
     end.

(** *** Properties of read_previous_line *)

Lemma startswith_app (needle hay suf : list byte) :
  startswith needle hay = true -> startswith needle (hay ++ suf) = true.
Proof.
  revert hay. induction needle as [|n needle IH]; intros [|h hay] H;
    cbn in *; try reflexivity; try discriminate.
  apply andb_true_iff in H. destruct H as [H1 H2].
  rewrite H1. cbn. now apply IH.
Qed.

Lemma contains_app_r (needle hay suf : list byte) :
  contains needle hay = true -> contains needle (hay ++ suf) = true.
Proof.
  induction hay as [|h hay IH]; intros H.
  - cbn in H. rewrite orb_false_r in H.
    destruct needle; [|discriminate]. destruct suf; reflexivity.
  - cbn [contains app] in *. apply orb_true_iff in H. destruct H as [H|H].
    + change (h :: hay ++ suf) with ((h :: hay) ++ suf).
      rewrite (startswith_app _ _ suf H). reflexivity.
    + rewrite (IH H). apply orb_true_r.
Qed.

Lemma contains_app_l (needle pre hay : list byte) :
  contains needle hay = true -> contains needle (pre ++ hay) = true.
Proof.
  intros H. induction pre as [|p pre IH]; [exact H|].
  cbn [contains app]. rewrite IH. apply orb_true_r.
Qed.

Lemma contains_infix (needle pre hay suf : list byte) :
  contains needle hay = true -> contains needle (pre ++ hay ++ suf) = true.
Proof. intros H. now apply contains_app_l, contains_app_r. Qed.

Lemma skipn_S_tail (A : Type) (n : nat) :
  forall xs : list A, skipn (S n) xs = tl (skipn n xs).
Proof.
  induction n as [|n IH]; intros [|x xs]; try reflexivity.
  change (skipn (S (S n)) (x :: xs)) with (skipn (S n) xs).
  change (skipn (S n) (x :: xs)) with (skipn n xs). apply IH.
Qed.

(** What [read_previous_line] returns is a run of consecutive bytes of the
    buffer, and the buffer is left as it was. *)
Lemma read_previous_line_loop_infix :
  forall (current_pos : nat) (stream : BytesIO) (line suf : list byte),
    skipn current_pos (buffer stream) = rev line ++ suf ->
    buffer (snd (read_previous_line_loop stream current_pos line)) = buffer stream
    /\ exists pre suf',
        buffer stream
        = pre ++ fst (read_previous_line_loop stream current_pos line) ++ suf'.
Proof.
  induction current_pos as [|cp IH]; intros stream line suf H.
  - cbn. split; [reflexivity|]. exists [], suf. exact H.
  - cbn [read_previous_line_loop read seek buffer position].
    unfold slice. replace (cp + 1 - cp) with 1 by lia.
    rewrite skipn_S_tail in H.
    destruct (skipn cp (buffer stream)) as [|c t] eqn:E.
    + cbn [firstn is_cr_or_lf tl] in *.
      assert (L : line = []).
      { destruct (rev line) eqn:R; [|discriminate].
        apply (f_equal (@rev byte)) in R. rewrite rev_involutive in R. exact R. }
      subst line. cbn [app].
      destruct (IH (mkBytesIO (buffer stream) (cp + 0)) [] []) as [B X];
        [cbn; rewrite E; reflexivity|].
      cbn [List.length]. split; [exact B|exact X].
    + cbn [firstn tl List.length] in *.
      destruct (is_cr_or_lf [c]).
      * destruct line as [|l0 line'].
        -- destruct (IH (mkBytesIO (buffer stream) (cp + 1)) [] (c :: t)) as [B X];
             [cbn; rewrite E; reflexivity|].
           split; [exact B|exact X].
        -- cbn [fst snd seek buffer]. split; [reflexivity|].
           exists (firstn (S cp) (buffer stream)), suf.
           rewrite <- H. rewrite <- (firstn_skipn (S cp) (buffer stream)) at 1.
           rewrite skipn_S_tail, E. reflexivity.
      * destruct (IH (mkBytesIO (buffer stream) (cp + 1)) (line ++ [c]) suf) as [B X].
        { cbn [buffer]. rewrite E, rev_app_distr, H. reflexivity. }
        split; [exact B|exact X].
Qed.

Lemma read_previous_line_infix (stream : BytesIO) :
  buffer (snd (read_previous_line stream)) = buffer stream
  /\ exists pre suf,
      buffer stream = pre ++ fst (read_previous_line stream) ++ suf.
Proof.
  unfold read_previous_line.
  apply read_previous_line_loop_infix with (suf := skipn (tell stream) (buffer stream)).
  reflexivity.
Qed.

(** *** The whitespace readers *)

(** [WHITESPACES = (b' ', b'\n', b'\r', b'\t', b'\x00')] *)
Definition WHITESPACES : list (list byte) := [[x20]; [x0a]; [x0d]; [x09]; [x00]].

(** [a == b] for two [bytes] objects. *)
Fixpoint bytes_eqb (a b : list byte) : bool :=
  match a, b with
  | [], [] => true
  | x :: a', y :: b' => Byte.eqb x y && bytes_eqb a' b'
  | _, _ => false
  end.

(** [byte in WHITESPACES] for the [bytes] object that [stream.read(1)]
    returns. *)
Definition is_whitespace (byte : list byte) : bool :=
  existsb (bytes_eqb byte) WHITESPACES.

(** [stream.seek(offset, SEEK_CUR)]: [BytesIO] puts a position before the
    start of the buffer at 0. *)
Definition seek_cur (stream : BytesIO) (offset : Z) : BytesIO :=
  mkBytesIO (buffer stream)
            (Z.to_nat (Z.max 0 (Z.of_nat (position stream) + offset))).

(** The bytes between the position and the end of the buffer; every
    iteration of the loops below that goes on has read one of them. *)
Definition remaining (stream : BytesIO) : nat :=
  List.length (buffer stream) - position stream.

(** The loop of [read_until_whitespace]; [maxchars] is [None] or an [int]. *)
Fixpoint read_until_whitespace_loop (fuel : nat) (stream : BytesIO)
         (maxchars : option Z) (result_ : list byte)
  : result (list byte * BytesIO) :=
  if match maxchars with
     | None => true
     | Some m => (Z.of_nat (List.length result_) <? m)%Z
     end
  then
    match fuel with
    | O => OutOfFuel
    | S fuel' =>
      let '(byte, stream) := read stream 1 in
      if is_whitespace byte || bytes_eqb byte [] then Ok (result_, stream)
      else read_until_whitespace_loop fuel' stream maxchars (result_ ++ byte)
    end
  else Ok (result_, stream).

Definition read_until_whitespace (stream : BytesIO) (maxchars : option Z)
  : result (list byte * BytesIO) :=
  read_until_whitespace_loop (S (remaining stream)) stream maxchars [].

Section ReadNonWhitespace.

(** The message of pypdf/errors.py, which is not among the sources. *)
Variable STREAM_TRUNCATED_PREMATURELY : string.

(** The [while True] loop of [read_non_whitespace].  The test for the end of
    the stream comes second: [b""] is not in [WHITESPACES], so it is
    returned by the first test. *)
Fixpoint read_non_whitespace_loop (fuel : nat) (stream : BytesIO)
  : result (list byte * BytesIO) :=
  match fuel with
  | O => OutOfFuel
  | S fuel' =>
    let '(byte, stream) := read stream 1 in
    if negb (is_whitespace byte) then Ok (byte, stream)
    else if bytes_eqb byte [] then
      Raise (PdfStreamError STREAM_TRUNCATED_PREMATURELY)
    else read_non_whitespace_loop fuel' stream
  end.

Definition read_non_whitespace (stream : BytesIO) : result (list byte * BytesIO) :=
  read_non_whitespace_loop (S (remaining stream)) stream.

End ReadNonWhitespace.

(** The loop of [skip_over_whitespace] with its flag [skipped]. *)
Fixpoint skip_over_whitespace_loop (fuel : nat) (stream : BytesIO) (skipped : bool)
  : result (bool * BytesIO) :=
  match fuel with
  | O => OutOfFuel
  | S fuel' =>
    let '(byte, stream) := read stream 1 in
    if negb (is_whitespace byte) then Ok (skipped, seek_cur stream (-1))
    else skip_over_whitespace_loop fuel' stream true
  end.

Definition skip_over_whitespace (stream : BytesIO) : result (bool * BytesIO) :=
  skip_over_whitespace_loop (S (remaining stream)) stream false.

(** What iterating over a [bytes] object yields, and what [WHITESPACES]
    holds: an [int] on one side, [bytes] objects on the other. *)
Inductive pyitem : Type :=
| IntItem (n : Z)
| BytesItem (b : list byte).

(** [a == b]: an [int] and a [bytes] object are never equal. *)
Definition pyitem_eqb (a b : pyitem) : bool :=
  match a, b with
  | IntItem m, IntItem n => (m =? n)%Z
  | BytesItem x, BytesItem y => bytes_eqb x y
  | _, _ => false
  end.

(** [all(byte in WHITESPACES for byte in value)] *)
Definition check_if_whitespace_only (value : list byte) : bool :=
  forallb (fun byte => existsb (pyitem_eqb (IntItem (Z_of_byte byte)))
                               (map BytesItem WHITESPACES))
          value.

Section ReadUntilRegex.

(** [regex.search(result)] as a test on the bytes read so far. *)
Variable regex_search : list byte -> bool.

Fixpoint read_until_regex_loop (fuel : nat) (stream : BytesIO) (result_ : list byte)
  : result (list byte * BytesIO) :=
  match fuel with
  | O => OutOfFuel
  | S fuel' =>
    let '(byte, stream) := read stream 1 in
    if bytes_eqb byte [] then Ok (result_, stream)
    else
      let result_ := result_ ++ byte in
      if regex_search result_ then Ok (result_, stream)
      else read_until_regex_loop fuel' stream result_
  end.

Definition read_until_regex (stream : BytesIO) : result (list byte * BytesIO) :=
  read_until_regex_loop (S (remaining stream)) stream [].

End ReadUntilRegex.


(** *** Properties of the readers *)

Definition is_space (b : byte) : bool := is_whitespace [b].

(** One byte read where the buffer goes on with [w], and at its end. *)
Lemma read_one (stream : BytesIO) (w : byte) (rest : list byte) :
  skipn (position stream) (buffer stream) = w :: rest ->
  read stream 1 = ([w], mkBytesIO (buffer stream) (position stream + 1))
  /\ skipn (position stream + 1) (buffer stream) = rest.
Proof.
  intros H. unfold read, slice.
  replace (position stream + 1 - position stream) with 1 by lia.
  rewrite H. cbn [firstn List.length]. split; [reflexivity|].
  replace (position stream + 1) with (S (position stream)) by lia.
  now rewrite skipn_S_tail, H.
Qed.

Lemma read_at_end (stream : BytesIO) :
  skipn (position stream) (buffer stream) = [] ->
  read stream 1 = ([], mkBytesIO (buffer stream) (position stream + 0)).
Proof.
  intros H. unfold read, slice. rewrite H. now rewrite firstn_nil.
Qed.

Lemma remaining_skipn (stream : BytesIO) :
  remaining stream = List.length (skipn (position stream) (buffer stream)).
Proof. unfold remaining. now rewrite length_skipn. Qed.

(** What follows a run of bytes: nothing, or a byte of the other kind. *)
Definition ends_with (stop : byte -> bool) (tail : list byte) : Prop :=
  match tail with
  | [] => True
  | b :: _ => stop b = true
  end.

Lemma read_until_whitespace_loop_word (tail : list byte) :
  ends_with is_space tail ->
  forall (word : list byte) (fuel : nat) (stream : BytesIO) (acc : list byte),
    skipn (position stream) (buffer stream) = word ++ tail ->
    Forall (fun b => is_space b = false) word ->
    List.length word < fuel ->
    read_until_whitespace_loop fuel stream None acc
    = Ok (acc ++ word,
          mkBytesIO (buffer stream)
                    (position stream + List.length word + Nat.min 1 (List.length tail))).
Proof.
  intros Ht. induction word as [|b word IH]; intros fuel stream acc Hs Hw Hf.
  - destruct fuel as [|fuel]; [cbn in Hf; lia|]. cbn [read_until_whitespace_loop].
    cbn [app] in Hs. rewrite app_nil_r. cbn [List.length]. rewrite Nat.add_0_r.
    destruct tail as [|w tail].
    + rewrite (read_at_end _ Hs). cbn. reflexivity.
    + destruct (read_one _ Hs) as [-> _].
      change (is_whitespace [w] = true) in Ht. rewrite Ht. reflexivity.
  - destruct fuel as [|fuel]; [cbn in Hf; lia|]. cbn [read_until_whitespace_loop].
    cbn [app] in Hs. destruct (read_one _ Hs) as [-> Hs'].
    apply Forall_cons_iff in Hw. destruct Hw as [Hb Hw]. unfold is_space in Hb.
    rewrite Hb. cbn [orb bytes_eqb].
    rewrite (IH fuel (mkBytesIO (buffer stream) (position stream + 1)) (acc ++ [b]));
      [|exact Hs'|exact Hw|cbn [List.length] in Hf; lia].
    cbn [buffer position List.length]. rewrite <- app_assoc. cbn [app].
    do 2 f_equal. f_equal. lia.
Qed.

Lemma read_until_whitespace_loop_full
      (fuel : nat) (stream : BytesIO) (m : Z) (acc : list byte) :
  (m <= Z.of_nat (List.length acc))%Z ->
  read_until_whitespace_loop fuel stream (Some m) acc = Ok (acc, stream).
Proof.
  intros H.
  destruct fuel; cbn [read_until_whitespace_loop];
    (destruct (Z.ltb_spec (Z.of_nat (List.length acc)) m) as [E|E];
     [lia|reflexivity]).
Qed.

Lemma read_until_whitespace_loop_limit (tail : list byte) (m : Z) :
  forall (word : list byte) (fuel : nat) (stream : BytesIO) (acc : list byte),
    skipn (position stream) (buffer stream) = word ++ tail ->
    Forall (fun b => is_space b = false) word ->
    (m - Z.of_nat (List.length acc) <= Z.of_nat (List.length word))%Z ->
    List.length word < fuel ->
    read_until_whitespace_loop fuel stream (Some m) acc
    = Ok (acc ++ firstn (Z.to_nat (m - Z.of_nat (List.length acc))) word,
          mkBytesIO (buffer stream)
                    (position stream + Z.to_nat (m - Z.of_nat (List.length acc)))).
Proof.
  induction word as [|b word IH]; intros fuel stream acc Hs Hw Hm Hf.
  - cbn [List.length] in Hm. rewrite read_until_whitespace_loop_full by lia.
    replace (Z.to_nat (m - Z.of_nat (List.length acc))) with 0 by lia.
    rewrite firstn_nil, app_nil_r, Nat.add_0_r. now destruct stream.
  - destruct (Z.lt_ge_cases (Z.of_nat (List.length acc)) m) as [E|E].
    + destruct fuel as [|fuel]; [cbn in Hf; lia|].
      cbn [read_until_whitespace_loop].
      destruct (Z.ltb_spec (Z.of_nat (List.length acc)) m) as [_|E']; [|lia].
      cbn [app] in Hs. destruct (read_one _ Hs) as [-> Hs'].
      apply Forall_cons_iff in Hw. destruct Hw as [Hb Hw]. unfold is_space in Hb.
      rewrite Hb. cbn [orb bytes_eqb].
      rewrite (IH fuel (mkBytesIO (buffer stream) (position stream + 1)) (acc ++ [b]));
        [|exact Hs'|exact Hw
         |rewrite length_app; cbn [List.length] in *; lia
         |cbn [List.length] in Hf; lia].
      cbn [buffer position]. rewrite length_app. cbn [List.length].
      replace (Z.to_nat (m - Z.of_nat (List.length acc)))
        with (S (Z.to_nat (m - Z.of_nat (List.length acc + 1)))) by lia.
      cbn [firstn]. rewrite <- app_assoc. cbn [app].
      do 2 f_equal. f_equal. lia.
    + rewrite read_until_whitespace_loop_full by lia.
      replace (Z.to_nat (m - Z.of_nat (List.length acc))) with 0 by lia.
      cbn [firstn]. rewrite app_nil_r, Nat.add_0_r. now destruct stream.
Qed.

(** (X9) [read_until_whitespace] returns the bytes from the position up to
    the first whitespace byte or the end of the stream, and leaves the
    stream after the whitespace byte that stopped it; with [maxchars] no
    larger than that run it returns [maxchars] bytes and reads no further. *)
Theorem read_until_whitespace_word (stream : BytesIO) (word tail : list byte) :
  skipn (position stream) (buffer stream) = word ++ tail ->
  Forall (fun b => is_space b = false) word ->
  ends_with is_space tail ->
  read_until_whitespace stream None
  = Ok (word,
        mkBytesIO (buffer stream)
                  (position stream + List.length word + Nat.min 1 (List.length tail)))
  /\ forall m : Z,
      (m <= Z.of_nat (List.length word))%Z ->
      read_until_whitespace stream (Some m)
      = Ok (firstn (Z.to_nat m) word,
            mkBytesIO (buffer stream) (position stream + Z.to_nat m)).
Proof.
  intros Hs Hw Ht.
  assert (Hf : List.length word < S (remaining stream)).
  { rewrite remaining_skipn, Hs, length_app. lia. }
  split.
  - unfold read_until_whitespace.
    now rewrite (@read_until_whitespace_loop_word tail Ht word _ stream [] Hs Hw Hf).
  - intros m Hm. unfold read_until_whitespace.
    rewrite (@read_until_whitespace_loop_limit tail m word _ stream [] Hs Hw);
      [|cbn [List.length]; lia|exact Hf].
    cbn [List.length app]. now rewrite Z.sub_0_r.
Qed.

Lemma read_until_whitespace_word_witness :
  read_until_whitespace (mkBytesIO [x2f; x41; x42; x20; x43] 1) None
  = Ok ([x41; x42], mkBytesIO [x2f; x41; x42; x20; x43] 4).
Proof.
  apply (proj1 (@read_until_whitespace_word
                  (mkBytesIO [x2f; x41; x42; x20; x43] 1) [x41; x42] [x20; x43]
                  eq_refl ltac:(repeat constructor) eq_refl)).
Defined.

Definition is_not_space (b : byte) : bool := negb (is_space b).

Lemma read_non_whitespace_loop_spaces (msg : string) (tail : list byte) :
  ends_with is_not_space tail ->
  forall (spaces : list byte) (fuel : nat) (stream : BytesIO),
    skipn (position stream) (buffer stream) = spaces ++ tail ->
    Forall (fun b => is_space b = true) spaces ->
    List.length spaces < fuel ->
    read_non_whitespace_loop msg fuel stream
    = Ok (firstn 1 tail,
          mkBytesIO (buffer stream)
                    (position stream + List.length spaces
                     + Nat.min 1 (List.length tail))).
Proof.
  intros Ht. induction spaces as [|b spaces IH]; intros fuel stream Hs Hw Hf.
  - destruct fuel as [|fuel]; [cbn in Hf; lia|]. cbn [read_non_whitespace_loop].
    cbn [app] in Hs. cbn [List.length]. rewrite Nat.add_0_r.
    destruct tail as [|w tail].
    + rewrite (read_at_end _ Hs). reflexivity.
    + destruct (read_one _ Hs) as [-> _].
      change (negb (is_whitespace [w]) = true) in Ht. rewrite Ht. reflexivity.
  - destruct fuel as [|fuel]; [cbn in Hf; lia|]. cbn [read_non_whitespace_loop].
    cbn [app] in Hs. destruct (read_one _ Hs) as [-> Hs'].
    apply Forall_cons_iff in Hw. destruct Hw as [Hb Hw]. unfold is_space in Hb.
    rewrite Hb. cbn [negb bytes_eqb].
    rewrite (IH fuel (mkBytesIO (buffer stream) (position stream + 1)));
      [|exact Hs'|exact Hw|cbn [List.length] in Hf; lia].
    cbn [buffer position List.length]. do 2 f_equal. f_equal. lia.
Qed.

(** (X10) [read_non_whitespace] never raises.  It returns the first byte
    after the whitespace at the position, and at the end of the stream it
    returns [b""]: the empty read is not in [WHITESPACES], so the first test
    of the loop returns it and the [PdfStreamError] of the second test is
    never reached. *)
Theorem read_non_whitespace_returns
        (msg : string) (stream : BytesIO) (spaces tail : list byte) :
  skipn (position stream) (buffer stream) = spaces ++ tail ->
  Forall (fun b => is_space b = true) spaces ->
  ends_with is_not_space tail ->
  read_non_whitespace msg stream
  = Ok (firstn 1 tail,
        mkBytesIO (buffer stream)
                  (position stream + List.length spaces
                   + Nat.min 1 (List.length tail))).
Proof.
  intros Hs Hw Ht. unfold read_non_whitespace.
  apply (@read_non_whitespace_loop_spaces msg tail Ht spaces _ stream Hs Hw).
  rewrite remaining_skipn, Hs, length_app. lia.
Qed.

Lemma read_non_whitespace_returns_witness :
  read_non_whitespace "truncated" (mkBytesIO [x41; x20; x0a] 1)
  = Ok ([], mkBytesIO [x41; x20; x0a] 3).
Proof.
  apply (@read_non_whitespace_returns "truncated" (mkBytesIO [x41; x20; x0a] 1)
           [x20; x0a] [] eq_refl ltac:(repeat constructor) I).
Defined.

Lemma skip_over_whitespace_loop_spaces (tail : list byte) :
  ends_with is_not_space tail ->
  forall (spaces : list byte) (fuel : nat) (stream : BytesIO) (skipped : bool),
    skipn (position stream) (buffer stream) = spaces ++ tail ->
    Forall (fun b => is_space b = true) spaces ->
    List.length spaces < fuel ->
    skip_over_whitespace_loop fuel stream skipped
    = Ok (skipped || negb (Nat.eqb (List.length spaces) 0),
          mkBytesIO (buffer stream)
                    (position stream + List.length spaces
                     + Nat.min 1 (List.length tail) - 1)).
Proof.
  intros Ht. induction spaces as [|b spaces IH]; intros fuel stream skipped Hs Hw Hf.
  - destruct fuel as [|fuel]; [cbn in Hf; lia|]. cbn [skip_over_whitespace_loop].
    cbn [app] in Hs. cbn [List.length Nat.eqb negb]. rewrite orb_false_r, Nat.add_0_r.
    destruct tail as [|w tail].
    + rewrite (read_at_end _ Hs). cbn [negb is_whitespace existsb WHITESPACES
        bytes_eqb orb]. unfold seek_cur. cbn [buffer position List.length Nat.min].
      do 2 f_equal. f_equal. lia.
    + destruct (read_one _ Hs) as [-> _].
      change (negb (is_whitespace [w]) = true) in Ht. rewrite Ht.
      unfold seek_cur. cbn [buffer position List.length Nat.min].
      do 2 f_equal. f_equal. lia.
  - destruct fuel as [|fuel]; [cbn in Hf; lia|]. cbn [skip_over_whitespace_loop].
    cbn [app] in Hs. destruct (read_one _ Hs) as [-> Hs'].
    apply Forall_cons_iff in Hw. destruct Hw as [Hb Hw]. unfold is_space in Hb.
    rewrite Hb. cbn [negb].
    rewrite (IH fuel (mkBytesIO (buffer stream) (position stream + 1)) true);
      [|exact Hs'|exact Hw|cbn [List.length] in Hf; lia].
    cbn [buffer position List.length Nat.eqb negb orb]. rewrite orb_true_r.
    do 2 f_equal. f_equal. lia.
Qed.

(** (X11) [skip_over_whitespace] leaves the stream on the first byte that
    is not whitespace and tells whether it skipped any byte (one is enough).
    At the end of the stream the closing [seek(-1, SEEK_CUR)] follows a read
    of nothing: the stream ends up one byte before its end. *)
Theorem skip_over_whitespace_position (stream : BytesIO) (spaces tail : list byte) :
  skipn (position stream) (buffer stream) = spaces ++ tail ->
  Forall (fun b => is_space b = true) spaces ->
  ends_with is_not_space tail ->
  skip_over_whitespace stream
  = Ok (negb (Nat.eqb (List.length spaces) 0),
        mkBytesIO (buffer stream)
                  (match tail with
                   | [] => position stream + List.length spaces - 1
                   | _ :: _ => position stream + List.length spaces
                   end)).
Proof.
  intros Hs Hw Ht. unfold skip_over_whitespace.
  rewrite (@skip_over_whitespace_loop_spaces tail Ht spaces _ stream false Hs Hw)
    by (rewrite remaining_skipn, Hs, length_app; lia).
  cbn [orb]. do 2 f_equal. f_equal. destruct tail; cbn [List.length Nat.min]; lia.
Qed.

Lemma skip_over_whitespace_position_witness :
  skip_over_whitespace (mkBytesIO [x41; x42; x20] 2)
  = Ok (true, mkBytesIO [x41; x42; x20] 2).
Proof.
  apply (@skip_over_whitespace_position (mkBytesIO [x41; x42; x20] 2) [x20] []
           eq_refl ltac:(repeat constructor) I).
Defined.

(** (X12) [check_if_whitespace_only] is true of the empty [bytes] object
    only: the items of a [bytes] object are [int]s, and no [int] is equal to
    a member of [WHITESPACES]. *)
Theorem check_if_whitespace_only_empty (value : list byte) :
  check_if_whitespace_only value = true <-> value = [].
Proof.
  split.
  - destruct value as [|b value]; [reflexivity|]. intros H. discriminate H.
  - intros ->. reflexivity.
Qed.

Lemma read_until_regex_loop_match (regex_search : list byte -> bool) :
  forall (todo : list byte) (fuel : nat) (stream : BytesIO) (acc tail : list byte),
    skipn (position stream) (buffer stream) = todo ++ tail ->
    (forall j, 0 < j < List.length todo ->
               regex_search (acc ++ firstn j todo) = false) ->
    (todo <> [] /\ regex_search (acc ++ todo) = true
     \/ tail = [] /\ (todo = [] \/ regex_search (acc ++ todo) = false)) ->
    List.length todo < fuel ->
    read_until_regex_loop regex_search fuel stream acc
    = Ok (acc ++ todo,
          mkBytesIO (buffer stream) (position stream + List.length todo)).
Proof.
  induction todo as [|b todo IH]; intros fuel stream acc tail Hs Hno Hend Hf.
  - destruct fuel as [|fuel]; [cbn in Hf; lia|].
    destruct Hend as [[E _]|[-> _]]; [contradiction|].
    cbn [read_until_regex_loop]. cbn [app] in Hs. rewrite (read_at_end _ Hs).
    cbn [bytes_eqb List.length]. now rewrite app_nil_r.
  - destruct fuel as [|fuel]; [cbn in Hf; lia|].
    cbn [read_until_regex_loop]. cbn [app] in Hs.
    destruct (read_one _ Hs) as [-> Hs']. cbn [bytes_eqb].
    destruct todo as [|c todo].
    + cbn [List.length].
      destruct (regex_search (acc ++ [b])) eqn:E; [reflexivity|].
      destruct Hend as [[_ E']|[-> _]]; [congruence|].
      destruct fuel as [|fuel]; [cbn in Hf; lia|].
      cbn [read_until_regex_loop]. cbn [app] in Hs'.
      rewrite (read_at_end (mkBytesIO (buffer stream) (position stream + 1)) Hs').
      cbn [bytes_eqb buffer position]. do 2 f_equal. f_equal. lia.
    + assert (E : regex_search (acc ++ [b]) = false).
      { apply (Hno 1). cbn [List.length]. lia. }
      rewrite E.
      rewrite (IH fuel (mkBytesIO (buffer stream) (position stream + 1))
                  (acc ++ [b]) tail Hs').
      * cbn [buffer position List.length]. rewrite <- app_assoc. cbn [app].
        do 2 f_equal. f_equal. lia.
      * intros j Hj. rewrite <- app_assoc. cbn [app].
        apply (Hno (S j)). cbn [List.length] in *. lia.
      * rewrite <- app_assoc. cbn [app].
        destruct Hend as [[_ E']|[-> [E'|E']]].
        -- left. split; [discriminate|exact E'].
        -- discriminate.
        -- right. split; [reflexivity|]. right. exact E'.
      * cbn [List.length] in *. lia.
Qed.

(** (X13) [read_until_regex] reads up to and including the first byte at
    which the pattern is found in what has been read, and to the end of the
    stream when it is never found; the bytes that make the match are part
    of the result and the stream is left after them. *)
Theorem read_until_regex_first_match
        (regex_search : list byte -> bool) (stream : BytesIO)
        (todo tail : list byte) :
  skipn (position stream) (buffer stream) = todo ++ tail ->
  (forall j, 0 < j < List.length todo -> regex_search (firstn j todo) = false) ->
  (todo <> [] /\ regex_search todo = true
   \/ tail = [] /\ (todo = [] \/ regex_search todo = false)) ->
  read_until_regex regex_search stream
  = Ok (todo, mkBytesIO (buffer stream) (position stream + List.length todo)).
Proof.
  intros Hs Hno Hend. unfold read_until_regex.
  apply (@read_until_regex_loop_match regex_search todo _ stream [] tail Hs Hno Hend).
  rewrite remaining_skipn, Hs, length_app. lia.
Qed.

Lemma read_until_regex_first_match_witness :
  read_until_regex (fun read => contains [x2f] read)
                   (mkBytesIO [x41; x42; x2f; x43] 0)
  = Ok ([x41; x42; x2f], mkBytesIO [x41; x42; x2f; x43] 3).
Proof.
  apply (@read_until_regex_first_match (fun read => contains [x2f] read)
           (mkBytesIO [x41; x42; x2f; x43] 0) [x41; x42; x2f] [x43] eq_refl).
  - intros [|[|[|j]]] Hj; cbn [List.length] in Hj; try lia; reflexivity.
  - left. split; [discriminate|reflexivity].
Defined.

Lemma firstn_add_skipn (A : Type) (n m : nat) :
  forall xs : list A, firstn (n + m) xs = firstn n xs ++ firstn m (skipn n xs).
Proof.
  induction n as [|n IH]; intros [|x xs]; cbn [Nat.add firstn skipn app];
    try reflexivity.
  - now rewrite firstn_nil.
  - now rewrite IH.
Qed.





Ltac list_assoc :=
  repeat rewrite <- app_assoc; cbn [app]; repeat rewrite <- app_assoc;
  cbn [app]; reflexivity.

(** One byte read at a given place of the buffer. *)
Lemma read_at (stream : BytesIO) (xs ys : list byte) (c : byte) :
  buffer stream = xs ++ c :: ys ->
  read (seek stream (List.length xs)) 1
  = ([c], mkBytesIO (buffer stream) (List.length xs + 1)).
Proof.
  intros H.
  apply (@read_one (seek stream (List.length xs)) c ys).
  cbn [seek position buffer]. rewrite H, skipn_app, skipn_all, Nat.sub_diag.
  reflexivity.
Qed.

Definition is_line_end (b : byte) : bool := is_cr_or_lf [b].

Lemma rev_not_nil (A : Type) (xs : list A) :
  xs <> [] -> exists y ys, rev xs = y :: ys.
Proof.
  intros H. destruct (rev xs) as [|y ys] eqn:E; [|now exists y, ys].
  apply (f_equal (@rev A)) in E. rewrite rev_involutive in E. contradiction.
Qed.

(** The loop on the bytes of a line that has a line end before it. *)
Lemma read_previous_line_loop_line (pre : list byte) (nl : byte) :
  is_line_end nl = true ->
  forall (todo : list byte) (stream : BytesIO) (done after : list byte),
    buffer stream = pre ++ nl :: todo ++ after ->
    Forall (fun b => is_line_end b = false) todo ->
    todo ++ done <> [] ->
    read_previous_line_loop stream (List.length pre + 1 + List.length todo) (rev done)
    = (todo ++ done, mkBytesIO (buffer stream) (List.length pre + 1)).
Proof.
  intros Hnl todo. induction todo as [|c todo IH] using rev_ind;
    intros stream done after Hb Hw Hne.
  - cbn [List.length app] in *.
    replace (List.length pre + 1 + 0) with (S (List.length pre)) by lia.
    cbn [read_previous_line_loop]. rewrite (@read_at stream _ _ _ Hb).
    change (is_cr_or_lf [nl]) with (is_line_end nl). rewrite Hnl.
    destruct (rev_not_nil Hne) as (y & ys & E). rewrite E, <- E, rev_involutive.
    reflexivity.
  - rewrite length_app. cbn [List.length].
    replace (List.length pre + 1 + (List.length todo + 1))
      with (S (List.length (pre ++ nl :: todo)))
      by (rewrite length_app; cbn [List.length]; lia).
    assert (Hb' : buffer stream = (pre ++ nl :: todo) ++ c :: after).
    { rewrite Hb. list_assoc. }
    cbn [read_previous_line_loop]. rewrite (@read_at stream _ _ _ Hb').
    apply Forall_app in Hw. destruct Hw as [Hw Hc].
    apply Forall_cons_iff in Hc. destruct Hc as [Hc _].
    change (is_cr_or_lf [c]) with (is_line_end c). rewrite Hc.
    change (rev done ++ [c]) with (rev (c :: done)).
    replace (List.length (pre ++ nl :: todo))
      with (List.length pre + 1 + List.length todo)
      by (rewrite length_app; cbn [List.length]; lia).
    rewrite (IH _ (c :: done) (c :: after)).
    + cbn [buffer]. list_assoc.
    + cbn [buffer]. rewrite Hb. list_assoc.
    + exact Hw.
    + intros E. apply app_eq_nil in E. destruct E as [_ E]. discriminate.
Qed.

(** The loop on the line ends that lie between the line and the position. *)
Lemma read_previous_line_loop_ends (pre : list byte) (nl : byte) (line : list byte) :
  is_line_end nl = true ->
  Forall (fun b => is_line_end b = false) line ->
  line <> [] ->
  forall (ends : list byte) (stream : BytesIO) (after : list byte),
    buffer stream = pre ++ nl :: line ++ ends ++ after ->
    Forall (fun b => is_line_end b = true) ends ->
    read_previous_line_loop
      stream (List.length pre + 1 + List.length line + List.length ends) []
    = (line, mkBytesIO (buffer stream) (List.length pre + 1)).
Proof.
  intros Hnl Hline Hne ends. induction ends as [|t ends IH] using rev_ind;
    intros stream after Hb He.
  - cbn [List.length app] in *. rewrite Nat.add_0_r.
    pose proof (@read_previous_line_loop_line pre nl Hnl line stream [] after
                  Hb Hline) as P.
    cbn [rev] in P. rewrite P by (now rewrite app_nil_r). now rewrite app_nil_r.
  - rewrite length_app. cbn [List.length].
    replace (List.length pre + 1 + List.length line + (List.length ends + 1))
      with (S (List.length (pre ++ nl :: line ++ ends)))
      by (rewrite !length_app; cbn [List.length]; rewrite length_app; lia).
    assert (Hb' : buffer stream = (pre ++ nl :: line ++ ends) ++ t :: after).
    { rewrite Hb. list_assoc. }
    cbn [read_previous_line_loop]. rewrite (@read_at stream _ _ _ Hb').
    apply Forall_app in He. destruct He as [He Ht].
    apply Forall_cons_iff in Ht. destruct Ht as [Ht _].
    change (is_cr_or_lf [t]) with (is_line_end t). rewrite Ht.
    replace (List.length (pre ++ nl :: line ++ ends))
      with (List.length pre + 1 + List.length line + List.length ends)
      by (rewrite !length_app; cbn [List.length]; rewrite length_app; lia).
    rewrite (IH _ (t :: after)); [reflexivity| |exact He].
    cbn [buffer]. rewrite Hb. list_assoc.
Qed.

(** The same two loops on the first line of the buffer: the loop ends when
    [current_pos] reaches 0, right after the byte at 0 has been read. *)
Lemma read_previous_line_loop_first :
  forall (todo : list byte) (stream : BytesIO) (done after : list byte),
    buffer stream = todo ++ after ->
    Forall (fun b => is_line_end b = false) todo ->
    read_previous_line_loop stream (List.length todo) (rev done)
    = (todo ++ done,
       match todo with
       | [] => stream
       | _ :: _ => mkBytesIO (buffer stream) 1
       end).
Proof.
  induction todo as [|c todo IH] using rev_ind; intros stream done after Hb Hw.
  - cbn [List.length read_previous_line_loop app]. now rewrite rev_involutive.
  - rewrite length_app. cbn [List.length].
    replace (List.length todo + 1) with (S (List.length todo)) by lia.
    assert (Hb' : buffer stream = todo ++ c :: after)
      by (rewrite Hb; list_assoc).
    cbn [read_previous_line_loop]. rewrite (@read_at stream _ _ _ Hb').
    apply Forall_app in Hw. destruct Hw as [Hw Hc].
    apply Forall_cons_iff in Hc. destruct Hc as [Hc _].
    change (is_cr_or_lf [c]) with (is_line_end c). rewrite Hc.
    change (rev done ++ [c]) with (rev (c :: done)).
    rewrite (IH (mkBytesIO (buffer stream) (List.length todo + 1))
                (c :: done) (c :: after) Hb' Hw).
    rewrite <- app_assoc. cbn [app buffer]. f_equal.
    destruct todo as [|t todo]; [reflexivity|].
    now destruct (t :: todo ++ [c]) eqn:E.
Qed.

Lemma read_previous_line_loop_first_ends (line : list byte) :
  Forall (fun b => is_line_end b = false) line ->
  forall (ends : list byte) (stream : BytesIO) (after : list byte),
    buffer stream = line ++ ends ++ after ->
    Forall (fun b => is_line_end b = true) ends ->
    line ++ ends <> [] ->
    read_previous_line_loop stream (List.length line + List.length ends) []
    = (line, mkBytesIO (buffer stream) 1).
Proof.
  intros Hline ends. induction ends as [|t ends IH] using rev_ind;
    intros stream after Hb He Hne.
  - cbn [List.length app] in *. rewrite Nat.add_0_r, app_nil_r in *.
    pose proof (@read_previous_line_loop_first line stream [] after Hb Hline) as P.
    cbn [rev] in P. rewrite P.
    rewrite app_nil_r. destruct line; [contradiction|reflexivity].
  - rewrite length_app. cbn [List.length].
    replace (List.length line + (List.length ends + 1))
      with (S (List.length (line ++ ends))) by (rewrite length_app; lia).
    assert (Hb' : buffer stream = (line ++ ends) ++ t :: after).
    { rewrite Hb. list_assoc. }
    cbn [read_previous_line_loop]. rewrite (@read_at stream _ _ _ Hb').
    apply Forall_app in He. destruct He as [He Ht].
    apply Forall_cons_iff in Ht. destruct Ht as [Ht _].
    change (is_cr_or_lf [t]) with (is_line_end t). rewrite Ht.
    rewrite length_app.
    destruct (list_eq_dec Byte.byte_eq_dec (line ++ ends) []) as [E|E].
    + apply app_eq_nil in E. destruct E as [-> ->]. reflexivity.
    + rewrite (IH (mkBytesIO (buffer stream) (List.length line + List.length ends + 1))
                  (t :: after)); [reflexivity| |exact He|exact E].
      cbn [buffer]. rewrite Hb. list_assoc.
Qed.

(** (X15) [read_previous_line] from a position that follows a line and the
    line ends after it: the line is returned without any line end and the
    stream is left right after the line end that precedes the line.  When no
    line end precedes the line it is the first line of the buffer that is
    returned, and the stream is left at position 1, after the last byte the
    loop has read, not at the beginning of the stream. *)
Theorem read_previous_line_line
        (stream : BytesIO) (line ends after : list byte) :
  Forall (fun b => is_line_end b = false) line ->
  Forall (fun b => is_line_end b = true) ends ->
  line <> [] ->
  (forall (pre : list byte) (nl : byte),
      is_line_end nl = true ->
      buffer stream = pre ++ nl :: line ++ ends ++ after ->
      position stream = List.length pre + 1 + List.length line + List.length ends ->
      read_previous_line stream
      = (line, mkBytesIO (buffer stream) (List.length pre + 1)))
  /\ (buffer stream = line ++ ends ++ after ->
      position stream = List.length line + List.length ends ->
      read_previous_line stream = (line, mkBytesIO (buffer stream) 1)).
Proof.
  intros Hline Hends Hne. split.
  - intros pre nl Hnl Hb Hp. unfold read_previous_line, tell. rewrite Hp.
    apply (@read_previous_line_loop_ends pre nl line Hnl Hline Hne ends stream
             after Hb Hends).
  - intros Hb Hp. unfold read_previous_line, tell. rewrite Hp.
    apply read_previous_line_loop_first_ends with (after := after);
      try assumption.
    intros E. apply app_eq_nil in E. destruct E as [E _]. contradiction.
Qed.

Lemma read_previous_line_line_witness :
  read_previous_line (mkBytesIO [x39; x0d; x0a; x41; x42; x0a; x43] 6)
  = ([x41; x42], mkBytesIO [x39; x0d; x0a; x41; x42; x0a; x43] 3).
Proof.
  apply (proj1 (@read_previous_line_line
                  (mkBytesIO [x39; x0d; x0a; x41; x42; x0a; x43] 6)
                  [x41; x42] [x0a] [x43]
                  ltac:(repeat constructor) ltac:(repeat constructor)
                  ltac:(discriminate))
               [x39; x0d] x0a eq_refl eq_refl eq_refl).
Defined.

(** *** Version *)

(** [self.components]: the value and the suffix of each part of a version
    string. *)
Definition components : Type := list (Z * string).

(** [a < b] for two [str]: by the code points, a proper prefix first. *)
Definition str_lt (a b : string) : bool := String.ltb a b.

(** The [for i in range(min_len)] loop of [Version.__lt__] and the [return]
    after it. *)
Fixpoint lt_loop (self other : components) (indexes : list nat) : result bool :=
  match indexes with
  | [] => Ok (List.length self <? List.length other)
  | i :: indexes' =>
    '(self_value, self_suffix) <- index self i ;;
    '(other_value, other_suffix) <- index other i ;;
    if (self_value <? other_value)%Z then Ok true
    else if (self_value >? other_value)%Z then Ok false
    else if str_lt self_suffix other_suffix then Ok true
    else if str_lt other_suffix self_suffix then Ok false
    else lt_loop self other indexes'
  end.

(** [Version.__lt__] and [Version.__eq__] for two versions. *)
Definition Version_lt (self other : components) : result bool :=
  lt_loop self other (seq 0 (Nat.min (List.length self) (List.length other))).

Fixpoint Version_eq (self other : components) : bool :=
  match self, other with
  | [], [] => true
  | (self_value, self_suffix) :: self', (other_value, other_suffix) :: other' =>
    (self_value =? other_value)%Z && String.eqb self_suffix other_suffix
    && Version_eq self' other'
  | _, _ => false
  end.

(** The order that the loop computes: the first part that differs decides,
    and a version that is a proper beginning of the other is the smaller. *)
Fixpoint lexicographic (a b : components) : bool :=
  match a, b with
  | (v, s) :: a', (w, t) :: b' =>
    if (v <? w)%Z then true
    else if (v >? w)%Z then false
    else if str_lt s t then true
    else if str_lt t s then false
    else lexicographic a' b'
  | [], _ :: _ => true
  | _, _ => false
  end.

(** *** Properties of the order of versions *)

Lemma lt_loop_lexicographic :
  forall (a b pa pb : components),
    List.length pa = List.length pb ->
    lt_loop (pa ++ a) (pb ++ b)
            (seq (List.length pa) (Nat.min (List.length a) (List.length b)))
    = Ok (lexicographic a b).
Proof.
  induction a as [|[v s] a IH]; intros b pa pb L.
  - cbn [List.length Nat.min seq lt_loop]. rewrite app_nil_r, length_app, L.
    destruct b as [|[w t] b]; cbn [lexicographic List.length].
    + now rewrite Nat.add_0_r, Nat.ltb_irrefl.
    + f_equal. apply Nat.ltb_lt. lia.
  - destruct b as [|[w t] b].
    + cbn [List.length Nat.min seq lt_loop lexicographic].
      rewrite app_nil_r, length_app, L. f_equal. apply Nat.ltb_ge.
      cbn [List.length]. lia.
    + cbn [List.length Nat.min seq lt_loop lexicographic].
      unfold index at 1. rewrite nth_error_app2, Nat.sub_diag by lia.
      cbn [nth_error bind].
      unfold index at 1. rewrite L at 1. rewrite nth_error_app2, Nat.sub_diag by lia.
      cbn [nth_error bind].
      destruct (v <? w)%Z; [reflexivity|]. destruct (v >? w)%Z; [reflexivity|].
      destruct (str_lt s t); [reflexivity|]. destruct (str_lt t s); [reflexivity|].
      change (pa ++ (v, s) :: a) with (pa ++ [(v, s)] ++ a).
      change (pb ++ (w, t) :: b) with (pb ++ [(w, t)] ++ b).
      rewrite !app_assoc.
      replace (S (List.length pa)) with (List.length (pa ++ [(v, s)]))
        by (rewrite length_app; cbn [List.length]; lia).
      apply IH. rewrite !length_app. cbn [List.length]. lia.
Qed.

Lemma Version_lt_lexicographic (a b : components) :
  Version_lt a b = Ok (lexicographic a b).
Proof. apply (@lt_loop_lexicographic a b [] [] eq_refl). Qed.

Lemma ascii_compare_eq (c d : ascii) : Ascii.compare c d = Eq <-> c = d.
Proof.
  split; [apply Ascii.compare_eq_iff|]. intros ->. unfold Ascii.compare.
  apply N.compare_refl.
Qed.

Lemma string_compare_refl (s : string) : String.compare s s = Eq.
Proof.
  induction s as [|c s IH]; cbn [String.compare]; [reflexivity|].
  now rewrite (proj2 (ascii_compare_eq c c) eq_refl).
Qed.

Lemma string_compare_lt_trans :
  forall s t u : string,
    String.compare s t = Lt -> String.compare t u = Lt -> String.compare s u = Lt.
Proof.
  induction s as [|c s IH]; intros [|d t] [|e u]; cbn [String.compare];
    try discriminate; try reflexivity.
  unfold Ascii.compare.
  destruct (N.compare_spec (N_of_ascii c) (N_of_ascii d)) as [E1|L1|G1];
    try discriminate;
    destruct (N.compare_spec (N_of_ascii d) (N_of_ascii e)) as [E2|L2|G2];
    try discriminate; intros A B.
  - rewrite E1, E2, N.compare_refl. now apply (IH t u).
  - rewrite E1. now apply N.compare_lt_iff in L2 as ->.
  - rewrite <- E2. now apply N.compare_lt_iff in L1 as ->.
  - assert (L : (N_of_ascii c < N_of_ascii e)%N) by lia.
    now apply N.compare_lt_iff in L as ->.
Qed.

Lemma str_lt_irrefl (s : string) : str_lt s s = false.
Proof. unfold str_lt, String.ltb. now rewrite string_compare_refl. Qed.

Lemma str_lt_asym (s t : string) : str_lt s t = true -> str_lt t s = false.
Proof.
  unfold str_lt, String.ltb. rewrite (String.compare_antisym t s).
  destruct (String.compare s t); cbn [CompOpp]; congruence.
Qed.

Lemma str_lt_total (s t : string) :
  str_lt s t = false -> str_lt t s = false -> s = t.
Proof.
  unfold str_lt, String.ltb. rewrite (String.compare_antisym t s).
  destruct (String.compare s t) eqn:E; cbn [CompOpp]; try discriminate.
  intros _ _. now apply String.compare_eq_iff.
Qed.

Lemma str_lt_trans (s t u : string) :
  str_lt s t = true -> str_lt t u = true -> str_lt s u = true.
Proof.
  unfold str_lt, String.ltb.
  destruct (String.compare s t) eqn:A; try discriminate.
  destruct (String.compare t u) eqn:B; try discriminate.
  now rewrite (string_compare_lt_trans _ _ _ A B).
Qed.

Lemma lexicographic_irrefl (a : components) : lexicographic a a = false.
Proof.
  induction a as [|[v s] a IH]; cbn [lexicographic]; [reflexivity|].
  rewrite Z.ltb_irrefl, Z.gtb_ltb, Z.ltb_irrefl, str_lt_irrefl. exact IH.
Qed.

Lemma lexicographic_total :
  forall a b : components,
    lexicographic a b = false -> lexicographic b a = false -> a = b.
Proof.
  induction a as [|[v s] a IH]; intros [|[w t] b]; cbn [lexicographic];
    try discriminate; [reflexivity|].
  rewrite !Z.gtb_ltb.
  destruct (Z.ltb_spec v w); [discriminate|].
  destruct (Z.ltb_spec w v); [discriminate|].
  destruct (str_lt s t) eqn:A; [discriminate|].
  destruct (str_lt t s) eqn:B; [discriminate|].
  intros X Y. rewrite (IH b X Y), (str_lt_total _ _ A B).
  now replace w with v by lia.
Qed.

Lemma lexicographic_trans :
  forall a b c : components,
    lexicographic a b = true -> lexicographic b c = true ->
    lexicographic a c = true.
Proof.
  induction a as [|[v s] a IH]; intros [|[w t] b] [|[x u] c];
    cbn [lexicographic]; try discriminate; try reflexivity.
  rewrite !Z.gtb_ltb.
  destruct (Z.ltb_spec v w) as [L1|L1].
  - intros _. destruct (Z.ltb_spec w x) as [L2|L2].
    + intros _. destruct (Z.ltb_spec v x); [reflexivity|lia].
    + destruct (Z.ltb_spec x w); [discriminate|].
      intros _. destruct (Z.ltb_spec v x); [reflexivity|lia].
  - destruct (Z.ltb_spec w v) as [G1|G1]; [discriminate|].
    assert (v = w) by lia. subst w.
    destruct (Z.ltb_spec v x) as [L2|L2]; [reflexivity|].
    destruct (Z.ltb_spec x v) as [G2|G2]; [discriminate|].
    destruct (str_lt s t) eqn:A.
    + intros _. destruct (str_lt t u) eqn:B.
      * intros _. now rewrite (str_lt_trans _ _ _ A B).
      * destruct (str_lt u t) eqn:B'; [discriminate|].
        rewrite <- (str_lt_total _ _ B B'). now rewrite A.
    + destruct (str_lt t s) eqn:A'; [discriminate|].
      rewrite (str_lt_total _ _ A A').
      destruct (str_lt t u); [reflexivity|].
      destruct (str_lt u t); [discriminate|]. apply IH.
Qed.

Lemma Version_eq_true (a b : components) : Version_eq a b = true <-> a = b.
Proof.
  revert b. induction a as [|[v s] a IH]; intros [|[w t] b]; cbn [Version_eq];
    try (split; [discriminate|discriminate]); [now split|].
  rewrite !andb_true_iff, Z.eqb_eq, String.eqb_eq, IH. split.
  - now intros [[-> ->] ->].
  - intros E. inversion E. now repeat split.
Qed.

(** (X29) [Version.__lt__] is a strict total order that fits
    [Version.__eq__], as [functools.total_ordering] needs it: the comparison
    of two versions never raises, of two versions exactly one is smaller
    unless they are equal, no version is smaller than itself, and the
    comparison is transitive.  A version whose parts are the first parts of
    a longer one is the smaller of the two. *)
Theorem Version_lt_strict_total_order (a b c : components) :
  (exists answer, Version_lt a b = Ok answer)
  /\ Version_lt a a = Ok false
  /\ (Version_lt a b = Ok true -> Version_lt b a = Ok false)
  /\ (Version_lt a b = Ok false -> Version_lt b a = Ok false ->
      Version_eq a b = true)
  /\ (Version_eq a b = true -> Version_lt a b = Ok false)
  /\ (Version_lt a b = Ok true -> Version_lt b c = Ok true ->
      Version_lt a c = Ok true)
  /\ (c <> [] -> Version_lt a (a ++ c) = Ok true).
Proof.
  rewrite !Version_lt_lexicographic.
  split; [now eexists|]. split; [now rewrite lexicographic_irrefl|].
  split; [|split; [|split; [|split]]].
  - intros E. inversion E as [E']. f_equal.
    destruct (lexicographic b a) eqn:B; [|reflexivity].
    pose proof (lexicographic_trans _ _ _ E' B) as T.
    now rewrite lexicographic_irrefl in T.
  - intros A B. inversion A as [A']. inversion B as [B'].
    apply Version_eq_true. now apply lexicographic_total.
  - intros E. apply Version_eq_true in E. subst b.
    now rewrite lexicographic_irrefl.
  - intros A B. inversion A as [A']. inversion B as [B'].
    now rewrite (lexicographic_trans _ _ _ A' B').
  - intros N. f_equal. clear b. induction a as [|[v s] a IH].
    + destruct c; [contradiction|reflexivity].
    + cbn [app lexicographic].
      now rewrite Z.ltb_irrefl, Z.gtb_ltb, Z.ltb_irrefl, str_lt_irrefl.
Qed.

Lemma Version_lt_strict_total_order_witness :
  Version_lt [(1%Z, EmptyString); (9%Z, "rc1"%string)]
             [(1%Z, EmptyString); (10%Z, EmptyString); (0%Z, EmptyString)]
  = Ok true.
Proof.
  apply (proj1 (proj2 (proj2 (proj2 (proj2 (proj2
           (@Version_lt_strict_total_order
              [(1%Z, EmptyString); (9%Z, "rc1"%string)]
              [(1%Z, EmptyString); (9%Z, "rc2"%string)]
              [(1%Z, EmptyString); (10%Z, EmptyString); (0%Z, EmptyString)])))))));
    reflexivity.
Defined.

End Utils.

(** ** pypdf/_reader.py *)

Module Reader.

Import Utils.

Definition startxref : list byte := list_byte_of_string "startxref".

Section FindStartxref.

(** Python's [int] on a [bytes] object: the number, or [ValueError]. *)
Variable int : list byte -> result Z.

(** [while b"startxref" not in line: line = read_previous_line(stream)].
    Nothing in the loop bounds the number of lines read. *)
Fixpoint startxref_loop (fuel : nat) (stream : BytesIO) (line : list byte)
  : result BytesIO :=
  if contains startxref line then Ok stream
  else
    match fuel with
    | O => OutOfFuel
    | S fuel' =>
      let '(line, stream) := read_previous_line stream in
      startxref_loop fuel' stream line
    end.

(** [PdfReader._find_startxref_pos]: the offset and the stream left behind. *)
Definition _find_startxref_pos (fuel : nat) (stream : BytesIO)
  : result (Z * BytesIO) :=
  let stream := seek_end stream 1024 in
  stream <- startxref_loop fuel stream [] ;;
  let '(line, stream) := read_previous_line stream in
  offset <- int line ;;
  Ok (offset, stream).

End FindStartxref.

(** [PdfReader._find_eof_marker] raises [PdfReadError("EOF marker not found")]
    when the marker is missing; [_find_startxref_pos] has no such exit. *)

(** A decimal reading of [int] for the examples. *)
Definition int_of_digits (line : list byte) : result Z :=
  match line with
  | [] => Raise ValueError
  | _ =>
    fold_left
      (fun acc b =>
         n <- acc ;;
         let d := Byte.to_nat b in
         if (48 <=? d) && (d <=? 57) then Ok (10 * n + Z.of_nat (d - 48))%Z
         else Raise ValueError)
      line (Ok 0%Z)
  end.

Definition no_startxref_file : BytesIO :=
  mkBytesIO
    (list_byte_of_string
       ("%PDF-1.4" ++ String "010" ("1 0 obj" ++ String "010" ("<< /Type /Catalog >>"
        ++ String "010" ("endobj" ++ String "010" ("trailer" ++ String "010"
        ("<< /Root 1 0 R >>" ++ String "010" ("%%EOF" ++ String "010" "")))))))%string)
    0.

Definition with_startxref_file : BytesIO :=
  mkBytesIO
    (list_byte_of_string
       ("%PDF-1.4" ++ String "010" ("9" ++ String "010" ("startxref" ++ String "010"
        (String.concat "" (repeat "%%EOF%%EOF%%EOF%" 64))))))%string
    0.

(** *** Properties of _find_startxref_pos *)

Section FindStartxrefFacts.

Variable int : list byte -> result Z.

Lemma startxref_loop_never_exits :
  forall (fuel : nat) (stream : BytesIO) (line : list byte),
    contains startxref (buffer stream) = false ->
    contains startxref line = false ->
    startxref_loop fuel stream line = OutOfFuel.
Proof.
  induction fuel as [|fuel IH]; intros stream line Hb Hl.
  - cbn [startxref_loop]. rewrite Hl. reflexivity.
  - cbn [startxref_loop]. rewrite Hl.
    destruct (read_previous_line_infix stream) as [B (pre & suf & X)].
    destruct (read_previous_line stream) as [line' stream'].
    cbn [fst snd] in *. apply IH.
    + rewrite B. exact Hb.
    + destruct (contains startxref line') eqn:C; [|reflexivity].
      rewrite X, (contains_infix _ pre _ suf C) in Hb. discriminate.
Qed.

(** C4 (the code departs from the claim).  On a stream whose bytes nowhere
    hold the keyword [startxref], [_find_startxref_pos] neither returns nor
    raises, however many lines it is allowed to read: its loop has no exit
    but finding the keyword. *)
Theorem find_startxref_pos_never_returns_without_keyword
        (stream : BytesIO) (fuel : nat) :
  contains startxref (buffer stream) = false ->
  _find_startxref_pos int fuel stream = OutOfFuel.
Proof.
  intros H. unfold _find_startxref_pos.
  rewrite startxref_loop_never_exits; [reflexivity|exact H|reflexivity].
Qed.

End FindStartxrefFacts.

Lemma find_startxref_pos_never_returns_without_keyword_witness :
  _find_startxref_pos int_of_digits 1000 no_startxref_file = OutOfFuel.
Proof.
  apply (@find_startxref_pos_never_returns_without_keyword
           int_of_digits no_startxref_file 1000).
  vm_compute. reflexivity.
Defined.

(** *** _find_eof_marker *)

(** [bytes.lower]: the ASCII letters A to Z are mapped to a to z. *)
Definition lower_byte (b : byte) : byte :=
  let n := Byte.to_nat b in
  if (65 <=? n) && (n <=? 90) then byte_of_Z (Z.of_nat (n + 32)) else b.

Definition bytes_lower (data : list byte) : list byte := map lower_byte data.

(** [hay.rfind(needle)]: the highest index at which [needle] starts, [None]
    for -1. *)
Fixpoint rfind (needle hay : list byte) : option nat :=
  match hay with
  | [] => if startswith needle [] then Some 0 else None
  | _ :: hay' =>
    match rfind needle hay' with
    | Some i => Some (S i)
    | None => if startswith needle hay then Some 0 else None
    end
  end.

(** [stream.read()]: everything from the position to the end. *)
Definition read_all (stream : BytesIO) : list byte * BytesIO :=
  let chunk := skipn (position stream) (buffer stream) in
  (chunk, mkBytesIO (buffer stream) (position stream + List.length chunk)).

Definition eof_marker : list byte := list_byte_of_string "%%eof".

(** [PdfReader.__init__] builds an [io.BytesIO] for a path and takes a file
    object as it is.  In the calls that the functions here make the two
    differ in one: [seek(-1024, 2)] on a stream of fewer than 1024 bytes
    puts an [io.BytesIO] at position 0 and raises [OSError] on a file
    object. *)
Inductive stream_kind : Type :=
| InMemory
| FileObject.

(** [stream.seek(-back, 2)] on a stream of either kind. *)
Definition seek_end_of (kind : stream_kind) (stream : BytesIO) (back : nat)
  : result BytesIO :=
  match kind with
  | InMemory => Ok (seek_end stream back)
  | FileObject =>
    if List.length (buffer stream) <? back then Raise OSError
    else Ok (seek_end stream back)
  end.

(** [PdfReader._find_eof_marker]: the stream it leaves, or the error. *)
Definition _find_eof_marker (kind : stream_kind) (stream : BytesIO)
  : result BytesIO :=
  stream <- seek_end_of kind stream 1024 ;;
  let '(end_, stream) := read_all stream in
  let end_ := bytes_lower end_ in
  match rfind eof_marker end_ with
  | None => Raise (PdfReadError "EOF marker not found")
  | Some idx => Ok (seek stream (tell stream - (List.length end_ - idx)))
  end.

Section FindStartxrefOf.

Variable int : list byte -> result Z.

(** [PdfReader._find_startxref_pos] on a stream of either kind. *)
Definition _find_startxref_pos_of (kind : stream_kind) (fuel : nat)
           (stream : BytesIO) : result (Z * BytesIO) :=
  stream <- seek_end_of kind stream 1024 ;;
  stream <- startxref_loop fuel stream [] ;;
  let '(line, stream) := read_previous_line stream in
  offset <- int line ;;
  Ok (offset, stream).

End FindStartxrefOf.

(** *** Properties of the search for the end of the file *)

Lemma rfind_none (needle hay : list byte) :
  rfind needle hay = None <-> contains needle hay = false.
Proof.
  induction hay as [|h hay IH]; cbn [rfind contains].
  - rewrite orb_false_r. destruct (startswith needle []); split; congruence.
  - destruct (rfind needle hay) as [i|].
    + split; [discriminate|]. intros H. apply orb_false_iff in H.
      destruct H as [_ H]. apply IH in H. discriminate.
    + assert (C : contains needle hay = false) by now apply IH.
      rewrite C, orb_false_r. destruct (startswith needle (h :: hay));
        split; congruence.
Qed.

Lemma rfind_some (needle hay : list byte) (i : nat) :
  needle <> [] ->
  rfind needle hay = Some i ->
  i <= List.length hay
  /\ startswith needle (skipn i hay) = true
  /\ forall j, i < j -> startswith needle (skipn j hay) = false.
Proof.
  intros Hn. revert i. induction hay as [|h hay IH]; intros i; cbn [rfind].
  - destruct needle; [contradiction|]. discriminate.
  - destruct (rfind needle hay) as [k|] eqn:E.
    + intros H. inversion H; subst i. destruct (IH k eq_refl) as (L & S1 & S2).
      cbn [List.length skipn]. split; [lia|]. split; [exact S1|].
      intros [|j] Hj; [lia|]. cbn [skipn]. apply S2. lia.
    + destruct (startswith needle (h :: hay)) eqn:S0; [|discriminate].
      intros H. inversion H; subst i. cbn [skipn List.length].
      split; [lia|]. split; [exact S0|].
      intros [|j] Hj; [lia|]. cbn [skipn].
      apply rfind_none in E.
      destruct (startswith needle (skipn j hay)) eqn:S1; [|reflexivity].
      assert (C : contains needle (skipn j hay) = true).
      { destruct (skipn j hay); cbn [contains]; now rewrite S1. }
      rewrite <- (firstn_skipn j hay) in E.
      now rewrite (contains_app_l _ (firstn j hay) _ C) in E.
Qed.

Lemma eof_marker_not_nil : eof_marker <> [].
Proof. discriminate. Qed.

(** (X16) [_find_eof_marker] looks at the last 1024 bytes of the stream
    only.  When they hold [%%EOF] in any mix of upper and lower case, the
    call returns with the stream at the start of the last such marker; when
    they do not, it raises [PdfReadError("EOF marker not found")].  This is
    so for an [io.BytesIO] of any length and for a file object of at least
    1024 bytes; on a shorter file object the [seek] raises [OSError]. *)
Theorem find_eof_marker_last_marker (kind : stream_kind) (stream : BytesIO) :
  let last_bytes :=
      bytes_lower (skipn (List.length (buffer stream) - 1024) (buffer stream)) in
  (kind = FileObject -> List.length (buffer stream) < 1024 ->
   _find_eof_marker kind stream = Raise OSError)
  /\ (kind = InMemory \/ 1024 <= List.length (buffer stream) ->
      (contains eof_marker last_bytes = false ->
       _find_eof_marker kind stream = Raise (PdfReadError "EOF marker not found"))
      /\ (contains eof_marker last_bytes = true ->
          exists pos,
            _find_eof_marker kind stream = Ok (mkBytesIO (buffer stream) pos)
            /\ List.length (buffer stream) - 1024 <= pos
            /\ startswith eof_marker (bytes_lower (skipn pos (buffer stream)))
               = true
            /\ forall q, pos < q ->
                         startswith eof_marker
                                    (bytes_lower (skipn q (buffer stream)))
                         = false)).
Proof.
  cbv zeta. split.
  - intros -> L. unfold _find_eof_marker, seek_end_of.
    destruct (Nat.ltb_spec (List.length (buffer stream)) 1024); [reflexivity|lia].
  - intros K.
    assert (S0 : seek_end_of kind stream 1024 = Ok (seek_end stream 1024)).
    { unfold seek_end_of. destruct kind; [reflexivity|].
      destruct K as [K|K]; [discriminate|].
      destruct (Nat.ltb_spec (List.length (buffer stream)) 1024); [lia|reflexivity]. }
    unfold _find_eof_marker. rewrite S0. cbn [bind].
    unfold seek_end, read_all, tell, seek. cbn [buffer position].
    set (start := List.length (buffer stream) - 1024).
    set (end_ := bytes_lower (skipn start (buffer stream))).
    assert (Hlen : List.length end_ = List.length (buffer stream) - start).
    { unfold end_, bytes_lower. now rewrite length_map, length_skipn. }
    split.
    + intros C. apply rfind_none in C. now rewrite C.
    + intros C. destruct (rfind eof_marker end_) as [idx|] eqn:E.
      * destruct (@rfind_some eof_marker end_ idx eof_marker_not_nil E)
          as (L & S1 & S2).
        exists (idx + start). rewrite length_skipn.
        replace (start + (List.length (buffer stream) - start)
                 - (List.length end_ - idx)) with (idx + start) by lia.
        split; [reflexivity|]. split; [lia|].
        assert (Sk : forall q, bytes_lower (skipn (q + start) (buffer stream))
                               = skipn q end_).
        { intros q. unfold end_, bytes_lower.
          now rewrite <- skipn_skipn, skipn_map. }
        split; [now rewrite Sk|].
        intros q Hq. replace q with ((q - start) + start) by lia.
        rewrite Sk. apply S2. lia.
      * apply rfind_none in E. congruence.
Qed.

(** *** _find_startxref_pos reads before the last 1024 bytes only *)

Lemma slice_firstn (A : Type) (xs : list A) (a b limit : nat) :
  b <= limit -> slice (firstn limit xs) a b = slice xs a b.
Proof.
  intros H. unfold slice.
  rewrite skipn_firstn_comm, firstn_firstn.
  now replace (Nat.min (b - a) (limit - a)) with (b - a) by lia.
Qed.

(** The loop of [read_previous_line] from [current_pos] never looks at the
    bytes from [current_pos] on. *)
Lemma read_previous_line_loop_truncate (limit : nat) :
  forall (current_pos : nat) (stream : BytesIO) (line : list byte),
    current_pos <= limit ->
    read_previous_line_loop stream current_pos line
    = (fst (read_previous_line_loop
              (mkBytesIO (firstn limit (buffer stream)) (position stream))
              current_pos line),
       mkBytesIO (buffer stream)
                 (position (snd (read_previous_line_loop
                                   (mkBytesIO (firstn limit (buffer stream))
                                              (position stream))
                                   current_pos line)))).
Proof.
  induction current_pos as [|cp IH]; intros stream line H.
  - cbn. now destruct stream.
  - cbn [read_previous_line_loop read seek buffer position].
    rewrite slice_firstn by lia.
    set (char := slice (buffer stream) cp (cp + 1)).
    destruct (is_cr_or_lf char).
    + destruct line as [|l0 line'].
      * rewrite (IH (mkBytesIO (buffer stream) (cp + List.length char)))
          by lia. reflexivity.
      * reflexivity.
    + rewrite (IH (mkBytesIO (buffer stream) (cp + List.length char))) by lia.
      reflexivity.
Qed.

Lemma read_previous_line_loop_position :
  forall (current_pos : nat) (stream : BytesIO) (line : list byte),
    position (snd (read_previous_line_loop stream current_pos line))
    <= Nat.max (position stream) current_pos.
Proof.
  induction current_pos as [|cp IH]; intros stream line.
  - cbn. lia.
  - cbn [read_previous_line_loop read seek buffer position].
    set (char := slice (buffer stream) cp (cp + 1)).
    assert (L : List.length char <= 1).
    { unfold char, slice. rewrite length_firstn. lia. }
    clearbody char.
    destruct (is_cr_or_lf char).
    + destruct line as [|l0 line'].
      * specialize (IH (mkBytesIO (buffer stream) (cp + List.length char)) []).
        cbn [position] in IH. eapply Nat.le_trans; [exact IH|]. lia.
      * cbn [snd seek position]. lia.
    + specialize (IH (mkBytesIO (buffer stream) (cp + List.length char))
                     (line ++ char)).
      cbn [position] in IH. eapply Nat.le_trans; [exact IH|]. lia.
Qed.

(** The line that [read_previous_line] returns lies before the position,
    and the stream does not move forward. *)
Lemma read_previous_line_before (stream : BytesIO) :
  buffer (snd (read_previous_line stream)) = buffer stream
  /\ position (snd (read_previous_line stream)) <= position stream
  /\ exists pre suf,
      firstn (position stream) (buffer stream)
      = pre ++ fst (read_previous_line stream) ++ suf.
Proof.
  split; [apply read_previous_line_infix|]. split.
  - unfold read_previous_line, tell.
    pose proof (read_previous_line_loop_position (position stream) stream []). lia.
  - unfold read_previous_line, tell.
    rewrite (@read_previous_line_loop_truncate (position stream) (position stream)
               stream [] (le_n _)).
    cbn [fst].
    apply (read_previous_line_infix
             (mkBytesIO (firstn (position stream) (buffer stream)) (position stream))).
Qed.

Section FindStartxrefReach.

Variable int : list byte -> result Z.

Lemma startxref_loop_before :
  forall (fuel : nat) (stream : BytesIO) (line : list byte),
    contains startxref (firstn (position stream) (buffer stream)) = false ->
    contains startxref line = false ->
    startxref_loop fuel stream line = OutOfFuel.
Proof.
  induction fuel as [|fuel IH]; intros stream line Hb Hl.
  - cbn [startxref_loop]. rewrite Hl. reflexivity.
  - cbn [startxref_loop]. rewrite Hl.
    destruct (read_previous_line_before stream) as (B & P & pre & suf & X).
    destruct (read_previous_line stream) as [line' stream'].
    cbn [fst snd] in *. apply IH.
    + rewrite B.
      destruct (contains startxref (firstn (position stream') (buffer stream)))
        eqn:C; [|reflexivity].
      replace (firstn (position stream) (buffer stream))
        with (firstn (position stream') (buffer stream)
              ++ firstn (position stream - position stream')
                        (skipn (position stream') (buffer stream))) in Hb.
      * now rewrite (contains_app_r _ _ _ C) in Hb.
      * rewrite <- firstn_add_skipn. f_equal. lia.
    + destruct (contains startxref line') eqn:C; [|reflexivity].
      rewrite X, (contains_infix _ pre _ suf C) in Hb. discriminate.
Qed.

(** (X17) [_find_startxref_pos] starts at [seek(-1024, 2)] and reads lines
    backwards from there, so the last 1024 bytes of the stream are never
    looked at.  On a stream of at least 1024 bytes, an [io.BytesIO] or a
    file object alike, the loop never ends unless [startxref] occurs before
    the last 1024 bytes.  On a shorter stream an [io.BytesIO] is put at
    position 0 and the loop never ends whatever the stream holds, while a
    file object raises [OSError] at the [seek]. *)
Theorem find_startxref_pos_skips_last_bytes
        (kind : stream_kind) (stream : BytesIO) (fuel : nat) :
  (kind = InMemory \/ 1024 <= List.length (buffer stream) ->
   contains startxref
            (firstn (List.length (buffer stream) - 1024) (buffer stream)) = false ->
   _find_startxref_pos_of int kind fuel stream = OutOfFuel)
  /\ (kind = InMemory -> List.length (buffer stream) <= 1024 ->
      _find_startxref_pos_of int kind fuel stream = OutOfFuel)
  /\ (kind = FileObject -> List.length (buffer stream) < 1024 ->
      _find_startxref_pos_of int kind fuel stream = Raise OSError)
  /\ _find_startxref_pos_of int InMemory fuel stream
     = _find_startxref_pos int fuel stream.
Proof.
  assert (G : kind = InMemory \/ 1024 <= List.length (buffer stream) ->
              contains startxref
                       (firstn (List.length (buffer stream) - 1024) (buffer stream))
              = false ->
              _find_startxref_pos_of int kind fuel stream = OutOfFuel).
  { intros K H.
    assert (S0 : seek_end_of kind stream 1024 = Ok (seek_end stream 1024)).
    { unfold seek_end_of. destruct kind; [reflexivity|].
      destruct K as [K|K]; [discriminate|].
      destruct (Nat.ltb_spec (List.length (buffer stream)) 1024); [lia|reflexivity]. }
    unfold _find_startxref_pos_of. rewrite S0. cbn [bind].
    rewrite startxref_loop_before; [reflexivity|exact H|reflexivity]. }
  split; [exact G|]. split; [|split].
  - intros K H. apply G; [now left|].
    replace (List.length (buffer stream) - 1024) with 0 by lia. reflexivity.
  - intros -> L. unfold _find_startxref_pos_of, seek_end_of.
    destruct (Nat.ltb_spec (List.length (buffer stream)) 1024); [reflexivity|lia].
  - reflexivity.
Qed.

End FindStartxrefReach.

Definition short_file : BytesIO :=
  mkBytesIO
    (list_byte_of_string
       ("%PDF-1.4" ++ String "010" ("startxref" ++ String "010"
        ("9" ++ String "010" ("%%EOF" ++ String "010" "")))))%string
    0.

(** A file of 1051 bytes with its [startxref] where it belongs, right
    before the end. *)
Definition startxref_at_end_file : BytesIO :=
  mkBytesIO
    (list_byte_of_string
       ("%PDF-1.4" ++ String "010"
        (String.concat "" (repeat ("% 1234567890123" ++ String "010" "") 64)
         ++ "startxref" ++ String "010" ("9" ++ String "010"
            ("%%EOF" ++ String "010" ""))))%string)
    0.

Lemma find_startxref_pos_skips_last_bytes_witness :
  _find_startxref_pos_of int_of_digits InMemory 100 short_file = OutOfFuel
  /\ _find_startxref_pos_of int_of_digits FileObject 100 short_file = Raise OSError
  /\ _find_startxref_pos_of int_of_digits FileObject 100 startxref_at_end_file
     = OutOfFuel.
Proof.
  split; [|split].
  - apply (proj1 (proj2 (@find_startxref_pos_skips_last_bytes
                           int_of_digits InMemory short_file 100)) eq_refl).
    apply Nat.leb_le. vm_compute. reflexivity.
  - apply (proj1 (proj2 (proj2 (@find_startxref_pos_skips_last_bytes
                                  int_of_digits FileObject short_file 100)))
                 eq_refl).
    apply Nat.ltb_lt. vm_compute. reflexivity.
  - apply (proj1 (@find_startxref_pos_skips_last_bytes
                    int_of_digits FileObject startxref_at_end_file 100)).
    + right. apply Nat.leb_le. vm_compute. reflexivity.
    + vm_compute. reflexivity.
Defined.

Lemma find_eof_marker_last_marker_witness :
  (exists pos,
      _find_eof_marker InMemory no_startxref_file
      = Ok (mkBytesIO (buffer no_startxref_file) pos)
      /\ List.length (buffer no_startxref_file) - 1024 <= pos
      /\ startswith eof_marker
                    (bytes_lower (skipn pos (buffer no_startxref_file))) = true
      /\ forall q, pos < q ->
                   startswith eof_marker
                              (bytes_lower (skipn q (buffer no_startxref_file)))
                   = false)
  /\ _find_eof_marker FileObject no_startxref_file = Raise OSError.
Proof.
  split.
  - apply (proj2 (proj2 (find_eof_marker_last_marker InMemory no_startxref_file)
                        (or_introl eq_refl))).
    vm_compute. reflexivity.
  - apply (proj1 (find_eof_marker_last_marker FileObject no_startxref_file)
                 eq_refl).
    apply Nat.ltb_lt. vm_compute. reflexivity.
Defined.

End Reader.

(** ** pypdf/_page_labels.py *)

Module PageLabels.

(** [str.upper] and [str.lower] on the letters the numerals use. *)
Definition upper_ascii (c : ascii) : ascii :=
  let n := nat_of_ascii c in
  if (97 <=? n) && (n <=? 122) then ascii_of_nat (n - 32) else c.

Definition lower_ascii (c : ascii) : ascii :=
  let n := nat_of_ascii c in
  if (65 <=? n) && (n <=? 90) then ascii_of_nat (n + 32) else c.

Fixpoint map_string (f : ascii -> ascii) (s : string) : string :=
  match s with
  | EmptyString => EmptyString
  | String c s' => String (f c) (map_string f s')
  end.

Definition upper : string -> string := map_string upper_ascii.
Definition lower : string -> string := map_string lower_ascii.

Definition roman_symbols : list (string * Z) :=
  [("M", 1000); ("CM", 900); ("D", 500); ("CD", 400); ("C", 100); ("XC", 90);
   ("L", 50); ("XL", 40); ("X", 10); ("IX", 9); ("V", 5); ("IV", 4); ("I", 1)]%string%Z.

(** [while num >= value: result += symbol; num -= value].  Every value of the
    table is at least 1, so [num] iterations are enough. *)
Fixpoint roman_while (fuel : nat) (symbol : string) (value num : Z) (result_ : string)
  : string * Z :=
  if (num >=? value)%Z then
    match fuel with
    | O => (result_, num)
    | S fuel' => roman_while fuel' symbol value (num - value) (result_ ++ symbol)
    end
  else (result_, num).

Definition to_roman (num : Z) : string :=
  fst (fold_left
         (fun '(result_, num) '(symbol, value) =>
            roman_while (Z.to_nat num) symbol value num result_)
         roman_symbols (EmptyString, num)).

(** [while num > 0: num, remainder = divmod(num - 1, 26); ...] *)
Fixpoint alpha_while (fuel : nat) (num : Z) (result_ : string) : string :=
  if (num >? 0)%Z then
    match fuel with
    | O => result_
    | S fuel' =>
      let remainder := ((num - 1) mod 26)%Z in
      alpha_while fuel' ((num - 1) / 26)
                  (String (ascii_of_nat (Z.to_nat (65 + remainder))) result_)
    end
  else result_.

Definition to_alpha (num : Z) : string := alpha_while (Z.to_nat num) num EmptyString.

(** [o > n] and [o >= n] for an [int] [n]: only a number is ordered with it. *)
Definition gt_int (o : PdfObject) (n : Z) : result bool :=
  match o with
  | NumberObject m => Ok (m >? n)%Z
  | _ => Raise TypeError
  end.

Definition ge_int (o : PdfObject) (n : Z) : result bool :=
  match o with
  | NumberObject m => Ok (m >=? n)%Z
  | _ => Raise TypeError
  end.

(** An operand of [+] and [-] with an [int]. *)
Definition as_int (o : PdfObject) : result Z :=
  match o with
  | NumberObject m => Ok m
  | _ => Raise TypeError
  end.

Section Index2Label.

(** Modelled from the spec: the reader ([PdfCommonDocProtocol], not among
    the sources) as its object table; [reader.get_object(o)] resolves [o]
    through it, "resolve(ref) dereferences an IndirectRef through the
    Document's object table". *)
Variable objects : nat -> option PdfObject.

(** Modelled from the spec: [str(o)] of an object that is neither a string
    nor a number (pypdf/generic/_base.py is not among the sources). *)
Variable repr : PdfObject -> string.

Definition reader_get_object (o : PdfObject) : result PdfObject :=
  get_object (DataStructures.resolve objects) o.

(** [f"{o}"] *)
Definition format (o : PdfObject) : string :=
  match o with
  | NameObject s | TextStringObject s => s
  | NumberObject n => str_of_Z n
  | _ => repr o
  end.

(** The [for i in range(0, len(nums), 2)] loop over the values [starts] of
    the range; the state is [(start_index, label_dict)]. *)
Fixpoint label_loop (nums : list PdfObject) (index : Z) (starts : list nat)
         (start_index : Z) (label_dict : option PdfObject)
  : result (Z * option PdfObject) :=
  match starts with
  | [] => Ok (start_index, label_dict)
  | i :: starts' =>
    k <- Py.index nums i ;;
    above <- gt_int k index ;;
    if above then Ok (start_index, label_dict)
    else
      start_index <- as_int k ;;
      v <- Py.index nums (i + 1) ;;
      label_dict <- reader_get_object v ;;
      label_loop nums index starts' start_index (Some label_dict)
  end.

(** The statements after the loop. *)
Definition render_label (index start_index : Z) (label_dict : option PdfObject)
  : result string :=
  match label_dict with
  | None => Ok (str_of_Z (index + 1))
  | Some (DictionaryObject label_dict) =>
    let style :=
        match dict_get label_dict "/S" with Some o => o | None => TextStringObject "D" end in
    let prefix :=
        match dict_get label_dict "/P" with Some o => o | None => TextStringObject "" end in
    let start :=
        match dict_get label_dict "/St" with Some o => o | None => NumberObject 1 end in
    start <- as_int start ;;
    let page_index := (index - start_index + start)%Z in
    if eq_str style "/D" then Ok (format prefix ++ str_of_Z page_index)%string
    else if eq_str style "/R" then Ok (format prefix ++ upper (to_roman page_index))%string
    else if eq_str style "/r" then Ok (format prefix ++ lower (to_roman page_index))%string
    else if eq_str style "/A" then Ok (format prefix ++ upper (to_alpha page_index))%string
    else if eq_str style "/a" then Ok (format prefix ++ lower (to_alpha page_index))%string
    else Ok (str_of_Z (index + 1))
  | Some _ => Raise AttributeError
  end.

(** [index2label(reader, index)] with the reader's [root_object]. *)
Definition index2label (root_object : list (string * PdfObject)) (index : Z)
  : result string :=
  match dict_get root_object "/PageLabels" with
  | None => Ok (str_of_Z (index + 1))
  | Some _ =>
    page_labels <- dict_getitem (DataStructures.resolve objects) root_object "/PageLabels" ;;
    match page_labels with
    | DictionaryObject page_labels =>
      nums <- dict_getitem (DataStructures.resolve objects) page_labels "/Nums" ;;
      match nums with
      | ArrayObject nums =>
        '(start_index, label_dict) <-
          label_loop nums index (range_step (List.length nums) 2) 0 None ;;
        render_label index start_index label_dict
      | DictionaryObject [] | NameObject EmptyString | TextStringObject EmptyString =>
        Ok (str_of_Z (index + 1))
      | DictionaryObject _ => Raise KeyError
      | _ => Raise TypeError
      end
    | _ => Raise TypeError
    end
  end.

End Index2Label.

(** [key in nums] and [nums.index(key)] for a [NumberObject] [key]. *)
Definition number_in (key : Z) (nums : list PdfObject) : bool :=
  existsb (fun o => eq_number o key) nums.

Fixpoint list_index (key : Z) (nums : list PdfObject) : nat :=
  match nums with
  | [] => 0
  | o :: nums' => if eq_number o key then 0 else S (list_index key nums')
  end.

(** The [while i < len(nums)] loop of [nums_clear_range]; [i] grows by two,
    so [S (length nums)] iterations are enough. *)
Fixpoint clear_loop (fuel : nat) (nums : list PdfObject) (page_index_to : Z) (i : nat)
  : result nat :=
  if i <? List.length nums then
    match fuel with
    | O => OutOfFuel
    | S fuel' =>
      k <- Py.index nums i ;;
      reached <- ge_int k page_index_to ;;
      if reached then Ok i else clear_loop fuel' nums page_index_to (i + 2)
    end
  else Ok i.

(** [nums_clear_range(key, page_index_to, nums)]: the array after the call.
    [first] is [start_index + 2]. *)
Definition nums_clear_range (key : Z) (page_index_to : Z) (nums : list PdfObject)
  : result (list PdfObject) :=
  let first := if number_in key nums then list_index key nums + 2 else 0 in
  i <- clear_loop (S (List.length nums)) nums page_index_to first ;;
  Ok (firstn first nums ++ skipn i nums).

(** A Nums array with the given (key, value) entries. *)
Fixpoint nums_of (entries : list (Z * PdfObject)) : list PdfObject :=
  match entries with
  | [] => []
  | (k, v) :: entries' => NumberObject k :: v :: nums_of entries'
  end.

(** The entries from the first one whose key is at least [bound] on. *)
Fixpoint from_key (bound : Z) (entries : list (Z * PdfObject)) : list (Z * PdfObject) :=
  match entries with
  | [] => []
  | (k, v) :: entries' =>
    if (k >=? bound)%Z then entries else from_key bound entries'
  end.

(** What the loop of [index2label] has selected after the entries [entries],
    read from the state [(start_index, label_dict)]. *)
Fixpoint selected (objects : nat -> option PdfObject) (index : Z)
         (entries : list (Z * PdfObject)) (start_index : Z)
         (label_dict : option PdfObject) : result (Z * option PdfObject) :=
  match entries with
  | [] => Ok (start_index, label_dict)
  | (k, v) :: entries' =>
    if (k >? index)%Z then Ok (start_index, label_dict)
    else
      label_dict <- reader_get_object objects v ;;
      selected objects index entries' k (Some label_dict)
  end.

Definition no_repr (o : PdfObject) : string := EmptyString.

Definition roman_then_decimal : list PdfObject :=
  [NumberObject 0; DictionaryObject [("/S"%string, NameObject "/r")];
   NumberObject 4; DictionaryObject [("/S"%string, NameObject "/D")]].

Definition example_root : list (string * PdfObject) :=
  [("/Type"%string, NameObject "/Catalog");
   ("/PageLabels"%string,
    DictionaryObject [("/Nums"%string, ArrayObject roman_then_decimal)])].

(** The same number tree with its label dictionaries behind references, as
    in Example 1 of the module's docstring. *)
Definition example_objects (idnum : nat) : option PdfObject :=
  match idnum with
  | 18 => Some (DictionaryObject [("/S"%string, NameObject "/r")])
  | 19 => Some (DictionaryObject [("/S"%string, NameObject "/D")])
  | _ => None
  end.

Definition example_root_indirect : list (string * PdfObject) :=
  [("/PageLabels"%string,
    DictionaryObject
      [("/Nums"%string,
        ArrayObject [NumberObject 0; IndirectObject 18;
                     NumberObject 4; IndirectObject 19])])].

(** *** Properties of the number tree functions *)

Lemma nums_of_length (entries : list (Z * PdfObject)) :
  List.length (nums_of entries) = 2 * List.length entries.
Proof.
  induction entries as [|[k v] entries IH]; [reflexivity|].
  cbn [nums_of List.length]. rewrite IH. lia.
Qed.

Lemma range_step_pairs (m : nat) :
  range_step (2 * m) 2 = map (fun k => k * 2) (seq 0 m).
Proof.
  unfold range_step. replace (2 * m + 2 - 1) with (1 + m * 2) by lia.
  rewrite Nat.div_add by lia. reflexivity.
Qed.

Lemma index_app_at (A : Type) (pre suf : list A) (i : nat) :
  index (pre ++ suf) (List.length pre + i) = index suf i.
Proof.
  unfold index. rewrite nth_error_app2 by lia.
  replace (List.length pre + i - List.length pre) with i by lia. reflexivity.
Qed.

Section Index2LabelFacts.

Variable objects : nat -> option PdfObject.
Variable repr : PdfObject -> string.

Lemma label_loop_selected (index : Z) :
  forall (entries : list (Z * PdfObject)) (pre : list PdfObject) (a : nat)
         (start_index : Z) (label_dict : option PdfObject),
    List.length pre = a * 2 ->
    label_loop objects (pre ++ nums_of entries) index
               (map (fun k => k * 2) (seq a (List.length entries)))
               start_index label_dict
    = selected objects index entries start_index label_dict.
Proof.
  induction entries as [|[k v] entries IH]; intros pre a si ld Hpre;
    [reflexivity|].
  cbn [List.length seq map label_loop nums_of selected].
  replace (a * 2) with (List.length pre + 0) by lia.
  rewrite index_app_at. cbn [Py.index nth_error bind gt_int].
  destruct (k >? index)%Z; [reflexivity|].
  cbn [as_int bind].
  replace (List.length pre + 0 + 1) with (List.length pre + 1) by lia.
  rewrite index_app_at. cbn [Py.index nth_error bind].
  destruct (reader_get_object objects v) as [o| |]; cbn [bind]; try reflexivity.
  change (pre ++ NumberObject k :: v :: nums_of entries)
    with (pre ++ [NumberObject k; v] ++ nums_of entries).
  rewrite app_assoc. apply IH. rewrite length_app. cbn [List.length]. lia.
Qed.

(** What "the entry with the greatest key not above the index" means for the
    state [(start_index, label_dict)] the loop ends in. *)
Definition greatest_key_at_most (index : Z) (entries : list (Z * PdfObject))
           (start_index : Z) (label_dict : option PdfObject) : Prop :=
  (label_dict = None /\ start_index = 0%Z
   /\ forall k v, In (k, v) entries -> (index < k)%Z)
  \/ (exists v o,
         In (start_index, v) entries
         /\ reader_get_object objects v = Ok o
         /\ label_dict = Some o
         /\ (start_index <= index)%Z
         /\ forall k v', In (k, v') entries -> (k <= index)%Z -> (k <= start_index)%Z).

Lemma selected_greatest (index : Z) :
  forall (entries : list (Z * PdfObject)) (start_index : Z)
         (label_dict : option PdfObject),
    StronglySorted Z.lt (map fst entries) ->
    (forall k v, In (k, v) entries -> exists o, reader_get_object objects v = Ok o) ->
    exists si ld,
      selected objects index entries start_index label_dict = Ok (si, ld)
      /\ ((si = start_index /\ ld = label_dict
           /\ forall k v, In (k, v) entries -> (index < k)%Z)
          \/ (exists v o,
                In (si, v) entries
                /\ reader_get_object objects v = Ok o
                /\ ld = Some o
                /\ (si <= index)%Z
                /\ forall k v', In (k, v') entries -> (k <= index)%Z -> (k <= si)%Z)).
Proof.
  induction entries as [|[k v] entries IH]; intros si0 ld0 Hs Hr.
  - exists si0, ld0. split; [reflexivity|]. left. repeat split. intros k v [].
  - cbn [map fst] in Hs. apply StronglySorted_inv in Hs. destruct Hs as [Hs Hk].
    rewrite Forall_forall in Hk.
    assert (Hlater : forall k' v', In (k', v') entries -> (k < k')%Z).
    { intros k' v' Hin. apply Hk. change k' with (fst (k', v')). now apply in_map. }
    cbn [selected]. destruct (Z.gtb_spec k index) as [Hgt|Hle].
    + exists si0, ld0. split; [reflexivity|]. left. repeat split.
      intros k' v' [E|Hin]; [inversion E; subst; lia|].
      specialize (Hlater _ _ Hin). lia.
    + destruct (Hr k v (or_introl eq_refl)) as [o Ho]. rewrite Ho. cbn [bind].
      destruct (IH k (Some o) Hs) as (si & ld & E & [(E1 & E2 & Hall)|(v' & o' & Hin & Ho' & E2 & Hle' & Hmax)]).
      * intros k' v' Hin. apply (Hr k' v'). now right.
      * exists si, ld. split; [exact E|]. right. subst si ld.
        exists v, o. repeat split; try assumption; [now left|].
        intros k' v' [E'|Hin] Hk'; [inversion E'; subst; lia|].
        specialize (Hall _ _ Hin). lia.
      * exists si, ld. split; [exact E|]. right.
        exists v', o'. repeat split; try assumption; [now right|].
        intros k' w [E'|Hin'] Hk'.
        -- inversion E'; subst. specialize (Hlater _ _ Hin). lia.
        -- now apply (Hmax k' w).
Qed.

Lemma index2label_greatest_key
      (root_object page_labels : list (string * PdfObject))
        (entries : list (Z * PdfObject)) (index : Z) :
  dict_getitem (DataStructures.resolve objects) root_object "/PageLabels"
  = Ok (DictionaryObject page_labels) ->
  dict_getitem (DataStructures.resolve objects) page_labels "/Nums"
  = Ok (ArrayObject (nums_of entries)) ->
  StronglySorted Z.lt (map fst entries) ->
  (forall k v, In (k, v) entries -> exists o, reader_get_object objects v = Ok o) ->
  exists start_index label_dict,
    greatest_key_at_most index entries start_index label_dict
    /\ index2label objects repr root_object index
       = render_label repr index start_index label_dict.
Proof.
  intros Hpl Hnums Hs Hr.
  destruct (selected_greatest index entries 0%Z None Hs Hr)
    as (si & ld & E & Hsel).
  exists si, ld. split.
  - destruct Hsel as [(E1 & E2 & Hall)|Hsel]; [left|right]; auto.
  - unfold index2label.
    assert (G : dict_get root_object "/PageLabels" <> None).
    { intros N. unfold dict_getitem in Hpl. rewrite N in Hpl. discriminate. }
    destruct (dict_get root_object "/PageLabels") as [raw|] eqn:Eraw; [|now elim G].
    rewrite Hpl. cbn [bind]. rewrite Hnums. cbn [bind].
    rewrite nums_of_length, range_step_pairs.
    pose proof (label_loop_selected index entries [] 0 0%Z None eq_refl) as L.
    cbn [app] in L. rewrite L, E. reflexivity.
Qed.

End Index2LabelFacts.

Definition roman_then_decimal_entries : list (Z * PdfObject) :=
  [(0%Z, DictionaryObject [("/S"%string, NameObject "/r")]);
   (4%Z, DictionaryObject [("/S"%string, NameObject "/D")])].

Lemma clear_loop_from_key (bound : Z) :
  forall (entries : list (Z * PdfObject)) (pre : list PdfObject) (fuel : nat),
    List.length (nums_of entries) < fuel ->
    exists i,
      clear_loop fuel (pre ++ nums_of entries) bound (List.length pre) = Ok i
      /\ skipn i (pre ++ nums_of entries) = nums_of (from_key bound entries).
Proof.
  induction entries as [|[k v] entries IH]; intros pre fuel Hf.
  - exists (List.length pre). cbn [nums_of from_key]. rewrite app_nil_r. split.
    + destruct fuel; cbn [clear_loop]; rewrite Nat.ltb_irrefl; reflexivity.
    + apply skipn_all.
  - destruct fuel as [|fuel]; [lia|]. cbn [nums_of List.length] in Hf.
    cbn [clear_loop nums_of from_key].
    destruct (Nat.ltb_spec (List.length pre)
                           (List.length (pre ++ NumberObject k :: v :: nums_of entries)))
      as [_|E]; [|rewrite length_app in E; cbn [List.length] in E; lia].
    pose proof (index_app_at pre (NumberObject k :: v :: nums_of entries) 0) as X.
    rewrite Nat.add_0_r in X. rewrite X. clear X. cbn [Py.index nth_error].
    cbn [bind ge_int]. destruct (k >=? bound)%Z.
    + exists (List.length pre). split; [reflexivity|].
      rewrite skipn_app, skipn_all, Nat.sub_diag. reflexivity.
    + change (pre ++ NumberObject k :: v :: nums_of entries)
        with (pre ++ [NumberObject k; v] ++ nums_of entries).
      rewrite app_assoc.
      replace (List.length pre + 2) with (List.length (pre ++ [NumberObject k; v]))
        by (rewrite length_app; reflexivity).
      apply IH. lia.
Qed.

Lemma from_key_split (bound : Z) (entries : list (Z * PdfObject)) :
  exists removed,
    entries = removed ++ from_key bound entries
    /\ Forall (fun kv => (fst kv < bound)%Z) removed
    /\ match from_key bound entries with
       | [] => True
       | (k, _) :: _ => (bound <= k)%Z
       end.
Proof.
  induction entries as [|[k v] entries (removed & E & Hlt & Hhd)].
  - exists []. repeat split. constructor.
  - cbn [from_key]. destruct (Z.geb_spec k bound) as [Hge|Hlt'].
    + exists []. repeat split; [constructor|exact Hge].
    + exists ((k, v) :: removed). repeat split.
      * cbn [app]. now f_equal.
      * constructor; [exact Hlt'|exact Hlt].
      * exact Hhd.
Qed.

(** C10. When the key does not occur in the Nums array, [nums_clear_range]
    leaves the array from its first entry whose key is at least
    [page_index_to] on: the entries it deletes are the ones before that
    entry, all with smaller keys, and the call does not raise. *)
Theorem nums_clear_range_absent_key
        (key page_index_to : Z) (entries : list (Z * PdfObject)) :
  number_in key (nums_of entries) = false ->
  nums_clear_range key page_index_to (nums_of entries)
  = Ok (nums_of (from_key page_index_to entries))
  /\ exists removed,
      entries = removed ++ from_key page_index_to entries
      /\ Forall (fun kv => (fst kv < page_index_to)%Z) removed
      /\ match from_key page_index_to entries with
         | [] => True
         | (k, _) :: _ => (page_index_to <= k)%Z
         end.
Proof.
  intros Habsent. split; [|apply from_key_split].
  unfold nums_clear_range. rewrite Habsent.
  destruct (@clear_loop_from_key page_index_to entries []
                                 (S (List.length (nums_of entries))))
    as (i & E & Hskip); [lia|].
  cbn [app List.length] in E, Hskip. rewrite E. cbn [bind firstn app].
  now rewrite Hskip.
Qed.

Lemma nums_clear_range_absent_key_witness :
  nums_clear_range 7 5 (nums_of roman_then_decimal_entries)
  = Ok (nums_of (from_key 5 roman_then_decimal_entries))
  /\ exists removed,
      roman_then_decimal_entries = removed ++ from_key 5 roman_then_decimal_entries
      /\ Forall (fun kv => (fst kv < 5)%Z) removed
      /\ match from_key 5 roman_then_decimal_entries with
         | [] => True
         | (k, _) :: _ => (5 <= k)%Z
         end.
Proof.
  apply (@nums_clear_range_absent_key 7 5 roman_then_decimal_entries).
  reflexivity.
Defined.

(** *** nums_insert and nums_next *)

(** The [for i in range(0, len(nums), 2)] loop of [nums_insert] and the
    [extend] after it: the array after the call.  [nums.insert(i, value)]
    followed by [nums.insert(i, key)] puts the pair before the item at [i]. *)
Fixpoint insert_loop (nums : list PdfObject) (key : Z) (value : PdfObject)
         (starts : list nat) : result (list PdfObject) :=
  match starts with
  | [] => Ok (nums ++ [NumberObject key; value])
  | i :: starts' =>
    k <- Py.index nums i ;;
    above <- gt_int k key ;;
    if above then Ok (firstn i nums ++ NumberObject key :: value :: skipn i nums)
    else insert_loop nums key value starts'
  end.

Definition nums_insert (key : Z) (value : PdfObject) (nums : list PdfObject)
  : result (list PdfObject) :=
  insert_loop nums key value (range_step (List.length nums) 2).

(** The loop of [nums_next]; [None] stands for the pair [(None, None)]. *)
Fixpoint next_loop (nums : list PdfObject) (key : Z) (starts : list nat)
  : result (option (PdfObject * PdfObject)) :=
  match starts with
  | [] => Ok None
  | i :: starts' =>
    k <- Py.index nums i ;;
    above <- gt_int k key ;;
    if above then
      k <- Py.index nums i ;;
      v <- Py.index nums (i + 1) ;;
      Ok (Some (k, v))
    else next_loop nums key starts'
  end.

Definition nums_next (key : Z) (nums : list PdfObject)
  : result (option (PdfObject * PdfObject)) :=
  next_loop nums key (range_step (List.length nums) 2).

(** The entries of a Nums array with one more entry, put before the first
    entry whose key is greater than its key. *)
Fixpoint insert_entry (key : Z) (value : PdfObject) (entries : list (Z * PdfObject))
  : list (Z * PdfObject) :=
  match entries with
  | [] => [(key, value)]
  | (k, v) :: entries' =>
    if (k >? key)%Z then (key, value) :: entries
    else (k, v) :: insert_entry key value entries'
  end.

(** *** Properties of nums_insert, nums_next and nums_clear_range *)

Lemma insert_loop_entries (key : Z) (value : PdfObject) :
  forall (entries : list (Z * PdfObject)) (pre : list PdfObject) (a : nat),
    List.length pre = a * 2 ->
    insert_loop (pre ++ nums_of entries) key value
                (map (fun k => k * 2) (seq a (List.length entries)))
    = Ok (pre ++ nums_of (insert_entry key value entries)).
Proof.
  induction entries as [|[k v] entries IH]; intros pre a Hpre.
  - cbn [List.length seq map insert_loop nums_of insert_entry].
    now rewrite app_nil_r.
  - cbn [List.length seq map insert_loop nums_of insert_entry].
    replace (a * 2) with (List.length pre + 0) by lia.
    rewrite index_app_at. cbn [Py.index nth_error bind gt_int].
    destruct (k >? key)%Z.
    + rewrite Nat.add_0_r, firstn_app, firstn_all, Nat.sub_diag.
      rewrite skipn_app, skipn_all, Nat.sub_diag. cbn [firstn skipn app nums_of].
      now rewrite app_nil_r.
    + change (pre ++ NumberObject k :: v :: nums_of entries)
        with (pre ++ [NumberObject k; v] ++ nums_of entries).
      rewrite app_assoc, (IH _ (S a)).
      * rewrite <- app_assoc. reflexivity.
      * rewrite length_app. cbn [List.length]. lia.
Qed.

Lemma nums_insert_entries (key : Z) (value : PdfObject)
      (entries : list (Z * PdfObject)) :
  nums_insert key value (nums_of entries)
  = Ok (nums_of (insert_entry key value entries)).
Proof.
  unfold nums_insert. rewrite nums_of_length, range_step_pairs.
  apply (@insert_loop_entries key value entries [] 0 eq_refl).
Qed.

Lemma insert_entry_sorted (key : Z) (value : PdfObject) :
  forall entries : list (Z * PdfObject),
    StronglySorted Z.lt (map fst entries) ->
    ~ In key (map fst entries) ->
    StronglySorted Z.lt (map fst (insert_entry key value entries)).
Proof.
  induction entries as [|[k v] entries IH]; intros Hs Hn.
  - cbn. repeat constructor.
  - cbn [insert_entry]. cbn [map fst] in Hs, Hn.
    pose proof (StronglySorted_inv Hs) as [Hs' Hk].
    destruct (Z.gtb_spec k key) as [Hgt|Hle].
    + cbn [map fst]. constructor; [exact Hs|].
      constructor; [lia|]. eapply Forall_impl; [|exact Hk]. cbn. lia.
    + cbn [map fst]. constructor.
      * apply IH; [exact Hs'|]. intros Hin. apply Hn. now right.
      * assert (Hlt : (k < key)%Z).
        { destruct (Z.eq_dec k key) as [E|E]; [|lia]. elim Hn. now left. }
        clear IH Hs Hs' Hn. induction entries as [|[k' v'] entries IH'].
        -- cbn. repeat constructor. exact Hlt.
        -- cbn [insert_entry]. cbn [map fst] in Hk.
           apply Forall_cons_iff in Hk. destruct Hk as [Hk1 Hk2].
           destruct (k' >? key)%Z; cbn [map fst].
           ++ repeat constructor; assumption.
           ++ constructor; [exact Hk1|now apply IH'].
Qed.

Lemma selected_after_insert (objects : nat -> option PdfObject)
      (key : Z) (value o : PdfObject) :
  reader_get_object objects value = Ok o ->
  forall (entries : list (Z * PdfObject)) (start_index : Z)
         (label_dict : option PdfObject),
    (forall k v, In (k, v) entries ->
                 exists o', reader_get_object objects v = Ok o') ->
    selected objects key (insert_entry key value entries) start_index label_dict
    = Ok (key, Some o).
Proof.
  intros Hv. induction entries as [|[k v] entries IH]; intros si ld Hr.
  - cbn [insert_entry selected]. rewrite Z.gtb_ltb, Z.ltb_irrefl, Hv. reflexivity.
  - cbn [insert_entry]. destruct (Z.gtb_spec k key) as [Hgt|Hle].
    + cbn [selected]. rewrite Z.gtb_ltb, Z.ltb_irrefl, Hv. cbn [bind].
      destruct (Z.gtb_spec k key) as [_|E]; [reflexivity|lia].
    + cbn [selected]. destruct (Z.gtb_spec k key) as [E|_]; [lia|].
      destruct (Hr k v (or_introl eq_refl)) as [o' ->]. cbn [bind].
      apply IH. intros k' v' Hin. apply (Hr k' v'). now right.
Qed.

Lemma insert_entry_split (key : Z) (value : PdfObject) :
  forall entries : list (Z * PdfObject),
    exists before after,
      entries = before ++ after
      /\ insert_entry key value entries = before ++ (key, value) :: after
      /\ Forall (fun entry => (fst entry <= key)%Z) before
      /\ match after with
         | [] => True
         | (k, _) :: _ => (key < k)%Z
         end.
Proof.
  induction entries as [|[k v] entries (before & after & E & I & B & A)].
  - exists [], []. repeat split. constructor.
  - cbn [insert_entry]. destruct (Z.gtb_spec k key) as [Hgt|Hle].
    + exists [], ((k, v) :: entries). repeat split; [constructor|exact Hgt].
    + exists ((k, v) :: before), after. cbn [app]. split; [now rewrite E|].
      split; [now rewrite I|]. split; [|exact A].
      constructor; [exact Hle|exact B].
Qed.

(** (X18) [nums_insert] puts the pair before the first entry with a greater
    key, and after the last entry when there is none: the array after the
    call is the old one with the pair between the entries [before], whose
    keys are at most [key], and the entries [after], the first of which has
    a greater key.  A Nums array with ascending keys stays one when the key
    is new, and the page-label lookup of [index2label] for the page index
    [key] then selects the value that was inserted. *)
Theorem nums_insert_then_lookup
        (objects : nat -> option PdfObject) (key : Z) (value o : PdfObject)
        (entries : list (Z * PdfObject)) :
  (exists before after,
      entries = before ++ after
      /\ nums_insert key value (nums_of entries)
         = Ok (nums_of (before ++ (key, value) :: after))
      /\ Forall (fun entry => (fst entry <= key)%Z) before
      /\ match after with
         | [] => True
         | (k, _) :: _ => (key < k)%Z
         end
      /\ (StronglySorted Z.lt (map fst entries) -> ~ In key (map fst entries) ->
          StronglySorted Z.lt (map fst (before ++ (key, value) :: after)))
      /\ (reader_get_object objects value = Ok o ->
          (forall k v, In (k, v) entries ->
                       exists o', reader_get_object objects v = Ok o') ->
          label_loop objects (nums_of (before ++ (key, value) :: after)) key
                     (range_step
                        (List.length (nums_of (before ++ (key, value) :: after))) 2)
                     0 None
          = Ok (key, Some o))).
Proof.
  destruct (insert_entry_split key value entries) as (before & after & E & I & B & A).
  exists before, after. rewrite <- I.
  split; [exact E|]. split; [apply nums_insert_entries|].
  split; [exact B|]. split; [exact A|]. split.
  - apply insert_entry_sorted.
  - intros Hv Hr. rewrite nums_of_length, range_step_pairs.
    pose proof (@label_loop_selected objects key (insert_entry key value entries)
                  [] 0 0%Z None eq_refl) as L.
    cbn [app] in L. rewrite L. now apply selected_after_insert.
Qed.

Lemma nums_insert_then_lookup_witness :
  exists before after,
    roman_then_decimal_entries = before ++ after
    /\ nums_insert 2 (DictionaryObject [("/S"%string, NameObject "/A")])
                   (nums_of roman_then_decimal_entries)
       = Ok (nums_of
               (before
                ++ (2%Z, DictionaryObject [("/S"%string, NameObject "/A")])
                   :: after))
    /\ Forall (fun entry => (fst entry <= 2)%Z) before
    /\ match after with
       | [] => True
       | (k, _) :: _ => (2 < k)%Z
       end
    /\ (StronglySorted Z.lt (map fst roman_then_decimal_entries) ->
        ~ In 2%Z (map fst roman_then_decimal_entries) ->
        StronglySorted
          Z.lt
          (map fst
               (before
                ++ (2%Z, DictionaryObject [("/S"%string, NameObject "/A")])
                   :: after)))
    /\ (reader_get_object (fun _ => None)
                          (DictionaryObject [("/S"%string, NameObject "/A")])
        = Ok (DictionaryObject [("/S"%string, NameObject "/A")]) ->
        (forall k v, In (k, v) roman_then_decimal_entries ->
                     exists o', reader_get_object (fun _ => None) v = Ok o') ->
        label_loop
          (fun _ => None)
          (nums_of
             (before
              ++ (2%Z, DictionaryObject [("/S"%string, NameObject "/A")])
                 :: after))
          2
          (range_step
             (List.length
                (nums_of
                   (before
                    ++ (2%Z, DictionaryObject [("/S"%string, NameObject "/A")])
                       :: after))) 2)
          0 None
        = Ok (2%Z, Some (DictionaryObject [("/S"%string, NameObject "/A")]))).
Proof.
  apply (@nums_insert_then_lookup (fun _ => None) 2
           (DictionaryObject [("/S"%string, NameObject "/A")])
           (DictionaryObject [("/S"%string, NameObject "/A")])
           roman_then_decimal_entries).
Defined.

Definition key_above (key : Z) (entry : Z * PdfObject) : bool :=
  (fst entry >? key)%Z.

Lemma next_loop_entries (key : Z) :
  forall (entries : list (Z * PdfObject)) (pre : list PdfObject) (a : nat),
    List.length pre = a * 2 ->
    next_loop (pre ++ nums_of entries) key
              (map (fun k => k * 2) (seq a (List.length entries)))
    = Ok (option_map (fun entry => (NumberObject (fst entry), snd entry))
                     (find (key_above key) entries)).
Proof.
  induction entries as [|[k v] entries IH]; intros pre a Hpre; [reflexivity|].
  cbn [List.length seq map next_loop nums_of find key_above fst snd].
  replace (a * 2) with (List.length pre + 0) by lia.
  rewrite index_app_at. cbn [Py.index nth_error bind gt_int].
  change (key_above key (k, v)) with (k >? key)%Z.
  destruct (k >? key)%Z.
  - replace (List.length pre + 0 + 1) with (List.length pre + 1) by lia.
    rewrite index_app_at. reflexivity.
  - change (pre ++ NumberObject k :: v :: nums_of entries)
      with (pre ++ [NumberObject k; v] ++ nums_of entries).
    rewrite app_assoc. apply (IH _ (S a)).
    rewrite length_app. cbn [List.length]. lia.
Qed.

(** (X19) [nums_next] returns the first entry of the array whose key is
    greater than [key], and [(None, None)] when there is none; in an array
    with ascending keys that entry is the one with the least key above
    [key]. *)
Theorem nums_next_least_key_above (key : Z) (entries : list (Z * PdfObject)) :
  nums_next key (nums_of entries)
  = Ok (option_map (fun entry => (NumberObject (fst entry), snd entry))
                   (find (key_above key) entries))
  /\ (find (key_above key) entries = None <->
      forall k v, In (k, v) entries -> (k <= key)%Z)
  /\ (StronglySorted Z.lt (map fst entries) ->
      forall k v, find (key_above key) entries = Some (k, v) ->
                  In (k, v) entries /\ (key < k)%Z
                  /\ forall k' v', In (k', v') entries -> (key < k')%Z -> (k <= k')%Z).
Proof.
  split; [|split].
  - unfold nums_next. rewrite nums_of_length, range_step_pairs.
    apply (@next_loop_entries key entries [] 0 eq_refl).
  - split.
    + intros H k v Hin. pose proof (find_none _ _ H _ Hin) as N.
      unfold key_above in N. cbn [fst] in N.
      destruct (Z.gtb_spec k key); [discriminate|lia].
    + intros H. induction entries as [|[k v] entries IH]; [reflexivity|].
      cbn [find]. change (key_above key (k, v)) with (k >? key)%Z.
      destruct (Z.gtb_spec k key) as [G|_].
      * specialize (H k v (or_introl eq_refl)). lia.
      * apply IH. intros k' v' Hin. apply (H k' v'). now right.
  - induction entries as [|[k0 v0] entries IH]; intros Hs k v; [discriminate|].
    cbn [map fst] in Hs. pose proof (StronglySorted_inv Hs) as [Hs' Hk].
    rewrite Forall_forall in Hk.
    cbn [find]. change (key_above key (k0, v0)) with (k0 >? key)%Z.
    destruct (Z.gtb_spec k0 key) as [G|G].
    + intros E. inversion E; subst k0 v0. split; [now left|]. split; [lia|].
      intros k' v' [E'|Hin] _; [inversion E'; lia|].
      assert (k < k')%Z; [|lia]. apply Hk.
      change k' with (fst (k', v')). now apply in_map.
    + intros E. destruct (IH Hs' k v E) as (Hin & Hgt & Hmin).
      split; [now right|]. split; [exact Hgt|].
      intros k' v' [E'|Hin'] Hk'; [inversion E'; subst; lia|].
      now apply (Hmin k' v').
Qed.

Lemma nums_next_least_key_above_witness :
  In (4%Z, DictionaryObject [("/S"%string, NameObject "/D")])
     roman_then_decimal_entries
  /\ (2 < 4)%Z
  /\ forall k' v', In (k', v') roman_then_decimal_entries -> (2 < k')%Z -> (4 <= k')%Z.
Proof.
  apply (proj2 (proj2 (nums_next_least_key_above 2 roman_then_decimal_entries))).
  - repeat constructor.
  - reflexivity.
Defined.

Lemma list_index_app (key : Z) (pre rest : list PdfObject) :
  number_in key pre = false ->
  list_index key (pre ++ NumberObject key :: rest) = List.length pre
  /\ number_in key (pre ++ NumberObject key :: rest) = true.
Proof.
  unfold number_in. induction pre as [|p pre IH]; intros H.
  - cbn [app list_index existsb eq_number List.length]. rewrite Z.eqb_refl.
    split; reflexivity.
  - cbn [existsb] in H. apply orb_false_iff in H. destruct H as [Hp H].
    destruct (IH H) as [I1 I2].
    cbn [app list_index existsb List.length]. rewrite Hp, I1, I2.
    split; reflexivity.
Qed.

(** (X20) When the key is in the Nums array, [nums_clear_range] keeps the
    entries up to and including the entry of the key and deletes the ones
    after it as far as the first entry whose key is at least
    [page_index_to]. *)
Theorem nums_clear_range_after_key
        (key page_index_to : Z) (value : PdfObject)
        (before after : list (Z * PdfObject)) :
  number_in key (nums_of before) = false ->
  nums_clear_range key page_index_to (nums_of (before ++ (key, value) :: after))
  = Ok (nums_of (before ++ (key, value) :: from_key page_index_to after)).
Proof.
  intros Hb.
  assert (Hsplit : forall rest,
             nums_of (before ++ (key, value) :: rest)
             = (nums_of before ++ [NumberObject key; value]) ++ nums_of rest).
  { intros rest. clear. induction before as [|[k v] before IH]; [reflexivity|].
    cbn [app nums_of]. now rewrite IH. }
  unfold nums_clear_range.
  destruct (@list_index_app key (nums_of before) (value :: nums_of after) Hb)
    as [I1 I2].
  assert (E : nums_of (before ++ (key, value) :: after)
              = nums_of before ++ NumberObject key :: value :: nums_of after).
  { rewrite Hsplit, <- app_assoc. reflexivity. }
  rewrite E, I1, I2. cbv zeta.
  replace (nums_of before ++ NumberObject key :: value :: nums_of after)
    with ((nums_of before ++ [NumberObject key; value]) ++ nums_of after)
    by (rewrite <- app_assoc; reflexivity).
  replace (List.length (nums_of before) + 2)
    with (List.length (nums_of before ++ [NumberObject key; value]))
    by (rewrite length_app; reflexivity).
  destruct (@clear_loop_from_key page_index_to after
              (nums_of before ++ [NumberObject key; value])
              (S (List.length
                    ((nums_of before ++ [NumberObject key; value]) ++ nums_of after))))
    as (i & Ei & Hskip).
  { rewrite length_app. lia. }
  rewrite Ei. cbn [bind]. rewrite Hskip.
  rewrite firstn_app, firstn_all, Nat.sub_diag. cbn [firstn].
  rewrite app_nil_r. now rewrite Hsplit.
Qed.

Lemma nums_clear_range_after_key_witness :
  nums_clear_range 0 9 (nums_of ([] ++ (0%Z, NullObject) :: [(4%Z, NullObject)]))
  = Ok (nums_of ([] ++ (0%Z, NullObject) :: from_key 9 [(4%Z, NullObject)])).
Proof.
  apply (@nums_clear_range_after_key 0 9 NullObject [] [(4%Z, NullObject)]).
  reflexivity.
Defined.

(** *** The numerals *)

(** The number a string of letters stands for when A to Z are the digits 1
    to 26 of a numeral in base 26 without a zero, the most significant
    first. *)
Fixpoint alpha_value_from (s : string) (acc : Z) : Z :=
  match s with
  | EmptyString => acc
  | String c s' =>
    alpha_value_from s' (acc * 26 + (Z.of_nat (nat_of_ascii c) - 64))
  end.

Definition alpha_value (s : string) : Z := alpha_value_from s 0.

Definition is_upper_letter (c : ascii) : bool :=
  (65 <=? nat_of_ascii c) && (nat_of_ascii c <=? 90).

Fixpoint string_forallb (p : ascii -> bool) (s : string) : bool :=
  match s with
  | EmptyString => true
  | String c s' => p c && string_forallb p s'
  end.

Lemma append_cons_assoc (a : string) (c : ascii) (b : string) :
  (a ++ String c b)%string = ((a ++ String c EmptyString) ++ b)%string.
Proof. induction a as [|x a IH]; cbn; [reflexivity|now rewrite IH]. Qed.

Lemma append_nil_r (a : string) : (a ++ "")%string = a.
Proof. induction a as [|x a IH]; cbn; [reflexivity|now rewrite IH]. Qed.

Lemma alpha_value_from_app (a b : string) :
  forall acc, alpha_value_from (a ++ b) acc
              = alpha_value_from b (alpha_value_from a acc).
Proof. induction a as [|x a IH]; intros acc; cbn; [reflexivity|apply IH]. Qed.

Lemma string_forallb_app (p : ascii -> bool) (a b : string) :
  string_forallb p (a ++ b) = string_forallb p a && string_forallb p b.
Proof.
  induction a as [|x a IH]; cbn; [reflexivity|]. now rewrite IH, andb_assoc.
Qed.

(** The loop of [to_alpha] puts the digits of [num] before [result]. *)
Lemma alpha_while_digits :
  forall (fuel : nat) (num : Z) (result_ : string),
    Z.to_nat num <= fuel ->
    exists digits,
      alpha_while fuel num result_ = (digits ++ result_)%string
      /\ alpha_value digits = Z.max 0 num
      /\ string_forallb is_upper_letter digits = true
      /\ (digits = EmptyString <-> (num <= 0)%Z).
Proof.
  induction fuel as [|fuel IH]; intros num res Hf.
  - exists EmptyString. cbn [alpha_while].
    destruct (Z.gtb_spec num 0); [lia|].
    unfold alpha_value. cbn [alpha_value_from].
    repeat split; try reflexivity; try lia.
  - cbn [alpha_while]. destruct (Z.gtb_spec num 0) as [Hpos|Hle].
    + set (r := ((num - 1) mod 26)%Z). set (q := ((num - 1) / 26)%Z).
      assert (Hr : (0 <= r < 26)%Z) by (apply Z.mod_pos_bound; lia).
      assert (Hq : (0 <= q <= num - 1)%Z).
      { split; [apply Z.div_pos; lia|].
        apply Z.div_le_upper_bound; lia. }
      assert (Hnum : (num = 26 * q + r + 1)%Z).
      { pose proof (Z.div_mod (num - 1) 26 ltac:(lia)). unfold q, r. lia. }
      set (c := ascii_of_nat (Z.to_nat (65 + r))).
      assert (Hc : nat_of_ascii c = Z.to_nat (65 + r)).
      { unfold c. apply nat_ascii_embedding. lia. }
      destruct (IH q (String c res)) as (d & E & V & L & _); [lia|].
      exists (d ++ String c EmptyString)%string.
      rewrite E, <- append_cons_assoc. split; [reflexivity|]. split; [|split].
      * unfold alpha_value in *. rewrite alpha_value_from_app, V.
        cbn [alpha_value_from]. rewrite Hc. lia.
      * rewrite string_forallb_app, L. cbn [string_forallb andb].
        unfold is_upper_letter. rewrite Hc, andb_true_r.
        apply andb_true_iff. split; apply Nat.leb_le; lia.
      * split; [|lia]. intros N. destruct d; discriminate.
    + exists EmptyString. unfold alpha_value. cbn [alpha_value_from].
      repeat split; try reflexivity; try lia.
Qed.

(** (X21) [to_alpha] writes a positive number as a numeral in base 26
    whose digits 1 to 26 are the letters A to Z: reading the result back as
    such a numeral gives the number, so different page numbers get different
    labels; 26 is Z and 27 is AA.  For a number below 1 the result is the
    empty string. *)
Theorem to_alpha_numeral (num : Z) :
  alpha_value (to_alpha num) = Z.max 0 num
  /\ string_forallb is_upper_letter (to_alpha num) = true
  /\ (to_alpha num = EmptyString <-> (num <= 0)%Z)
  /\ (forall other : Z,
         (0 < num)%Z -> (0 < other)%Z ->
         to_alpha num = to_alpha other -> num = other).
Proof.
  assert (D : forall n, exists digits,
               to_alpha n = digits
               /\ alpha_value digits = Z.max 0 n
               /\ string_forallb is_upper_letter digits = true
               /\ (digits = EmptyString <-> (n <= 0)%Z)).
  { intros n. unfold to_alpha.
    destruct (@alpha_while_digits (Z.to_nat n) n EmptyString (le_n _))
      as (d & E & H).
    exists d. rewrite E, append_nil_r. now split. }
  destruct (D num) as (d & -> & V & L & N).
  split; [exact V|]. split; [exact L|]. split; [exact N|].
  intros other Hn Ho E. destruct (D other) as (d' & E' & V' & _).
  rewrite E' in E. subst d'. lia.
Qed.

Lemma to_alpha_numeral_witness :
  alpha_value (to_alpha 27) = Z.max 0 27 /\ 27%Z = 27%Z.
Proof.
  split.
  - apply (proj1 (to_alpha_numeral 27)).
  - apply (proj2 (proj2 (proj2 (to_alpha_numeral 27))) 27%Z);
      [lia|lia|reflexivity].
Defined.

Lemma roman_while_below (fuel : nat) (symbol : string) (value num : Z)
      (result_ : string) :
  (num < value)%Z -> roman_while fuel symbol value num result_ = (result_, num).
Proof.
  intros H. destruct fuel; cbn [roman_while];
    (destruct (Z.geb_spec num value); [lia|reflexivity]).
Qed.

(** [p] holds of the [n] numbers from 0 on, checked by evaluation. *)
Fixpoint holds_below (p : Z -> bool) (n : nat) : bool :=
  match n with
  | O => true
  | S n' => p (Z.of_nat n') && holds_below p n'
  end.

Lemma holds_below_spec (p : Z -> bool) (limit : Z) :
  forall n : nat,
    Z.of_nat n = limit -> holds_below p n = true ->
    forall k : Z, (0 <= k < limit)%Z -> p k = true.
Proof.
  intros n <-. induction n as [|n IH]; intros H k Hk; [lia|].
  cbn [holds_below] in H. apply andb_true_iff in H. destruct H as [H0 H].
  destruct (Z.eq_dec k (Z.of_nat n)) as [->|N]; [exact H0|].
  apply (IH H). lia.
Qed.

(** A decimal digit in Roman symbols, given the symbols for one, five and
    ten of its place. *)
Definition roman_digit (one five ten : string) (digit : Z) : string :=
  match digit with
  | 1 => one
  | 2 => one ++ one
  | 3 => one ++ one ++ one
  | 4 => one ++ five
  | 5 => five
  | 6 => five ++ one
  | 7 => five ++ one ++ one
  | 8 => five ++ one ++ one ++ one
  | 9 => one ++ ten
  | _ => EmptyString
  end%Z%string.

(** The Roman numeral of a number below 4000: its thousands, hundreds, tens
    and units, each written as a digit of its place. *)
Definition roman_numeral_with (i v x l c d m : string) (num : Z) : string :=
  (roman_digit m EmptyString EmptyString (num / 1000)
   ++ roman_digit c d m (num / 100 mod 10)
   ++ roman_digit x l c (num / 10 mod 10)
   ++ roman_digit i v x (num mod 10))%string.

Definition roman_numeral : Z -> string :=
  roman_numeral_with "I" "V" "X" "L" "C" "D" "M".

Definition roman_numeral_lower : Z -> string :=
  roman_numeral_with "i" "v" "x" "l" "c" "d" "m".

(** [to_roman], its [upper()] and its [lower()] against the numeral. *)
Definition roman_standard (num : Z) : bool :=
  String.eqb (to_roman num) (roman_numeral num)
  && String.eqb (upper (to_roman num)) (roman_numeral num)
  && String.eqb (lower (to_roman num)) (roman_numeral_lower num).

Lemma roman_standard_below (num : Z) :
  (0 <= num < 4000)%Z ->
  to_roman num = roman_numeral num
  /\ upper (to_roman num) = roman_numeral num
  /\ lower (to_roman num) = roman_numeral_lower num.
Proof.
  intros H.
  assert (C : roman_standard num = true).
  { apply (@holds_below_spec roman_standard 4000 (Z.to_nat 4000));
      [vm_compute; reflexivity | vm_compute; reflexivity | exact H]. }
  unfold roman_standard in C. apply andb_true_iff in C. destruct C as [C C3].
  apply andb_true_iff in C. destruct C as [C1 C2].
  now apply String.eqb_eq in C1, C2, C3.
Qed.

(** (X22) [to_roman] writes the numbers from 0 to 3999 as the Roman numeral
    in its usual form: thousands, hundreds, tens and units one after the
    other, each place with the subtractive forms for its 4 and its 9 (1994
    is MCMXCIV).  For zero and the negative numbers the result is the empty
    string. *)
Theorem to_roman_numeral (num : Z) :
  ((num <= 0)%Z -> to_roman num = EmptyString)
  /\ ((0 <= num < 4000)%Z -> to_roman num = roman_numeral num).
Proof.
  split.
  - intros H. unfold to_roman, roman_symbols. cbn [fold_left].
    repeat (rewrite roman_while_below by lia). reflexivity.
  - intros H. now apply roman_standard_below.
Qed.

Lemma to_roman_numeral_witness : to_roman 1994 = "MCMXCIV"%string.
Proof. apply (proj2 (to_roman_numeral 1994)). lia. Defined.

(** *** The label of a page *)

Definition is_lower_letter (c : ascii) : bool :=
  (97 <=? nat_of_ascii c) && (nat_of_ascii c <=? 122).

(** The number a string of small letters stands for when a to z are the
    digits 1 to 26. *)
Fixpoint alpha_value_lower_from (s : string) (acc : Z) : Z :=
  match s with
  | EmptyString => acc
  | String c s' =>
    alpha_value_lower_from s' (acc * 26 + (Z.of_nat (nat_of_ascii c) - 96))
  end.

Definition alpha_value_lower (s : string) : Z := alpha_value_lower_from s 0.

(** What the label of a page is made of after its prefix: the numeral of
    the page number in the style of the label dictionary.  Decimal digits
    for [/D]; the Roman numeral in capital or small letters for [/R] and
    [/r]; for [/A] and [/a] the letters that are the digits 1 to 26 of the
    number in base 26 without a zero, and no letter for a number below 1. *)
Definition numeral_of (style : string) (page : Z) (numeral : string) : Prop :=
  (style = "/D"%string /\ numeral = str_of_Z page)
  \/ (style = "/R"%string /\ (0 <= page < 4000)%Z /\ numeral = roman_numeral page)
  \/ (style = "/r"%string /\ (0 <= page < 4000)%Z
      /\ numeral = roman_numeral_lower page)
  \/ (style = "/A"%string /\ string_forallb is_upper_letter numeral = true
      /\ alpha_value numeral = Z.max 0 page)
  \/ (style = "/a"%string /\ string_forallb is_lower_letter numeral = true
      /\ alpha_value_lower numeral = Z.max 0 page).

Lemma to_alpha_letters (num : Z) :
  string_forallb is_upper_letter (to_alpha num) = true
  /\ alpha_value (to_alpha num) = Z.max 0 num.
Proof.
  unfold to_alpha.
  destruct (@alpha_while_digits (Z.to_nat num) num EmptyString (le_n _))
    as (d & E & V & L & _).
  rewrite E, append_nil_r. now split.
Qed.

Lemma upper_of_capitals (s : string) :
  string_forallb is_upper_letter s = true -> upper s = s.
Proof.
  induction s as [|c s IH]; [reflexivity|]. cbn [string_forallb].
  intros H. apply andb_true_iff in H. destruct H as [Hc Hs].
  unfold upper in *. cbn [map_string]. rewrite (IH Hs). f_equal.
  unfold is_upper_letter in Hc. apply andb_true_iff in Hc.
  destruct Hc as [H1 H2]. apply Nat.leb_le in H1, H2.
  unfold upper_ascii.
  destruct (Nat.leb_spec 97 (nat_of_ascii c)); [lia|reflexivity].
Qed.

Lemma lower_of_capitals (s : string) :
  string_forallb is_upper_letter s = true ->
  string_forallb is_lower_letter (lower s) = true
  /\ forall acc, alpha_value_lower_from (lower s) acc = alpha_value_from s acc.
Proof.
  induction s as [|c s IH]; [now split|]. cbn [string_forallb].
  intros H. apply andb_true_iff in H. destruct H as [Hc Hs].
  destruct (IH Hs) as [L V].
  unfold is_upper_letter in Hc. apply andb_true_iff in Hc.
  destruct Hc as [H1 H2]. apply Nat.leb_le in H1, H2.
  assert (E : nat_of_ascii (lower_ascii c) = nat_of_ascii c + 32).
  { unfold lower_ascii.
    destruct (Nat.leb_spec 65 (nat_of_ascii c)); [|lia].
    destruct (Nat.leb_spec (nat_of_ascii c) 90); [|lia].
    cbn [andb]. apply nat_ascii_embedding. lia. }
  unfold lower in *. cbn [map_string string_forallb alpha_value_lower_from
                          alpha_value_from].
  split.
  - rewrite L, andb_true_r. unfold is_lower_letter. rewrite E.
    apply andb_true_iff. split; apply Nat.leb_le; lia.
  - intros acc. rewrite E, V. f_equal. lia.
Qed.

Section LabelFacts.

Variable objects : nat -> option PdfObject.
Variable repr : PdfObject -> string.

(** The statements after the loop of [index2label], for a label dictionary
    with one of the five styles. *)
Lemma render_label_numeral
      (index start_index start : Z) (d : list (string * PdfObject))
      (style prefix : string) :
  dict_get d "/S" = Some (NameObject style) ->
  (dict_get d "/P" = Some (TextStringObject prefix)
   \/ (dict_get d "/P" = None /\ prefix = EmptyString)) ->
  (dict_get d "/St" = Some (NumberObject start)
   \/ (dict_get d "/St" = None /\ start = 1%Z)) ->
  In style ["/D"; "/R"; "/r"; "/A"; "/a"]%string ->
  (style = "/R"%string \/ style = "/r"%string ->
   (0 <= index - start_index + start < 4000)%Z) ->
  exists numeral,
    numeral_of style (index - start_index + start) numeral
    /\ render_label repr index start_index (Some (DictionaryObject d))
       = Ok (prefix ++ numeral)%string.
Proof.
  intros Hs Hp Hst Hin Hrange. unfold render_label. rewrite Hs.
  assert (P : format repr
                     match dict_get d "/P" with
                     | Some o => o
                     | None => TextStringObject ""
                     end = prefix).
  { destruct Hp as [-> | [-> ->]]; reflexivity. }
  rewrite P.
  assert (S1 : as_int match dict_get d "/St" with
                      | Some o => o
                      | None => NumberObject 1
                      end = Ok start).
  { destruct Hst as [-> | [-> ->]]; reflexivity. }
  rewrite S1. cbn [bind]. set (page := (index - start_index + start)%Z) in *.
  unfold numeral_of.
  destruct Hin as [<-|[<-|[<-|[<-|[<-|[]]]]]]; cbn [eq_str as_str String.eqb
    Ascii.eqb Bool.eqb andb].
  - eexists. split; [left; split; reflexivity|reflexivity].
  - destruct (@roman_standard_below page (Hrange (or_introl eq_refl)))
      as (_ & U & _).
    eexists. split; [right; left; split; [reflexivity|split;
      [exact (Hrange (or_introl eq_refl))|reflexivity]]|].
    now rewrite U.
  - destruct (@roman_standard_below page (Hrange (or_intror eq_refl)))
      as (_ & _ & L).
    eexists. split; [right; right; left; split; [reflexivity|split;
      [exact (Hrange (or_intror eq_refl))|reflexivity]]|].
    now rewrite L.
  - destruct (to_alpha_letters page) as [L V].
    exists (to_alpha page). split.
    + right; right; right; left. now split.
    + now rewrite (upper_of_capitals _ L).
  - destruct (to_alpha_letters page) as [L V].
    destruct (lower_of_capitals _ L) as [L' V'].
    exists (lower (to_alpha page)). split; [|reflexivity].
    right; right; right; right. split; [reflexivity|]. split; [exact L'|].
    unfold alpha_value_lower. rewrite V'. exact V.
Qed.

Lemma render_label_default
      (index start_index : Z) (d : list (string * PdfObject)) :
  dict_get d "/S" = None ->
  (dict_get d "/St" = None
   \/ (exists start, dict_get d "/St" = Some (NumberObject start)) ->
   render_label repr index start_index (Some (DictionaryObject d))
   = Ok (str_of_Z (index + 1)))
  /\ (forall o, dict_get d "/St" = Some o ->
                (forall start, o <> NumberObject start) ->
                render_label repr index start_index (Some (DictionaryObject d))
                = Raise TypeError).
Proof.
  intros Hs. unfold render_label. rewrite Hs. split.
  - intros [-> | [start ->]]; reflexivity.
  - intros o -> N. destruct o; try reflexivity. now elim (N n).
Qed.

End LabelFacts.

(** Nums = [0, {/S: /r}, 4, {/S: /A, /P: "App-", /St: 27}]. *)
Definition roman_then_appendix_entries : list (Z * PdfObject) :=
  [(0%Z, DictionaryObject [("/S"%string, NameObject "/r")]);
   (4%Z, DictionaryObject [("/S"%string, NameObject "/A");
                           ("/P"%string, TextStringObject "App-");
                           ("/St"%string, NumberObject 27)])].

Definition appendix_root : list (string * PdfObject) :=
  [("/PageLabels"%string,
    DictionaryObject
      [("/Nums"%string, ArrayObject (nums_of roman_then_appendix_entries))])].

(** C7. Over a Nums array with ascending keys whose values resolve,
    [index2label] takes the entry with the greatest key that is not above
    the page index (and no entry when every key is above it, which gives
    the decimal index plus one) and renders the label from that entry's
    dictionary: its prefix [/P], then the numeral, in its style [/S], of the
    page number [index - key + start], [start] being its [/St] or 1.  The
    numeral is given by [numeral_of] for each of the five styles.  With
    Nums = [0, {/S: /r}, 4, {/S: /D}] the labels of the indices 0, 4 and 5
    are "i", "1" and "2", also when the two label dictionaries are behind
    indirect references; with the second entry {/S: /A, /P: "App-", /St: 27}
    the label of the index 5 is "App-AB" and that of the index 3 is "iv". *)
Theorem index2label_selects_greatest_key :
  (forall (objects : nat -> option PdfObject) (repr : PdfObject -> string)
          (root_object page_labels : list (string * PdfObject))
          (entries : list (Z * PdfObject)) (index : Z),
      dict_getitem (DataStructures.resolve objects) root_object "/PageLabels"
      = Ok (DictionaryObject page_labels) ->
      dict_getitem (DataStructures.resolve objects) page_labels "/Nums"
      = Ok (ArrayObject (nums_of entries)) ->
      StronglySorted Z.lt (map fst entries) ->
      (forall k v, In (k, v) entries ->
                   exists o, reader_get_object objects v = Ok o) ->
      exists start_index label_dict,
        greatest_key_at_most objects index entries start_index label_dict
        /\ (label_dict = None ->
            index2label objects repr root_object index
            = Ok (str_of_Z (index + 1)))
        /\ (forall (d : list (string * PdfObject)) (style prefix : string)
                   (start : Z),
               label_dict = Some (DictionaryObject d) ->
               dict_get d "/S" = Some (NameObject style) ->
               (dict_get d "/P" = Some (TextStringObject prefix)
                \/ (dict_get d "/P" = None /\ prefix = EmptyString)) ->
               (dict_get d "/St" = Some (NumberObject start)
                \/ (dict_get d "/St" = None /\ start = 1%Z)) ->
               In style ["/D"; "/R"; "/r"; "/A"; "/a"]%string ->
               (style = "/R"%string \/ style = "/r"%string ->
                (0 <= index - start_index + start < 4000)%Z) ->
               exists numeral,
                 numeral_of style (index - start_index + start) numeral
                 /\ index2label objects repr root_object index
                    = Ok (prefix ++ numeral)%string))
  /\ index2label (fun _ => None) no_repr example_root 0 = Ok "i"%string
  /\ index2label (fun _ => None) no_repr example_root 4 = Ok "1"%string
  /\ index2label (fun _ => None) no_repr example_root 5 = Ok "2"%string
  /\ index2label example_objects no_repr example_root_indirect 0 = Ok "i"%string
  /\ index2label example_objects no_repr example_root_indirect 4 = Ok "1"%string
  /\ index2label example_objects no_repr example_root_indirect 5 = Ok "2"%string
  /\ index2label (fun _ => None) no_repr appendix_root 5 = Ok "App-AB"%string
  /\ index2label (fun _ => None) no_repr appendix_root 3 = Ok "iv"%string.
Proof.
  split.
  - intros objects repr root_object page_labels entries index H1 H2 H3 H4.
    destruct (@index2label_greatest_key objects repr root_object page_labels
                entries index H1 H2 H3 H4) as (si & ld & G & E).
    exists si, ld. split; [exact G|]. rewrite E. split.
    + intros ->. reflexivity.
    + intros d style prefix start -> Hs Hp Hst Hin Hrange.
      now apply render_label_numeral.
  - repeat split; vm_compute; reflexivity.
Qed.

Lemma index2label_selects_greatest_key_witness :
  exists start_index label_dict,
    greatest_key_at_most (fun _ => None) 5 roman_then_appendix_entries
                         start_index label_dict
    /\ (label_dict = None ->
        index2label (fun _ => None) no_repr appendix_root 5
        = Ok (str_of_Z (5 + 1)))
    /\ (forall (d : list (string * PdfObject)) (style prefix : string)
               (start : Z),
           label_dict = Some (DictionaryObject d) ->
           dict_get d "/S" = Some (NameObject style) ->
           (dict_get d "/P" = Some (TextStringObject prefix)
            \/ (dict_get d "/P" = None /\ prefix = EmptyString)) ->
           (dict_get d "/St" = Some (NumberObject start)
            \/ (dict_get d "/St" = None /\ start = 1%Z)) ->
           In style ["/D"; "/R"; "/r"; "/A"; "/a"]%string ->
           (style = "/R"%string \/ style = "/r"%string ->
            (0 <= 5 - start_index + start < 4000)%Z) ->
           exists numeral,
             numeral_of style (5 - start_index + start) numeral
             /\ index2label (fun _ => None) no_repr appendix_root 5
                = Ok (prefix ++ numeral)%string).
Proof.
  apply (proj1 index2label_selects_greatest_key
           (fun _ => None) no_repr appendix_root
           [("/Nums"%string, ArrayObject (nums_of roman_then_appendix_entries))]
           roman_then_appendix_entries 5%Z eq_refl eq_refl).
  - repeat constructor.
  - intros k v [E|[E|[]]]; inversion E; subst; eexists; reflexivity.
Defined.

(** (X23) When the entry that [index2label] selects is a label dictionary
    without an [/S] entry, the label is the decimal page index plus one,
    whatever its prefix [/P] is and whatever number its start [/St] is: the
    default style ["D"] is none of the styles ["/D"], ["/R"], ["/r"],
    ["/A"], ["/a"] that the function tests for.  An [/St] that is no number
    raises [TypeError] before the style is looked at. *)
Theorem index2label_without_style
        (objects : nat -> option PdfObject) (repr : PdfObject -> string)
        (root_object page_labels : list (string * PdfObject))
        (entries : list (Z * PdfObject)) (index : Z) :
  dict_getitem (DataStructures.resolve objects) root_object "/PageLabels"
  = Ok (DictionaryObject page_labels) ->
  dict_getitem (DataStructures.resolve objects) page_labels "/Nums"
  = Ok (ArrayObject (nums_of entries)) ->
  StronglySorted Z.lt (map fst entries) ->
  (forall k v, In (k, v) entries ->
               exists o, reader_get_object objects v = Ok o) ->
  exists start_index label_dict,
    greatest_key_at_most objects index entries start_index label_dict
    /\ forall d : list (string * PdfObject),
        label_dict = Some (DictionaryObject d) ->
        dict_get d "/S" = None ->
        (dict_get d "/St" = None
         \/ (exists start, dict_get d "/St" = Some (NumberObject start)) ->
         index2label objects repr root_object index = Ok (str_of_Z (index + 1)))
        /\ (forall o, dict_get d "/St" = Some o ->
                      (forall start, o <> NumberObject start) ->
                      index2label objects repr root_object index
                      = Raise TypeError).
Proof.
  intros H1 H2 H3 H4.
  destruct (@index2label_greatest_key objects repr root_object page_labels
              entries index H1 H2 H3 H4) as (si & ld & G & E).
  exists si, ld. split; [exact G|]. rewrite E.
  intros d -> Hs. now apply render_label_default.
Qed.

(** Nums = [0, {/P: "A-", /St: 8}]. *)
Definition prefix_only_entries : list (Z * PdfObject) :=
  [(0%Z, DictionaryObject [("/P"%string, TextStringObject "A-");
                           ("/St"%string, NumberObject 8)])].

Definition prefix_only_root : list (string * PdfObject) :=
  [("/PageLabels"%string,
    DictionaryObject
      [("/Nums"%string, ArrayObject (nums_of prefix_only_entries))])].

Lemma index2label_without_style_witness :
  exists start_index label_dict,
    greatest_key_at_most (fun _ => None) 2 prefix_only_entries
                         start_index label_dict
    /\ forall d : list (string * PdfObject),
        label_dict = Some (DictionaryObject d) ->
        dict_get d "/S" = None ->
        (dict_get d "/St" = None
         \/ (exists start, dict_get d "/St" = Some (NumberObject start)) ->
         index2label (fun _ => None) no_repr prefix_only_root 2
         = Ok (str_of_Z (2 + 1)))
        /\ (forall o, dict_get d "/St" = Some o ->
                      (forall start, o <> NumberObject start) ->
                      index2label (fun _ => None) no_repr prefix_only_root 2
                      = Raise TypeError).
Proof.
  apply (@index2label_without_style (fun _ => None) no_repr prefix_only_root
           [("/Nums"%string, ArrayObject (nums_of prefix_only_entries))]
           prefix_only_entries 2%Z eq_refl eq_refl).
  - repeat constructor.
  - intros k v [E|[]]; inversion E; subst; eexists; reflexivity.
Defined.

End PageLabels.

(** ** pypdf/_text_extraction/_layout_mode/_text_state_manager.py *)

Module TextStateManager.

(** [TextStateParams], as the keyword arguments it is built from. *)
Record TextStateParams (value Font : Type) : Type := mkTextStateParams {
  txt : string;
  tsp_font : Font;
  tsp_font_size : value;
  tsp_Tc : value;
  tsp_Tw : value;
  tsp_Tz : value;
  tsp_TL : value;
  tsp_Ts : value;
  transform : list value
}.

(** What the embedded code takes from outside its two files: the Python
    values that operands hold, the fonts of the page, the matrix product
    [mult] of pypdf/_text_extraction/__init__.py and the derived attributes
    of a [TextStateParams] (pypdf/.../_text_state_params.py). *)
Record Host : Type := mkHost {
  value : Type;
  Font : Type;
  int_ : Z -> value;
  float_ : Z -> value;
  bool_ : bool -> value;
  mult : list value -> list value -> result (list value);
  fonts : value -> option Font;
  join_str_items : value -> result value;
  tsp_tx : TextStateParams value Font -> value;
  tsp_ty : TextStateParams value Font -> value;
  tsp_font_height : TextStateParams value Font -> value;
  tsp_flip_vertical : TextStateParams value Font -> bool;
  tsp_rotated : TextStateParams value Font -> bool;
  tsp_displaced_transform : TextStateParams value Font -> result (list value)
}.

(** The keys of a transform: [0] to [5], ['is_text'] and ['is_render']. *)
Inductive key : Type :=
| KInt (i : Z)
| KStr (s : string).

Definition key_eqb (a b : key) : bool :=
  match a, b with
  | KInt i, KInt j => (i =? j)%Z
  | KStr s, KStr t => String.eqb s t
  | _, _ => false
  end.

Section Manager.

Variable H : Host.

Abbreviation value := (value H).
Abbreviation Font := (Font H).

(** A transform is a [dict]; the chain map of transforms is the list of its
    [maps], the most recent first. *)
Definition Transform : Type := list (key * value).

Record State : Type := mkState {
  transform_stack : list Transform;
  q_queue : list (Z * Z);
  q_depth : list Z;
  Tc : value;
  Tw : value;
  Tz : value;
  TL : value;
  Ts : value;
  font : option Font;
  font_size : value
}.

(** [t[k]] *)
Fixpoint transform_get (t : Transform) (k : key) : result value :=
  match t with
  | [] => Raise KeyError
  | (k', v) :: t' => if key_eqb k' k then Ok v else transform_get t' k
  end.

(** A [Counter]: a missing key counts 0, [del] of a missing key is allowed. *)
Fixpoint counter_get (c : list (Z * Z)) (k : Z) : Z :=
  match c with
  | [] => 0
  | (k', n) :: c' => if (k' =? k)%Z then n else counter_get c' k
  end.

Fixpoint counter_del (c : list (Z * Z)) (k : Z) : list (Z * Z) :=
  match c with
  | [] => []
  | (k', n) :: c' => if (k' =? k)%Z then counter_del c' k else (k', n) :: counter_del c' k
  end.

Definition counter_set (c : list (Z * Z)) (k n : Z) : list (Z * Z) :=
  (k, n) :: counter_del c k.

(** [raw_transform] and [new_transform] *)
Definition raw_transform (_a _b _c _d _e _f : value) : Transform :=
  [(KInt 0, _a); (KInt 1, _b); (KInt 2, _c); (KInt 3, _d); (KInt 4, _e); (KInt 5, _f)].

Definition new_transform (_a _b _c _d _e _f is_text is_render : value) : Transform :=
  raw_transform _a _b _c _d _e _f
  ++ [(KStr "is_text", is_text); (KStr "is_render", is_render)].

(** [new_transform] called with unpacked arguments: the positional ones fill the
    parameters from the left, the rest take their defaults 1.0, 0.0, 0.0,
    1.0, 0.0, 0.0, False, False; a ninth argument, or a keyword given for a
    parameter that a positional argument fills already, is a [TypeError]. *)
Definition new_transform_args (args : list value) (is_text is_render : option bool)
  : result Transform :=
  let arg i default := nth i args default in
  let flag i (kw : option bool) : result value :=
      match nth_error args i, kw with
      | Some _, Some _ => Raise TypeError
      | Some v, None => Ok v
      | None, Some b => Ok (bool_ H b)
      | None, None => Ok (bool_ H false)
      end in
  if 8 <? List.length args then Raise TypeError
  else
    t <- flag 6 is_text ;;
    r <- flag 7 is_render ;;
    Ok (new_transform (arg 0 (float_ H 1)) (arg 1 (float_ H 0)) (arg 2 (float_ H 0))
                      (arg 3 (float_ H 1)) (arg 4 (float_ H 0)) (arg 5 (float_ H 0))
                      t r).

(** [TextStateManager.__init__] *)
Definition init : State :=
  mkState
    [new_transform (float_ H 1) (float_ H 0) (float_ H 0) (float_ H 1)
                   (float_ H 0) (float_ H 0) (bool_ H false) (bool_ H false)]
    [] [0%Z]
    (float_ H 0) (float_ H 0) (float_ H 100) (float_ H 0) (float_ H 0)
    None (int_ H 0).

Definition with_stack (mgr : State) (stack : list Transform) : State :=
  mkState stack (q_queue mgr) (q_depth mgr) (Tc mgr) (Tw mgr) (Tz mgr) (TL mgr)
          (Ts mgr) (font mgr) (font_size mgr).

Definition with_q (mgr : State) (queue : list (Z * Z)) (depth : list Z) : State :=
  mkState (transform_stack mgr) queue depth (Tc mgr) (Tw mgr) (Tz mgr) (TL mgr)
          (Ts mgr) (font mgr) (font_size mgr).

(** [set_state_param(op, value)]: a list stands for its first item. *)
Definition set_state_param (mgr : State) (op : string) (operands : list value)
  : result State :=
  v <- index operands 0 ;;
  let set Tc' Tw' Tz' TL' Ts' :=
      mkState (transform_stack mgr) (q_queue mgr) (q_depth mgr) Tc' Tw' Tz' TL' Ts'
              (font mgr) (font_size mgr) in
  if String.eqb op "Tc" then Ok (set v (Tw mgr) (Tz mgr) (TL mgr) (Ts mgr))
  else if String.eqb op "Tw" then Ok (set (Tc mgr) v (Tz mgr) (TL mgr) (Ts mgr))
  else if String.eqb op "Tz" then Ok (set (Tc mgr) (Tw mgr) v (TL mgr) (Ts mgr))
  else if String.eqb op "TL" then Ok (set (Tc mgr) (Tw mgr) (Tz mgr) v (Ts mgr))
  else if String.eqb op "Ts" then Ok (set (Tc mgr) (Tw mgr) (Tz mgr) (TL mgr) v)
  else Ok mgr.

Definition set_font (mgr : State) (f : Font) (size : value) : State :=
  mkState (transform_stack mgr) (q_queue mgr) (q_depth mgr) (Tc mgr) (Tw mgr)
          (Tz mgr) (TL mgr) (Ts mgr) (Some f) size.

(** [[transform[i] for i in range(6)]] *)
Definition matrix_of (t : Transform) : result (list value) :=
  a <- transform_get t (KInt 0) ;;
  b <- transform_get t (KInt 1) ;;
  c <- transform_get t (KInt 2) ;;
  d <- transform_get t (KInt 3) ;;
  e <- transform_get t (KInt 4) ;;
  f <- transform_get t (KInt 5) ;;
  Ok [a; b; c; d; e; f].

(** The loop of [effective_transform] over [reversed(maps)]. *)
Fixpoint compose (maps_reversed : list Transform) (result_ : list value)
  : result (list value) :=
  match maps_reversed with
  | [] => Ok result_
  | t :: rest =>
    m <- matrix_of t ;;
    result_ <- mult H result_ m ;;
    compose rest result_
  end.

Definition effective_transform (mgr : State) : result (list value) :=
  compose (rev (transform_stack mgr))
          [int_ H 1; int_ H 0; int_ H 0; int_ H 1; int_ H 0; int_ H 0].

Definition font_not_set : exn :=
  PdfReadError "Font not set. No Tf operator in incoming pdf content stream.".

(** [text_state_params(value)] for a [str] value. *)
Definition text_state_params (mgr : State) (value_ : string)
  : result (TextStateParams value Font) :=
  match font mgr with
  | None => Raise font_not_set
  | Some f =>
    t <- effective_transform mgr ;;
    Ok (mkTextStateParams value_ f (font_size mgr) (Tc mgr) (Tw mgr) (Tz mgr)
                          (TL mgr) (Ts mgr) t)
  end.

(** [ChainMap.parents]: the maps but the first, and a chain map of no map
    holds one empty [dict]. *)
Definition parents (maps : list Transform) : list Transform :=
  match tl maps with
  | [] => [[]]
  | rest => rest
  end.

(** [xs[-1]] and [xs[-1] = v] *)
Definition last_item (xs : list Z) : result Z := getitem xs (-1).

(** [remove_q].  Only the bookkeeping of [q_depth] and [q_queue] is under
    the test; the transform stack loses its top map in every call. *)
Definition remove_q (mgr : State) : result State :=
  top <- last_item (q_depth mgr) ;;
  mgr <-
    (if (top >? 0)%Z then
       depth <- setitem true (q_depth mgr) (-1) (top - 1)%Z ;;
       top <- last_item depth ;;
       let queue := counter_set (q_queue mgr) top (counter_get (q_queue mgr) top - 1) in
       if (counter_get queue top =? 0)%Z
       then Ok (with_q mgr (counter_del queue top) (removelast depth))
       else Ok (with_q mgr queue depth)
     else Ok mgr) ;;
  Ok (with_stack mgr (parents (transform_stack mgr))).

(** [add_q]: no transform is pushed and the stack is not marked. *)
Definition add_q (mgr : State) : result State :=
  top <- last_item (q_depth mgr) ;;
  let depth := q_depth mgr ++ [(top + 1)%Z] in
  top <- last_item depth ;;
  Ok (with_q mgr (counter_set (q_queue mgr) top (counter_get (q_queue mgr) top + 1))
             depth).

(** [add_cm], given its unpacked arguments as a list *)
Definition add_cm (mgr : State) (args : list value) : result State :=
  t <- new_transform_args args None None ;;
  Ok (with_stack mgr (t :: transform_stack mgr)).

Definition _complete_matrix (operands : list value) : list value :=
  match operands with
  | [e; f] => [int_ H 1; int_ H 0; int_ H 0; int_ H 1; e; f]
  | _ => operands
  end.

Definition add_tm (mgr : State) (operands : list value) : result State :=
  t <- new_transform_args (_complete_matrix operands) (Some true) None ;;
  Ok (with_stack mgr (t :: transform_stack mgr)).

Definition add_trm (mgr : State) (operands : list value) : result State :=
  t <- new_transform_args (_complete_matrix operands) (Some true) (Some true) ;;
  Ok (with_stack mgr (t :: transform_stack mgr)).

End Manager.

(** *** Properties of the manager *)

Section ManagerFacts.

Variable H : Host.

Lemma remove_q_pops_one_map (mgr mgr' : State H) :
  remove_q mgr = Ok mgr' ->
  transform_stack mgr' = parents (transform_stack mgr).
Proof.
  unfold remove_q. destruct (last_item (q_depth mgr)) as [top| |]; cbn [bind];
    try discriminate.
  destruct (top >? 0)%Z.
  - destruct (setitem true (q_depth mgr) (-1) (top - 1)%Z) as [depth| |];
      cbn [bind]; try discriminate.
    destruct (last_item depth) as [top'| |]; cbn [bind]; try discriminate.
    destruct (counter_get _ top' =? 0)%Z; cbn [bind]; intros E; inversion E;
      reflexivity.
  - cbn [bind]. intros E. inversion E. reflexivity.
Qed.

Lemma add_q_keeps_stack (mgr mgr' : State H) :
  add_q mgr = Ok mgr' -> transform_stack mgr' = transform_stack mgr.
Proof.
  unfold add_q. destruct (last_item (q_depth mgr)) as [top| |]; cbn [bind];
    try discriminate.
  destruct (last_item (q_depth mgr ++ [(top + 1)%Z])) as [top'| |]; cbn [bind];
    try discriminate.
  intros E. inversion E. reflexivity.
Qed.

Lemma text_state_params_without_font (mgr : State H) (value_ : string) :
  font mgr = None -> text_state_params mgr value_ = Raise font_not_set.
Proof. intros E. unfold text_state_params. rewrite E. reflexivity. Qed.

End ManagerFacts.

(** *** The q bookkeeping and the effective transform *)

(** A call of [add_q] or of [remove_q]. *)
Inductive q_call : Type :=
| Call_add_q
| Call_remove_q.

Section ManagerCalls.

Variable H : Host.

(** The calls of a list made one after the other on the same manager. *)
Fixpoint q_calls (calls : list q_call) (mgr : State H) : result (State H) :=
  match calls with
  | [] => Ok mgr
  | Call_add_q :: calls' => mgr <- add_q mgr ;; q_calls calls' mgr
  | Call_remove_q :: calls' => mgr <- remove_q mgr ;; q_calls calls' mgr
  end.

Lemma last_item_app (xs : list Z) (x : Z) : last_item (xs ++ [x]) = Ok x.
Proof.
  unfold last_item, getitem. rewrite length_app, Nat.add_1_r.
  destruct (Z.leb_spec 0 (-1)) as [N|_]; [lia|]. cbn [andb].
  destruct (Z.leb_spec (- Z.of_nat (S (List.length xs))) (-1)) as [_|N]; [|lia].
  cbn [andb Z.ltb Z.compare].
  replace (Z.to_nat (Z.of_nat (S (List.length xs)) + -1)) with (List.length xs + 0)
    by lia.
  unfold index. rewrite nth_error_app2 by lia.
  replace (List.length xs + 0 - List.length xs) with 0 by lia. reflexivity.
Qed.

Lemma update_last (xs : list Z) (x v : Z) :
  update (xs ++ [x]) (List.length xs) v = xs ++ [v].
Proof. induction xs as [|y xs IH]; cbn; [reflexivity|now rewrite IH]. Qed.

Lemma setitem_last (xs : list Z) (x v : Z) :
  setitem true (xs ++ [x]) (-1) v = Ok (xs ++ [v]).
Proof.
  unfold setitem. rewrite length_app, Nat.add_1_r.
  destruct (Z.leb_spec 0 (-1)) as [N|_]; [lia|]. cbn [andb].
  destruct (Z.leb_spec (- Z.of_nat (S (List.length xs))) (-1)) as [_|N]; [|lia].
  cbn [andb Z.ltb Z.compare].
  replace (Z.to_nat (Z.of_nat (S (List.length xs)) + -1)) with (List.length xs)
    by lia.
  now rewrite update_last.
Qed.

(** The first item of [q_depth] is the 0 that [__init__] puts there. *)
Definition bottom_is_zero (mgr : State H) : Prop :=
  exists rest, q_depth mgr = 0%Z :: rest.

Lemma add_q_bottom (mgr : State H) :
  bottom_is_zero mgr ->
  exists mgr', add_q mgr = Ok mgr' /\ bottom_is_zero mgr'
               /\ transform_stack mgr' = transform_stack mgr.
Proof.
  intros [rest E]. unfold add_q.
  destruct (@exists_last _ (q_depth mgr)) as (front & top & E');
    [rewrite E; discriminate|].
  rewrite E', last_item_app. cbn [bind]. rewrite last_item_app. cbn [bind].
  eexists. split; [reflexivity|]. split; [|reflexivity].
  unfold bottom_is_zero. cbn [q_depth with_q]. rewrite <- E', E.
  now exists (rest ++ [(top + 1)%Z]).
Qed.

Lemma remove_q_bottom (mgr : State H) :
  bottom_is_zero mgr ->
  exists mgr', remove_q mgr = Ok mgr' /\ bottom_is_zero mgr'
               /\ transform_stack mgr' = parents (transform_stack mgr).
Proof.
  intros [rest E]. unfold remove_q.
  destruct (@exists_last _ (q_depth mgr)) as (front & top & E');
    [rewrite E; discriminate|].
  rewrite E', last_item_app. cbn [bind].
  destruct (Z.gtb_spec top 0) as [Hpos|Hle].
  - rewrite setitem_last. cbn [bind]. rewrite last_item_app. cbn [bind].
    assert (F : exists front', front = 0%Z :: front').
    { rewrite E' in E. destruct front as [|z front'].
      - cbn in E. inversion E. lia.
      - cbn in E. inversion E. now exists front'. }
    destruct F as [front' ->].
    match goal with
    | |- context [if ?b then _ else _] => destruct b
    end; cbn [bind]; (eexists; split; [reflexivity|]); (split; [|reflexivity]);
      unfold bottom_is_zero; cbn [q_depth with_q with_stack].
    + rewrite removelast_last. now exists front'.
    + now exists (front' ++ [(top - 1)%Z]).
  - cbn [bind]. eexists. split; [reflexivity|]. split; [|reflexivity].
    unfold bottom_is_zero. cbn [q_depth with_stack]. now exists rest.
Qed.

(** (X24) The bookkeeping of the [q] operators never fails: [__init__] puts
    a 0 at the bottom of [q_depth], and neither [add_q] nor [remove_q]
    changes or removes it, so that [q_depth[-1]] is there in every call.
    Any sequence of [add_q] and [remove_q] calls on a manager with this 0
    returns, however many [remove_q] calls it has. *)
Theorem q_calls_return (calls : list q_call) :
  forall mgr : State H,
    bottom_is_zero mgr ->
    exists mgr', q_calls calls mgr = Ok mgr' /\ bottom_is_zero mgr'.
Proof.
  induction calls as [|[|] calls IH]; intros mgr B.
  - now exists mgr.
  - destruct (add_q_bottom B) as (mgr1 & E & B1 & _).
    cbn [q_calls]. rewrite E. cbn [bind]. now apply IH.
  - destruct (remove_q_bottom B) as (mgr1 & E & B1 & _).
    cbn [q_calls]. rewrite E. cbn [bind]. now apply IH.
Qed.

Lemma init_bottom : bottom_is_zero (init H).
Proof. now exists []. Qed.

Lemma bind_ok (A : Type) (r : result A) : bind r (fun a => Ok a) = r.
Proof. now destruct r. Qed.

(** The loop of [effective_transform] with one more map at its end. *)
Lemma compose_app (maps_reversed : list (Transform H)) (t : Transform H) :
  forall result_ : list (value H),
    compose (maps_reversed ++ [t]) result_
    = (r <- compose maps_reversed result_ ;;
       m <- matrix_of t ;;
       mult H r m).
Proof.
  induction maps_reversed as [|t0 rest IH]; intros r.
  - cbn [app compose bind]. destruct (matrix_of t) as [m| |]; cbn [bind];
      try reflexivity. apply bind_ok.
  - cbn [app compose]. destruct (matrix_of t0) as [m0| |]; cbn [bind];
      try reflexivity.
    destruct (mult H r m0) as [r0| |]; cbn [bind]; try reflexivity.
    apply IH.
Qed.

Lemma effective_transform_push (mgr : State H) (t : Transform H) :
  effective_transform (with_stack mgr (t :: transform_stack mgr))
  = (r <- effective_transform mgr ;; m <- matrix_of t ;; mult H r m).
Proof.
  unfold effective_transform. cbn [transform_stack with_stack rev].
  apply compose_app.
Qed.

(** (X25) A matrix given to [add_cm], [add_tm] or [add_trm] is multiplied
    on the right of the effective transform that the manager had: the
    effective transform after the call is [mult] of the one before and the
    six operands.  The two operands of a [Td] are completed to
    [[1, 0, 0, 1, e, f]] first. *)
Theorem effective_transform_after_add (mgr : State H) (_a _b _c _d _e _f : value H) :
  let after (call : result (State H)) := mgr' <- call ;; effective_transform mgr' in
  let product (m : list (value H)) := r <- effective_transform mgr ;; mult H r m in
  after (add_cm mgr [_a; _b; _c; _d; _e; _f]) = product [_a; _b; _c; _d; _e; _f]
  /\ after (add_tm mgr [_a; _b; _c; _d; _e; _f]) = product [_a; _b; _c; _d; _e; _f]
  /\ after (add_trm mgr [_a; _b; _c; _d; _e; _f]) = product [_a; _b; _c; _d; _e; _f]
  /\ after (add_tm mgr [_e; _f])
     = product [int_ H 1; int_ H 0; int_ H 0; int_ H 1; _e; _f]
  /\ after (add_trm mgr [_e; _f])
     = product [int_ H 1; int_ H 0; int_ H 0; int_ H 1; _e; _f].
Proof.
  cbv zeta. unfold add_cm, add_tm, add_trm.
  repeat split; cbn [_complete_matrix new_transform_args List.length Nat.ltb
                     Nat.leb nth nth_error bind];
    rewrite effective_transform_push; reflexivity.
Qed.

(** (X26) [add_tm] and [add_trm] take at most six operands and [add_cm] at
    most eight arguments: a seventh operand of [add_tm] meets the keyword
    [is_text=True] and is a [TypeError], while [add_cm] takes a seventh and
    an eighth argument for [is_text] and [is_render].  With fewer operands
    the call returns, the missing ones being those of the identity. *)
Theorem add_transform_arity (mgr : State H) (operands : list (value H)) :
  (List.length operands <= 8 <-> exists mgr', add_cm mgr operands = Ok mgr')
  /\ (8 < List.length operands -> add_cm mgr operands = Raise TypeError)
  /\ (List.length operands <= 6 <-> exists mgr', add_tm mgr operands = Ok mgr')
  /\ (6 < List.length operands -> add_tm mgr operands = Raise TypeError)
  /\ (List.length operands <= 6 <-> exists mgr', add_trm mgr operands = Ok mgr')
  /\ (6 < List.length operands -> add_trm mgr operands = Raise TypeError).
Proof.
  unfold add_cm, add_tm, add_trm.
  do 9 (destruct operands as [|? operands];
        [cbn; repeat split; intros; try lia; try (eexists; reflexivity);
         try match goal with
             | H : exists _, Raise _ = Ok _ |- _ => destruct H; discriminate
             end|]).
  unfold new_transform_args.
  cbn [_complete_matrix List.length Nat.ltb Nat.leb bind].
  repeat split; intros; try lia; try reflexivity;
    match goal with
    | H : exists _, Raise _ = Ok _ |- _ => destruct H; discriminate
    end.
Qed.

End ManagerCalls.

End TextStateManager.

(** ** pypdf/_text_extraction/_layout_mode/_fixed_width_page.py *)

Module FixedWidthPage.

Import TextStateManager.

Section Traversal.

Variable H : Host.

Abbreviation value := (value H).
Abbreviation Font := (Font H).
Abbreviation TSP := (TextStateParams (TextStateManager.value H) (TextStateManager.Font H)).

(** An item of the operator iterator: [(operands, operator)]. *)
Definition Op : Type := (list value * string)%type.

Record BTGroup : Type := mkBTGroup {
  tx : value;
  ty : value;
  bt_font_size : value;
  font_height : value;
  text : value;
  displaced_tx : value;
  flip_sort : Z
}.

Definition bt_group (tj_op : TSP) (rendered_text : value) (dispaced_tx : value)
  : BTGroup :=
  mkBTGroup (tsp_tx H tj_op) (tsp_ty H tj_op) (tsp_font_size tj_op)
            (tsp_font_height H tj_op) rendered_text dispaced_tx
            (if tsp_flip_vertical H tj_op then (-1)%Z else 1%Z).

(** What a call leaves behind: its two lists, the manager it has updated
    and the operators it has not taken from the shared iterator. *)
Definition Walk : Type :=
  (list BTGroup * list TSP * State H * list Op)%type.

Definition is_state_param (operator : string) : bool :=
  String.eqb operator "Tc" || String.eqb operator "Tw" || String.eqb operator "Tz"
  || String.eqb operator "TL" || String.eqb operator "Ts".

(** The [Tj]/[TJ] branch. *)
Definition show_text (mgr : State H) (operands : list value) (operator : string)
           (strip_rotated : bool) (bt_groups : list BTGroup) (tsps : list TSP)
  : result (list BTGroup * list TSP) :=
  tj_op <- text_state_params mgr "" ;;
  first <- index operands 0 ;;
  rendered_text <- (if String.eqb operator "TJ" then join_str_items H first
                    else Ok first) ;;
  displaced <- tsp_displaced_transform H tj_op ;;
  displaced_tx <- index displaced 4 ;;
  let bt_groups :=
      if negb (strip_rotated && tsp_rotated H tj_op)
      then bt_groups ++ [bt_group tj_op rendered_text displaced_tx]
      else bt_groups in
  Ok (bt_groups, tsps ++ [tj_op]).

(** [recurs_to_target_op]: the [for] loop over the shared iterator [ops],
    one unit of [fuel] per operator taken; a nested call runs on what is
    left and the loop goes on with what the nested call leaves.  A [Q] that
    ends the loop is only a [break]: the manager is not told. *)
Fixpoint recurs_to_target_op (fuel : nat) (ops : list Op) (mgr : State H)
         (end_target : string) (strip_rotated : bool)
         (bt_groups : list BTGroup) (tsps : list TSP) : result Walk :=
  match fuel with
  | O => OutOfFuel
  | S fuel' =>
    match ops with
    | [] => Ok (bt_groups, tsps, mgr, [])
    | (operands, operator) :: ops' =>
      if String.eqb operator end_target then Ok (bt_groups, tsps, mgr, ops')
      else if String.eqb operator "BT" then
        '(sub_bt_groups, sub_tsps, mgr, ops') <-
          recurs_to_target_op fuel' ops' mgr "ET" strip_rotated [] [] ;;
        recurs_to_target_op fuel' ops' mgr end_target strip_rotated
                            (bt_groups ++ sub_bt_groups) (tsps ++ sub_tsps)
      else if String.eqb operator "q" then
        mgr <- add_q mgr ;;
        '(sub_bt_groups, sub_tsps, mgr, ops') <-
          recurs_to_target_op fuel' ops' mgr "Q" strip_rotated [] [] ;;
        recurs_to_target_op fuel' ops' mgr end_target strip_rotated
                            (bt_groups ++ sub_bt_groups) (tsps ++ sub_tsps)
      else if String.eqb operator "cm" then
        mgr <- add_cm mgr operands ;;
        recurs_to_target_op fuel' ops' mgr end_target strip_rotated bt_groups tsps
      else if String.eqb operator "Tm" then
        mgr <- add_tm mgr operands ;;
        recurs_to_target_op fuel' ops' mgr end_target strip_rotated bt_groups tsps
      else if String.eqb operator "Tf" then
        match operands with
        | [font_name; font_size] =>
          match fonts H font_name with
          | Some f =>
            recurs_to_target_op fuel' ops' (set_font mgr f font_size) end_target
                                strip_rotated bt_groups tsps
          | None => Raise KeyError
          end
        | _ => Raise ValueError
        end
      else if is_state_param operator then
        mgr <- set_state_param mgr operator operands ;;
        recurs_to_target_op fuel' ops' mgr end_target strip_rotated bt_groups tsps
      else if String.eqb operator "Tj" || String.eqb operator "TJ" then
        '(bt_groups, tsps) <-
          show_text mgr operands operator strip_rotated bt_groups tsps ;;
        recurs_to_target_op fuel' ops' mgr end_target strip_rotated bt_groups tsps
      else
        recurs_to_target_op fuel' ops' mgr end_target strip_rotated bt_groups tsps
    end
  end.

(** The loop of [text_show_operations], with the manager it ends with. *)
Fixpoint text_show_loop (fuel : nat) (ops : list Op) (mgr : State H)
         (strip_rotated : bool) (bt_groups : list BTGroup)
  : result (list BTGroup * State H) :=
  match fuel with
  | O => OutOfFuel
  | S fuel' =>
    match ops with
    | [] => Ok (bt_groups, mgr)
    | (operands, operator) :: ops' =>
      if String.eqb operator "BT" then
        '(sub_bt_groups, _, mgr, ops') <-
          recurs_to_target_op fuel' ops' mgr "ET" strip_rotated [] [] ;;
        text_show_loop fuel' ops' mgr strip_rotated (bt_groups ++ sub_bt_groups)
      else if String.eqb operator "q" then
        mgr <- add_q mgr ;;
        '(sub_bt_groups, _, mgr, ops') <-
          recurs_to_target_op fuel' ops' mgr "Q" strip_rotated [] [] ;;
        text_show_loop fuel' ops' mgr strip_rotated (bt_groups ++ sub_bt_groups)
      else if String.eqb operator "Q" then
        mgr <- remove_q mgr ;;
        text_show_loop fuel' ops' mgr strip_rotated bt_groups
      else if String.eqb operator "cm" then
        mgr <- add_cm mgr operands ;;
        text_show_loop fuel' ops' mgr strip_rotated bt_groups
      else text_show_loop fuel' ops' mgr strip_rotated bt_groups
    end
  end.

(** [text_show_operations(ops, fonts, strip_rotated)] without the debug
    output; every iteration takes an operator, so [S (length ops)] units of
    fuel are enough. *)
Definition text_show_walk (ops : list Op) (strip_rotated : bool)
  : result (list BTGroup * State H) :=
  text_show_loop (S (List.length ops)) ops (init H) strip_rotated [].

Definition text_show_operations (ops : list Op) (strip_rotated : bool)
  : result (list BTGroup) :=
  rmap fst (text_show_walk ops strip_rotated).

(** The effective transform after the content stream [ops]. *)
Definition transform_after (ops : list Op) : result (list value) :=
  '(_, mgr) <- text_show_walk ops true ;;
  effective_transform mgr.

End Traversal.

(** *** Properties of the traversal *)

Section TraversalFacts.

Variable H : Host.

(** The operator that ends a nested call only ends its loop. *)
Lemma recurs_end_target_is_a_break
      (fuel : nat) (operands : list (value H)) (end_target : string)
      (ops : list (Op H)) (mgr : State H) (strip_rotated : bool)
      (bt_groups : list (BTGroup H))
      (tsps : list (TextStateParams (value H) (Font H))) :
  recurs_to_target_op (S fuel) ((operands, end_target) :: ops) mgr end_target
                      strip_rotated bt_groups tsps
  = Ok (bt_groups, tsps, mgr, ops).
Proof. cbn [recurs_to_target_op]. rewrite String.eqb_refl. reflexivity. Qed.

(** A text-show operator met while no font is set raises. *)
Lemma recurs_show_text_without_font
      (fuel : nat) (operands : list (value H)) (operator end_target : string)
      (ops : list (Op H)) (mgr : State H) (strip_rotated : bool)
      (bt_groups : list (BTGroup H))
      (tsps : list (TextStateParams (value H) (Font H))) :
  font mgr = None ->
  operator = "Tj"%string \/ operator = "TJ"%string ->
  end_target = "Q"%string \/ end_target = "ET"%string ->
  recurs_to_target_op (S fuel) ((operands, operator) :: ops) mgr end_target
                      strip_rotated bt_groups tsps
  = Raise font_not_set.
Proof.
  intros Hf [->| ->] [->| ->]; cbn [recurs_to_target_op String.eqb Ascii.eqb
    Bool.eqb andb orb is_state_param]; unfold show_text;
    rewrite (text_state_params_without_font mgr "" Hf); reflexivity.
Qed.

End TraversalFacts.

(** *** What a nested call does to the transform stack *)

Section TraversalStack.

Variable H : Host.

(** The operators that put a matrix on the stack in [recurs_to_target_op]. *)
Definition pushes_matrix (o : Op H) : bool :=
  String.eqb (snd o) "cm" || String.eqb (snd o) "Tm".

Lemma add_cm_pushes (mgr mgr' : State H) (operands : list (value H)) :
  add_cm mgr operands = Ok mgr' ->
  exists t, transform_stack mgr' = t :: transform_stack mgr.
Proof.
  unfold add_cm. destruct (new_transform_args H operands None None) as [t| |];
    cbn [bind]; try discriminate.
  intros E. inversion E. now exists t.
Qed.

Lemma add_tm_pushes (mgr mgr' : State H) (operands : list (value H)) :
  add_tm mgr operands = Ok mgr' ->
  exists t, transform_stack mgr' = t :: transform_stack mgr.
Proof.
  unfold add_tm.
  destruct (new_transform_args H (_complete_matrix H operands) (Some true) None)
    as [t| |]; cbn [bind]; try discriminate.
  intros E. inversion E. now exists t.
Qed.

Lemma set_state_param_keeps_stack (mgr mgr' : State H) (operator : string)
      (operands : list (value H)) :
  set_state_param mgr operator operands = Ok mgr' ->
  transform_stack mgr' = transform_stack mgr.
Proof.
  unfold set_state_param. destruct (index operands 0) as [v| |]; cbn [bind];
    try discriminate.
  repeat match goal with
         | |- context [if ?b then _ else _] => destruct b
         end; intros E; inversion E; reflexivity.
Qed.

Lemma not_pushing (operands : list (value H)) (operator : string) :
  operator <> "cm"%string -> operator <> "Tm"%string ->
  pushes_matrix (operands, operator) = false.
Proof.
  intros A B. unfold pushes_matrix. cbn [snd].
  apply String.eqb_neq in A, B. now rewrite A, B.
Qed.

(** One more operator taken before a call that keeps its matrices. *)
Lemma kept_after (o : Op H) (ops ops' taken : list (Op H))
      (stack stack' stack'' pushed0 pushed : list (Transform H)) :
  ops = taken ++ ops' ->
  stack' = pushed0 ++ stack ->
  stack'' = pushed ++ stack' ->
  List.length pushed0 = (if pushes_matrix o then 1 else 0) ->
  List.length pushed = List.length (filter pushes_matrix taken) ->
  exists taken' pushed',
    o :: ops = taken' ++ ops'
    /\ stack'' = pushed' ++ stack
    /\ List.length pushed' = List.length (filter pushes_matrix taken').
Proof.
  intros -> -> -> L0 L. exists (o :: taken), (pushed ++ pushed0).
  split; [reflexivity|]. split; [now rewrite app_assoc|].
  cbn [filter]. rewrite length_app, L, L0.
  destruct (pushes_matrix o); cbn [List.length]; lia.
Qed.

(** (X27) A call of [recurs_to_target_op] never takes a matrix off the
    transform stack, also not at the [Q] that ends it: when it returns, the
    operators it has taken from the iterator are a prefix of those it was
    given, and the stack is the one it was given with one more map for each
    [cm] and each [Tm] among the operators taken. *)
Theorem recurs_to_target_op_keeps_matrices :
  forall (fuel : nat) (ops : list (Op H)) (mgr : State H) (end_target : string)
         (strip_rotated : bool) (bt_groups : list (BTGroup H))
         (tsps : list (TextStateParams (value H) (Font H)))
         (bt_groups' : list (BTGroup H))
         (tsps' : list (TextStateParams (value H) (Font H)))
         (mgr' : State H) (ops' : list (Op H)),
    end_target = "Q"%string \/ end_target = "ET"%string ->
    recurs_to_target_op fuel ops mgr end_target strip_rotated bt_groups tsps
    = Ok (bt_groups', tsps', mgr', ops') ->
    exists taken pushed,
      ops = taken ++ ops'
      /\ transform_stack mgr' = pushed ++ transform_stack mgr
      /\ List.length pushed = List.length (filter pushes_matrix taken).
Proof.
  induction fuel as [|fuel IH]; intros ops mgr end_target sr bg ts bg' ts' mgr'
                                       ops' Het E.
  { cbn [recurs_to_target_op] in E. discriminate. }
  destruct ops as [|[operands operator] ops0].
  { cbn [recurs_to_target_op] in E. inversion E. now exists [], []. }
  (* the nested call and the rest of the loop after it *)
  assert (Nested :
    forall (sub_target : string) (mgr0 : State H),
      sub_target = "Q"%string \/ sub_target = "ET"%string ->
      transform_stack mgr0 = transform_stack mgr ->
      pushes_matrix (operands, operator) = false ->
      ('(sub_bt_groups, sub_tsps, mgr, ops') <-
         recurs_to_target_op fuel ops0 mgr0 sub_target sr [] [] ;;
       recurs_to_target_op fuel ops' mgr end_target sr
                           (bg ++ sub_bt_groups) (ts ++ sub_tsps))
      = Ok (bg', ts', mgr', ops') ->
      exists taken pushed,
        (operands, operator) :: ops0 = taken ++ ops'
        /\ transform_stack mgr' = pushed ++ transform_stack mgr
        /\ List.length pushed = List.length (filter pushes_matrix taken)).
  { intros sub_target mgr0 Hsub Hstack Hnot E'.
    destruct (recurs_to_target_op fuel ops0 mgr0 sub_target sr [] [])
      as [[[[sb st] m1] o1]| |] eqn:E1; cbn [bind] in E'; try discriminate.
    destruct (IH _ _ _ _ _ _ _ _ _ _ Hsub E1) as (t1 & p1 & T1 & S1 & L1).
    destruct (IH _ _ _ _ _ _ _ _ _ _ Het E') as (t2 & p2 & T2 & S2 & L2).
    exists ((operands, operator) :: t1 ++ t2), (p2 ++ p1).
    split; [rewrite T1, T2; cbn [app]; now rewrite app_assoc|].
    split; [rewrite S2, S1, Hstack; now rewrite app_assoc|].
    cbn [filter]. rewrite Hnot, filter_app, !length_app. lia. }
  (* an operator after which the loop goes on *)
  assert (Goes_on :
    forall (mgr0 : State H) (bg0 : list (BTGroup H))
           (ts0 : list (TextStateParams (value H) (Font H)))
           (pushed0 : list (Transform H)),
      transform_stack mgr0 = pushed0 ++ transform_stack mgr ->
      List.length pushed0 = (if pushes_matrix (operands, operator) then 1 else 0) ->
      recurs_to_target_op fuel ops0 mgr0 end_target sr bg0 ts0
      = Ok (bg', ts', mgr', ops') ->
      exists taken pushed,
        (operands, operator) :: ops0 = taken ++ ops'
        /\ transform_stack mgr' = pushed ++ transform_stack mgr
        /\ List.length pushed = List.length (filter pushes_matrix taken)).
  { intros mgr0 bg0 ts0 pushed0 Hstack Hlen E'.
    destruct (IH _ _ _ _ _ _ _ _ _ _ Het E') as (t & p & T & S & L).
    exact (@kept_after (operands, operator) _ _ _ _ _ _ _ _ T Hstack S Hlen L). }
  cbn [recurs_to_target_op] in E.
  destruct (String.eqb_spec operator end_target) as [->|Nend].
  { inversion E. exists [(operands, end_target)], []. split; [reflexivity|].
    split; [reflexivity|]. cbn [filter]. unfold pushes_matrix. cbn [snd].
    destruct Het as [-> | ->]; reflexivity. }
  destruct (String.eqb_spec operator "BT") as [->|NBT].
  { apply (Nested "ET"%string mgr); [now right|reflexivity|reflexivity|exact E]. }
  destruct (String.eqb_spec operator "q") as [->|Nq].
  { destruct (add_q mgr) as [m1| |] eqn:Eq; cbn [bind] in E; try discriminate.
    apply (Nested "Q"%string m1);
      [now left|exact (add_q_keeps_stack mgr Eq)|reflexivity|exact E]. }
  destruct (String.eqb_spec operator "cm") as [->|Ncm].
  { destruct (add_cm mgr operands) as [m1| |] eqn:Ecm; cbn [bind] in E;
      try discriminate.
    destruct (add_cm_pushes mgr operands Ecm) as [t St].
    apply (Goes_on m1 bg ts [t]); [exact St|reflexivity|exact E]. }
  destruct (String.eqb_spec operator "Tm") as [->|NTm].
  { destruct (add_tm mgr operands) as [m1| |] eqn:Etm; cbn [bind] in E;
      try discriminate.
    destruct (add_tm_pushes mgr operands Etm) as [t St].
    apply (Goes_on m1 bg ts [t]); [exact St|reflexivity|exact E]. }
  pose proof (not_pushing operands Ncm NTm) as Hnot.
  destruct (String.eqb operator "Tf").
  { destruct operands as [|font_name [|font_size [|extra operands]]];
      try discriminate.
    destruct (fonts H font_name) as [f|]; [|discriminate].
    apply (Goes_on (set_font mgr f font_size) bg ts []);
      [reflexivity|now rewrite Hnot|exact E]. }
  destruct (is_state_param operator).
  { destruct (set_state_param mgr operator operands) as [m1| |] eqn:Es;
      cbn [bind] in E; try discriminate.
    apply (Goes_on m1 bg ts []);
      [exact (set_state_param_keeps_stack mgr operator operands Es)
      |now rewrite Hnot|exact E]. }
  destruct (String.eqb operator "Tj" || String.eqb operator "TJ").
  { destruct (show_text mgr operands operator sr bg ts) as [[bg1 ts1]| |] eqn:Es;
      cbn [bind] in E; try discriminate.
    apply (Goes_on mgr bg1 ts1 []); [reflexivity|now rewrite Hnot|exact E]. }
  apply (Goes_on mgr bg ts []); [reflexivity|now rewrite Hnot|exact E].
Qed.

End TraversalStack.

End FixedWidthPage.

(** ** The transform stack on concrete content streams *)

Module LayoutExamples.

Import TextStateManager FixedWidthPage.

(** Operand values: numbers with integral values (on which the arithmetic
    of [float] is exact, and [1.0 == 1]), booleans, strings and arrays. *)
Inductive pyvalue : Type :=
| VNum (z : Z)
| VBool (b : bool)
| VStr (s : string)
| VList (items : list pyvalue).

Definition as_num (v : pyvalue) : result Z :=
  match v with
  | VNum z => Ok z
  | VBool b => Ok (if b then 1 else 0)%Z
  | _ => Raise TypeError
  end.

(** Modelled from the spec: [mult] (pypdf/_text_extraction/__init__.py is
    not among the sources), "the effective transform is the left-to-right
    composition (matrix multiply) of all active matrices": the product of
    the affine matrices (a, b, c, d, e, f). *)
Definition mult_matrix (m n : list pyvalue) : result (list pyvalue) :=
  m0 <- (x <- index m 0 ;; as_num x) ;; m1 <- (x <- index m 1 ;; as_num x) ;;
  m2 <- (x <- index m 2 ;; as_num x) ;; m3 <- (x <- index m 3 ;; as_num x) ;;
  m4 <- (x <- index m 4 ;; as_num x) ;; m5 <- (x <- index m 5 ;; as_num x) ;;
  n0 <- (x <- index n 0 ;; as_num x) ;; n1 <- (x <- index n 1 ;; as_num x) ;;
  n2 <- (x <- index n 2 ;; as_num x) ;; n3 <- (x <- index n 3 ;; as_num x) ;;
  n4 <- (x <- index n 4 ;; as_num x) ;; n5 <- (x <- index n 5 ;; as_num x) ;;
  Ok (map VNum [m0 * n0 + m1 * n2; m0 * n1 + m1 * n3;
                m2 * n0 + m3 * n2; m2 * n1 + m3 * n3;
                m4 * n0 + m5 * n2 + n4; m4 * n1 + m5 * n3 + n5]%Z).

(** The page has one font, /F1. *)
Definition page_fonts (name : pyvalue) : option unit :=
  match name with
  | VStr s => if String.eqb s "/F1" then Some tt else None
  | _ => None
  end.

(** [''.join(op if isinstance(op, str) else '' for op in items)] *)
Definition join_items (v : pyvalue) : result pyvalue :=
  match v with
  | VList items =>
    Ok (VStr (String.concat ""
                (map (fun op => match op with VStr s => s | _ => EmptyString end) items)))
  | VStr s => Ok (VStr s)
  | _ => Raise TypeError
  end.

(** Modelled from the spec: the derived attributes of [TextStateParams]
    (pypdf/.../_text_state_params.py is not among the sources): the run
    starts where the effective transform sends (0, 0), is rotated when the
    transform is not axis-aligned, and has no width here. *)
Definition entry (i : nat) (t : TextStateParams pyvalue unit) : pyvalue :=
  nth i (transform t) (VNum 0).

Definition is_rotated (t : TextStateParams pyvalue unit) : bool :=
  match entry 1 t, entry 2 t with
  | VNum 0, VNum 0 => false
  | _, _ => true
  end.

Definition host : Host :=
  mkHost VNum VNum VBool mult_matrix page_fonts join_items
         (entry 4) (entry 5) (fun t => tsp_font_size t) (fun _ => false)
         is_rotated (fun t => Ok (transform t)).

Definition op (operator : string) (operands : list pyvalue) : Op host :=
  (operands, operator).

Definition cm (a b c d e f : Z) : Op host :=
  op "cm" (map VNum [a; b; c; d; e; f]).

Definition q_three_cm_Q : list (Op host) :=
  [op "q" []; cm 2 0 0 2 0 0; cm 1 0 0 1 5 0; cm 1 0 0 1 0 7; op "Q" []].

Definition text_run : list (Op host) :=
  [op "BT" []; op "Tf" [VStr "/F1"; VNum 12]; op "Tj" [VStr "x"]; op "ET" []].

(** The manager calls that the claim names, made one after the other. *)
Definition q_three_cm_remove_q : result (State host) :=
  mgr <- add_q (init host) ;;
  mgr <- add_cm mgr (map VNum [2; 0; 0; 2; 0; 0]%Z) ;;
  mgr <- add_cm mgr (map VNum [1; 0; 0; 1; 5; 0]%Z) ;;
  mgr <- add_cm mgr (map VNum [1; 0; 0; 1; 0; 7]%Z) ;;
  remove_q mgr.

Definition identity : list pyvalue := map VNum [1; 0; 0; 1; 0; 0]%Z.

(** C1 (the code departs from the claim).  After [q], three [cm] and the
    matching [Q] the effective transform is the product of the three
    matrices, not the identity it was before the [q]: the [Q] only ends the
    nested loop.  The calls [add_q], three [add_cm], [remove_q] made on a
    fresh manager leave two of the three matrices in place.  A [Q] without
    a [q] takes the latest [cm] away, and on a fresh manager it takes the
    initial identity away, after which the effective transform cannot be
    computed. *)
Theorem q_three_cm_Q_does_not_restore :
  transform_after (H := host) [] = Ok identity
  /\ transform_after q_three_cm_Q = Ok (map VNum [2; 0; 0; 2; 5; 7]%Z)
  /\ (mgr <- q_three_cm_remove_q ;; effective_transform mgr)
     = Ok (map VNum [2; 0; 0; 2; 5; 0]%Z)
  /\ transform_after [cm 2 0 0 2 0 0] = Ok (map VNum [2; 0; 0; 2; 0; 0]%Z)
  /\ transform_after [cm 2 0 0 2 0 0; op "Q" []] = Ok identity
  /\ rmap (fun w => transform_stack (snd w)) (text_show_walk [op "Q" []] true)
     = Ok [[]]
  /\ transform_after [op "Q" []] = Raise KeyError.
Proof. repeat split; vm_compute; reflexivity. Qed.

(** C8 (the code departs from the claim).  A [Tj] in a text object without
    a [Tf] before it raises the font-not-set [PdfReadError], also inside a
    [q]; but an unmatched [Q] before a text object that is well formed (the
    same operators alone give one run) makes the traversal raise
    [KeyError]. *)
Theorem unmatched_Q_makes_text_show_raise :
  text_show_operations [op "BT" []; op "Tj" [VStr "x"]; op "ET" []] true
  = Raise font_not_set
  /\ text_show_operations
       [op "q" []; op "BT" []; op "TJ" [VList [VStr "x"]]; op "ET" []; op "Q" []] true
     = Raise font_not_set
  /\ (exists run, text_show_operations text_run true = Ok [run])
  /\ text_show_operations ([op "q" []] ++ text_run) true
     = text_show_operations text_run true
  /\ text_show_operations (op "Q" [] :: text_run) true = Raise KeyError.
Proof.
  split; [vm_compute; reflexivity|].
  split; [vm_compute; reflexivity|].
  split; [eexists; vm_compute; reflexivity|].
  split; vm_compute; reflexivity.
Qed.

(** *** The general facts on these streams *)

Lemma q_calls_return_witness :
  exists mgr',
    q_calls [Call_remove_q; Call_add_q; Call_add_q; Call_remove_q; Call_remove_q;
             Call_remove_q] (init host) = Ok mgr'
    /\ bottom_is_zero mgr'.
Proof.
  apply (@q_calls_return host
           [Call_remove_q; Call_add_q; Call_add_q; Call_remove_q; Call_remove_q;
            Call_remove_q] (init host)).
  exists []. reflexivity.
Defined.

Lemma add_transform_arity_witness :
  add_tm (init host) (map VNum [1; 0; 0; 1; 5; 7; 1]%Z) = Raise TypeError.
Proof.
  apply (proj1 (proj2 (proj2 (proj2 (@add_transform_arity host (init host)
           (map VNum [1; 0; 0; 1; 5; 7; 1]%Z)))))).
  cbn. lia.
Defined.

(** A group with a [cm] and a text object with a [Tm], and an operator after
    the [Q]. *)
Definition group_then_text : list (Op host) :=
  [cm 2 0 0 2 0 0; op "BT" []; op "Tm" (map VNum [1; 0; 0; 1; 5; 7]%Z);
   op "ET" []; op "Q" []; op "BT" []].

Lemma recurs_to_target_op_keeps_matrices_witness :
  exists taken pushed,
    group_then_text = taken ++ [op "BT" []]
    /\ [new_transform host (VNum 1) (VNum 0) (VNum 0) (VNum 1) (VNum 5) (VNum 7)
                      (VBool true) (VBool false);
        new_transform host (VNum 2) (VNum 0) (VNum 0) (VNum 2) (VNum 0) (VNum 0)
                      (VBool false) (VBool false);
        new_transform host (VNum 1) (VNum 0) (VNum 0) (VNum 1) (VNum 0) (VNum 0)
                      (VBool false) (VBool false)]
       = pushed ++ transform_stack (init host)
    /\ List.length pushed = List.length (filter (@pushes_matrix host) taken).
Proof.
  apply (@recurs_to_target_op_keeps_matrices host 6 group_then_text (init host)
           "Q" true [] [] [] []
           (with_stack (init host)
              [new_transform host (VNum 1) (VNum 0) (VNum 0) (VNum 1) (VNum 5) (VNum 7)
                             (VBool true) (VBool false);
               new_transform host (VNum 2) (VNum 0) (VNum 0) (VNum 2) (VNum 0) (VNum 0)
                             (VBool false) (VBool false);
               new_transform host (VNum 1) (VNum 0) (VNum 0) (VNum 1) (VNum 0) (VNum 0)
                             (VBool false) (VBool false)])
           [op "BT" []]).
  - left. reflexivity.
  - vm_compute. reflexivity.
Defined.

End LayoutExamples.
